(** * mmap_write_syncer: the memory-mapped rotating log writer

    A shallow embedding of [logger.MMapLogger] (write path, window
    allocation, rotation, stop) and of its retention sweep
    ([millRunOnce], [oldLogFiles], [compressLogFile]), with the properties
    of the written specification stated against it.

    Conventions.
    - Go's [int] and [int64] are 64-bit two's-complement integers; they are
      carried as [Z] and every arithmetic result is passed through
      [wrap64].
    - The operating system is a value of type [World]: the directory that
      holds the log file (entries keyed by their final path element), the
      inodes behind the entries, the open [os.File] objects, the active
      memory mappings as Go's [syscall] package tracks them, and a table
      [fails] that says which system calls the environment makes fail.
    - A Go runtime panic or a memory fault ends a computation in [Panic]. *)

From Stdlib Require Import ZArith Lia Bool Ascii String List.
From Stdlib.Strings Require Import Byte.
From stdpp Require Import gmap strings list fin_maps sorting.

Open Scope Z_scope.

(* ===================================================================== *)
(** * 64-bit integers *)
(* ===================================================================== *)

Definition min_int64 : Z := -9223372036854775808.
Definition max_int64 : Z := 9223372036854775807.

(** The value a 64-bit signed register holds after computing [x]. *)
Definition wrap64 (x : Z) : Z :=
  (x - min_int64) mod 18446744073709551616 + min_int64.

Definition in_int64 (x : Z) : Prop := min_int64 <= x <= max_int64.

(* ===================================================================== *)
(** * Constants of the package *)
(* ===================================================================== *)

Definition compressSuffix : string := ".gz".
Definition defaultMmapMaxSize : Z := 100.
Definition defaultMegaByteSize : Z := 10.
Definition megabyte : Z := 1024 * 1024.
Definition pageSize : Z := 4 * 1024.

(* ===================================================================== *)
(** * Strings and paths (Go's [strings] and [path/filepath]) *)
(* ===================================================================== *)

Definition slen (s : string) : nat := String.length s.

(** [strings.HasPrefix]: [len(s) >= len(prefix) && s[:len(prefix)] == prefix]. *)
Definition HasPrefix (s prefix : string) : bool :=
  (slen prefix <=? slen s)%nat && String.eqb (String.substring 0 (slen prefix) s) prefix.

(** [strings.HasSuffix]: [len(s) >= len(suffix) && s[len(s)-len(suffix):] == suffix]. *)
Definition HasSuffix (s suffix : string) : bool :=
  (slen suffix <=? slen s)%nat &&
  String.eqb (String.substring (slen s - slen suffix) (slen suffix) s) suffix.

(** The slice expression [s[lo:hi]] for [hi <= len(s)]; it panics ([None])
    when [lo > hi]. *)
Definition slice (s : string) (lo hi : nat) : option string :=
  if (lo <=? hi)%nat then Some (String.substring lo (hi - lo) s) else None.

Definition is_sep (c : ascii) : bool := Ascii.eqb c "/"%char.
Definition is_dot (c : ascii) : bool := Ascii.eqb c "."%char.

(** [filepath.Ext] scans from the end of the path: the suffix starting at
    the last dot of the final element, empty when that element has no dot.
    [rpath] is the path reversed, [acc] the characters already passed. *)
Fixpoint ext_scan (rpath : list ascii) (acc : list ascii) : list ascii :=
  match rpath with
  | [] => []
  | c :: r =>
      if is_sep c then []
      else if is_dot c then c :: acc
      else ext_scan r (c :: acc)
  end.

Definition Ext (path : string) : string :=
  string_of_list_ascii (ext_scan (rev (list_ascii_of_string path)) []).

(** [filepath.Base]: strip trailing separators, keep what follows the last
    separator; the empty path gives ".", a path of separators gives "/". *)
Fixpoint strip_seps (rpath : list ascii) : list ascii :=
  match rpath with
  | [] => []
  | c :: r => if is_sep c then strip_seps r else rpath
  end.

Fixpoint last_elem (rpath : list ascii) (acc : list ascii) : list ascii :=
  match rpath with
  | [] => acc
  | c :: r => if is_sep c then acc else last_elem r (c :: acc)
  end.

Definition Base (path : string) : string :=
  match path with
  | EmptyString => "."
  | _ =>
      match last_elem (strip_seps (rev (list_ascii_of_string path))) [] with
      | [] => "/"
      | e => string_of_list_ascii e
      end
  end.

(** [filename[:len(filename)-len(ext)]] for [ext = Ext filename]. *)
Definition trimExt (filename : string) : string :=
  String.substring 0 (slen filename - slen (Ext filename)) filename.

(* ===================================================================== *)
(** * The operating system *)
(* ===================================================================== *)

(** The system calls whose failure the code checks. *)
Inductive sysop : Type :=
  | OpMkdirAll | OpStat | OpRename | OpChown | OpOpenFile | OpFstat
  | OpClose | OpFtruncate | OpMmap | OpMunmap.

Inductive error : Type :=
  | ErrWriteTooLarge    (* "write length %d exceeds maximum file size %d" *)
  | ErrMkdir | ErrStat | ErrRename | ErrChown | ErrOpen | ErrFstat
  | ErrClose            (* close(2) reported an error *)
  | ErrClosed           (* os.ErrClosed: the file object is already closed *)
  | ErrInvalid          (* os.ErrInvalid: method called on a nil *os.File *)
  | ErrBadFd            (* EBADF *)
  | ErrInval            (* EINVAL *)
  | ErrFtruncate | ErrMmap | ErrMunmap.

Inductive fault : Type :=
  | SliceBounds         (* slice bounds out of range *)
  | SegFault.           (* store into memory that is not mapped *)

(** A regular file: its size and its bytes (zero where never written). *)
Record inode : Type := { i_size : Z; i_data : Z -> byte }.

(** A mapping of [r_len] bytes of inode [r_ino] from offset [r_off]. *)
Record region : Type := { r_ino : nat; r_off : Z; r_len : Z }.

(** A byte slice over mapped memory: the mapping behind it and its length.
    The nil slice is [None] at the use site. *)
Record mslice : Type := { s_map : nat; s_len : Z }.

Record World : Type := {
  names : gmap string nat;     (* directory entries of the log directory *)
  inodes : gmap nat inode;
  fds : gmap nat nat;          (* open os.File objects, to their inode *)
  maps : gmap nat region;      (* active mappings *)
  next_id : nat;               (* next unused inode / file / mapping id *)
  fails : sysop -> bool;       (* operations the environment makes fail *)
  stamp : bool -> string;      (* currentTime() in backupTimeFormat; the
                                  argument is the LocalTime flag *)
  args0 : string;              (* os.Args[0] *)
  tempDir : string             (* os.TempDir() *)
}.

Definition set_names (f : gmap string nat -> gmap string nat) (w : World) : World :=
  {| names := f (names w); inodes := inodes w; fds := fds w; maps := maps w;
     next_id := next_id w; fails := fails w; stamp := stamp w;
     args0 := args0 w; tempDir := tempDir w |}.
Definition set_inodes (f : gmap nat inode -> gmap nat inode) (w : World) : World :=
  {| names := names w; inodes := f (inodes w); fds := fds w; maps := maps w;
     next_id := next_id w; fails := fails w; stamp := stamp w;
     args0 := args0 w; tempDir := tempDir w |}.
Definition set_fds (f : gmap nat nat -> gmap nat nat) (w : World) : World :=
  {| names := names w; inodes := inodes w; fds := f (fds w); maps := maps w;
     next_id := next_id w; fails := fails w; stamp := stamp w;
     args0 := args0 w; tempDir := tempDir w |}.
Definition set_maps (f : gmap nat region -> gmap nat region) (w : World) : World :=
  {| names := names w; inodes := inodes w; fds := fds w; maps := f (maps w);
     next_id := next_id w; fails := fails w; stamp := stamp w;
     args0 := args0 w; tempDir := tempDir w |}.
Definition bump_id (w : World) : World :=
  {| names := names w; inodes := inodes w; fds := fds w; maps := maps w;
     next_id := S (next_id w); fails := fails w; stamp := stamp w;
     args0 := args0 w; tempDir := tempDir w |}.

Definition empty_file : inode := {| i_size := 0; i_data := fun _ => x00 |}.

Inductive stat_result : Type :=
  | StatOk (ino : nat)
  | StatNotExist
  | StatErr.

(** [os.Stat(name)]. *)
Definition sys_stat (name : string) (w : World) : stat_result :=
  if fails w OpStat then StatErr
  else match names w !! name with
       | Some ino => StatOk ino
       | None => StatNotExist
       end.

(** [os.OpenFile(name, os.O_RDWR|os.O_CREATE, 0664)]: the entry is created
    empty when missing and is never truncated. *)
Definition sys_openfile (name : string) (w : World) : World * (error + nat) :=
  if fails w OpOpenFile then (w, inl ErrOpen)
  else match names w !! name with
       | Some ino =>
           let h := next_id w in
           (bump_id (set_fds (insert h ino) w), inr h)
       | None =>
           let ino := next_id w in
           let w1 := bump_id (set_inodes (insert ino empty_file)
                                (set_names (insert name ino) w)) in
           let h := next_id w1 in
           (bump_id (set_fds (insert h ino) w1), inr h)
       end.

(** [File.Close] on a non-nil file: the descriptor is released even
    when close(2) reports an error; a closed file gives [os.ErrClosed]. *)
Definition sys_close (h : nat) (w : World) : World * option error :=
  match fds w !! h with
  | Some _ =>
      (set_fds (delete h) w, if fails w OpClose then Some ErrClose else None)
  | None => (w, Some ErrClosed)
  end.

(** [File.Stat]: the size of the open file. *)
Definition sys_fstat (h : nat) (w : World) : error + Z :=
  if fails w OpFstat then inl ErrFstat
  else match fds w !! h with
       | Some ino =>
           match inodes w !! ino with
           | Some f => inr (i_size f)
           | None => inl ErrFstat
           end
       | None => inl ErrClosed
       end.

Definition truncate_inode (n : Z) (f : inode) : inode :=
  {| i_size := n;
     i_data := fun i => if (i <? Z.min (i_size f) n) then i_data f i else x00 |}.

(** [syscall.Ftruncate(int(file.Fd()), n)]. [Fd] of a nil or closed file is
    -1, on which the call fails with EBADF. *)
Definition sys_ftruncate (file : option nat) (n : Z) (w : World) : World * option error :=
  match file with
  | None => (w, Some ErrBadFd)
  | Some h =>
      match fds w !! h with
      | None => (w, Some ErrBadFd)
      | Some ino =>
          if fails w OpFtruncate then (w, Some ErrFtruncate)
          else if n <? 0 then (w, Some ErrInval)
          else (set_inodes (alter (truncate_inode n) ino) w, None)
      end
  end.

(** [syscall.Mmap(fd, offset, length, PROT_WRITE, MAP_SHARED)]. *)
Definition sys_mmap (file : option nat) (off len : Z) (w : World) : World * (error + mslice) :=
  match file with
  | None => (w, inl ErrBadFd)
  | Some h =>
      match fds w !! h with
      | None => (w, inl ErrBadFd)
      | Some ino =>
          if fails w OpMmap then (w, inl ErrMmap)
          else if (len <=? 0) || (off <? 0) || negb (off mod pageSize =? 0)
               then (w, inl ErrInval)
          else
            let m := next_id w in
            (bump_id (set_maps (insert m {| r_ino := ino; r_off := off; r_len := len |}) w),
             inr {| s_map := m; s_len := len |})
      end
  end.

(** [syscall.Munmap(data)]: Go keeps the table of the mappings it handed
    out and answers EINVAL for a slice that is not (or no longer) in it. *)
Definition sys_munmap (data : mslice) (w : World) : World * option error :=
  if s_len data =? 0 then (w, Some ErrInval)
  else match maps w !! s_map data with
       | None => (w, Some ErrInval)
       | Some _ =>
           if fails w OpMunmap then (w, Some ErrMunmap)
           else (set_maps (delete (s_map data)) w, None)
       end.

(** [os.Rename(oldname, newname)] inside the directory. *)
Definition sys_rename (oldname newname : string) (w : World) : World * option error :=
  if fails w OpRename then (w, Some ErrRename)
  else match names w !! oldname with
       | None => (w, Some ErrRename)
       | Some ino => (set_names (fun ns => <[newname := ino]> (delete oldname ns)) w, None)
       end.

(** Store [p] at offset [at] of the mapped memory behind [data]; this is
    the effect of [copy(data[at:], p)] once the bounds are known to hold.
    The mapping is shared, so the bytes land in the file. *)
Definition store_bytes (p : list byte) (pos : Z) (f : inode) : inode :=
  {| i_size := i_size f;
     i_data := fun i =>
       if (pos <=? i) && (i <? pos + Z.of_nat (length p))
       then nth (Z.to_nat (i - pos)) p x00
       else i_data f i |}.

(* ===================================================================== *)
(** * The writer *)
(* ===================================================================== *)

Record MMapLogger : Type := {
  Filename : string;
  MaxSize : Z;
  MaxAge : Z;
  MaxBackups : Z;
  LocalTime : bool;
  Compress : bool;

  size : Z;
  file : option nat;           (* *os.File; [None] is nil *)
  millCh : option bool;        (* chan bool of capacity 1: [None] is nil,
                                  [Some b] holds a signal iff [b] *)
  startMill : bool;            (* sync.Once: already done *)

  writeStartAt : Z;
  writeAt : Z;
  mmapSpace : option mslice    (* []byte; [None] is nil *)
}.

Definition set_size (v : Z) (l : MMapLogger) : MMapLogger :=
  {| Filename := Filename l; MaxSize := MaxSize l; MaxAge := MaxAge l;
     MaxBackups := MaxBackups l; LocalTime := LocalTime l; Compress := Compress l;
     size := v; file := file l; millCh := millCh l; startMill := startMill l;
     writeStartAt := writeStartAt l; writeAt := writeAt l; mmapSpace := mmapSpace l |}.
Definition set_file (v : option nat) (l : MMapLogger) : MMapLogger :=
  {| Filename := Filename l; MaxSize := MaxSize l; MaxAge := MaxAge l;
     MaxBackups := MaxBackups l; LocalTime := LocalTime l; Compress := Compress l;
     size := size l; file := v; millCh := millCh l; startMill := startMill l;
     writeStartAt := writeStartAt l; writeAt := writeAt l; mmapSpace := mmapSpace l |}.
Definition set_mill (ch : option bool) (once : bool) (l : MMapLogger) : MMapLogger :=
  {| Filename := Filename l; MaxSize := MaxSize l; MaxAge := MaxAge l;
     MaxBackups := MaxBackups l; LocalTime := LocalTime l; Compress := Compress l;
     size := size l; file := file l; millCh := ch; startMill := once;
     writeStartAt := writeStartAt l; writeAt := writeAt l; mmapSpace := mmapSpace l |}.
Definition set_writeStartAt (v : Z) (l : MMapLogger) : MMapLogger :=
  {| Filename := Filename l; MaxSize := MaxSize l; MaxAge := MaxAge l;
     MaxBackups := MaxBackups l; LocalTime := LocalTime l; Compress := Compress l;
     size := size l; file := file l; millCh := millCh l; startMill := startMill l;
     writeStartAt := v; writeAt := writeAt l; mmapSpace := mmapSpace l |}.
Definition set_writeAt (v : Z) (l : MMapLogger) : MMapLogger :=
  {| Filename := Filename l; MaxSize := MaxSize l; MaxAge := MaxAge l;
     MaxBackups := MaxBackups l; LocalTime := LocalTime l; Compress := Compress l;
     size := size l; file := file l; millCh := millCh l; startMill := startMill l;
     writeStartAt := writeStartAt l; writeAt := v; mmapSpace := mmapSpace l |}.
Definition set_mmapSpace (v : option mslice) (l : MMapLogger) : MMapLogger :=
  {| Filename := Filename l; MaxSize := MaxSize l; MaxAge := MaxAge l;
     MaxBackups := MaxBackups l; LocalTime := LocalTime l; Compress := Compress l;
     size := size l; file := file l; millCh := millCh l; startMill := startMill l;
     writeStartAt := writeStartAt l; writeAt := writeAt l; mmapSpace := v |}.

(** [len(l.mmapSpace)]. *)
Definition len_mmapSpace (l : MMapLogger) : Z :=
  match mmapSpace l with
  | None => 0
  | Some d => s_len d
  end.

(** ** The monad of the writer's methods: logger and world threaded, panics
    propagated. *)

Definition St : Type := MMapLogger * World.

Inductive res (A : Type) : Type :=
  | Done (a : A) (s : St)
  | Panic (f : fault) (s : St).
Arguments Done {A} a s.
Arguments Panic {A} f s.

Definition M (A : Type) : Type := St -> res A.

Definition ret {A} (a : A) : M A := fun s => Done a s.
Definition bind {A B} (m : M A) (k : A -> M B) : M B :=
  fun s => match m s with
           | Done a s' => k a s'
           | Panic f s' => Panic f s'
           end.
Definition panic {A} (f : fault) : M A := fun s => Panic f s.
Definition getL : M MMapLogger := fun s => Done (fst s) s.
Definition getW : M World := fun s => Done (snd s) s.
Definition modL (f : MMapLogger -> MMapLogger) : M unit :=
  fun s => Done tt (f (fst s), snd s).
(** Run a system call: a function from the world to a new world and a result. *)
Definition sys {A} (f : World -> World * A) : M A :=
  fun s => let (w', a) := f (snd s) in Done a (fst s, w').

Declare Scope go_scope.
Delimit Scope go_scope with go.
Notation "x <- m ;; k" := (bind m (fun x => k))
  (at level 62, m at next level, right associativity) : go_scope.
Notation "m ;;; k" := (bind m (fun _ => k))
  (at level 62, right associativity) : go_scope.
Open Scope go_scope.

(** ** Methods *)

(** [filename]: the configured name, or <args0>-mmap.log in the temporary
    directory. The code joins the two with [filepath.Join], which also
    cleans the path; the name joined is never empty, "." or "..", so
    cleaning leaves the final element, the only part the methods below
    read, as it is. *)
Definition filename (l : MMapLogger) (w : World) : string :=
  if String.eqb (Filename l) "" then
    tempDir w +:+ "/" +:+ Base (args0 w) +:+ "-mmap.log"
  else Filename l.

(** The directory entry of the log file inside [l.dir()]. *)
Definition entry (l : MMapLogger) (w : World) : string := Base (filename l w).

(** [max]: the maximum file size in bytes. *)
Definition max (l : MMapLogger) : Z :=
  if MaxSize l =? 0 then wrap64 (defaultMmapMaxSize * megabyte)
  else wrap64 (MaxSize l * megabyte).

(** [backupName(name, local)]; the result is kept as the entry inside
    [filepath.Dir(name)], the directory the world describes. *)
Definition backupName (name : string) (stamp : string) : string :=
  let filename := Base name in
  let ext := Ext filename in
  let prefix := trimExt filename in
  prefix +:+ "-" +:+ stamp +:+ ext.

(** [mill]: start the sweeper once, then signal it without blocking. *)
Definition mill : M unit :=
  l <- getL ;;
  (if startMill l then ret tt else modL (set_mill (Some false) true)) ;;;
  l <- getL ;;
  match millCh l with
  | Some false => modL (set_mill (Some true) (startMill l))
  | _ => ret tt
  end.

(** [chown(name, info)]. *)
Definition chown (name : string) : M (option error) :=
  r <- sys (sys_openfile name) ;;
  match r with
  | inl e => ret (Some e)
  | inr h =>
      sys (sys_close h) ;;;
      w <- getW ;;
      if fails w OpChown then ret (Some ErrChown) else ret None
  end.

(** [close]. *)
Definition close : M (option error) :=
  l <- getL ;;
  match file l with
  | None => ret None
  | Some h =>
      err <- sys (sys_close h) ;;
      modL (set_file None) ;;;
      ret err
  end.

(** [openNew]. *)
Definition openNew : M (option error) :=
  w <- getW ;;
  if fails w OpMkdirAll then ret (Some ErrMkdir) else
  l <- getL ;;
  let name := entry l w in
  r <- match sys_stat name w with
       | StatOk _ =>
           let newname := backupName (filename l w) (stamp w (LocalTime l)) in
           e <- sys (sys_rename name newname) ;;
           match e with
           | Some e => ret (Some e)
           | None => chown name
           end
       | _ => ret None
       end ;;
  match r with
  | Some e => ret (Some e)
  | None =>
      f <- sys (sys_openfile name) ;;
      match f with
      | inl e => ret (Some e)
      | inr h =>
          modL (set_file (Some h)) ;;;
          w <- getW ;;
          match sys_fstat h w with
          | inl e => ret (Some e)
          | inr sz =>
              modL (set_size sz) ;;;
              modL (set_writeAt sz) ;;;
              ret None
          end
      end
  end.

(** [rotate]. *)
Definition rotate : M (option error) :=
  e <- close ;;
  match e with
  | Some e => ret (Some e)
  | None =>
      e <- openNew ;;
      match e with
      | Some e => ret (Some e)
      | None => mill ;;; ret None
      end
  end.

(** [openExistingOrNew]. *)
Definition openExistingOrNew : M (option error) :=
  mill ;;;
  l <- getL ;;
  w <- getW ;;
  let name := entry l w in
  match sys_stat name w with
  | StatNotExist => openNew
  | StatErr => ret (Some ErrStat)
  | StatOk _ =>
      f <- sys (sys_openfile name) ;;
      match f with
      | inl _ => openNew
      | inr h =>
          w <- getW ;;
          match sys_fstat h w with
          | inl e => ret (Some e)
          | inr sz =>
              modL (set_file (Some h)) ;;;
              modL (set_size sz) ;;;
              modL (set_writeAt sz) ;;;
              ret None
          end
      end
  end.

(** [unMap]. A failure of the truncation is printed and not returned. *)
Definition unMap : M (option error) :=
  l <- getL ;;
  if len_mmapSpace l =? 0 then ret None else
  match mmapSpace l with
  | None => ret None
  | Some data =>
      e <- sys (sys_munmap data) ;;
      match e with
      | Some e => ret (Some e)
      | None =>
          sys (sys_ftruncate (file l) (writeAt l)) ;;;
          ret None
      end
  end.

(** [allocateSpace]. *)
Definition allocateSpace : M (option error) :=
  e <- unMap ;;
  match e with
  | Some e => ret (Some e)
  | None =>
      l <- getL ;;
      let megaByteSize := wrap64 (defaultMegaByteSize * megabyte) in
      let pageLen := Z.quot (writeAt l) pageSize in
      let writeStartAt := wrap64 (pageLen * pageSize) in
      r <- (if wrap64 (writeStartAt + megaByteSize) >? max l then
              e <- rotate ;;
              match e with
              | Some e => ret (inl e)
              | None => ret (inr 0)
              end
            else ret (inr writeStartAt)) ;;
      match r with
      | inl e => ret (Some e)
      | inr writeStartAt =>
          l <- getL ;;
          e <- sys (sys_ftruncate (file l) (wrap64 (writeStartAt + megaByteSize))) ;;
          match e with
          | Some e => ret (Some e)
          | None =>
              m <- sys (sys_mmap (file l) writeStartAt megaByteSize) ;;
              match m with
              | inl e => ret (Some e)
              | inr data =>
                  modL (set_mmapSpace (Some data)) ;;;
                  modL (set_writeStartAt writeStartAt) ;;;
                  modL (set_size (wrap64 (writeStartAt + megaByteSize))) ;;;
                  ret None
              end
          end
      end
  end.

(** [copy(l.mmapSpace[cacheAt:], p)], reached only when
    [len(p)+cacheAt <= len(l.mmapSpace)]. *)
Definition copy_to_window (cacheAt : Z) (p : list byte) : M unit :=
  l <- getL ;;
  if (cacheAt <? 0) || (len_mmapSpace l <? cacheAt) then panic SliceBounds
  else
    match p, mmapSpace l with
    | [], _ => ret tt
    | _, None => ret tt
    | _, Some data =>
        w <- getW ;;
        match maps w !! s_map data with
        | None => panic SegFault
        | Some r =>
            sys (fun w => (set_inodes (alter (store_bytes p (r_off r + cacheAt)) (r_ino r)) w, tt))
        end
    end.

(** [Write]. The named result [n] is declared by the signature and starts
    at 0; the body never assigns it. *)
Definition Write (p : list byte) : M (Z * option error) :=
  let n := 0 in
  let len_p := Z.of_nat (length p) in
  l <- getL ;;
  let writeLen := len_p in
  if writeLen >? max l then ret (0, Some ErrWriteTooLarge) else
  e <- match file l with
       | None => openExistingOrNew
       | Some _ => ret None
       end ;;
  match e with
  | Some e => ret (0, Some e)
  | None =>
      l <- getL ;;
      e <- (if len_p >=? wrap64 (size l - writeAt l) then allocateSpace else ret None) ;;
      match e with
      | Some e => ret (len_p, Some e)
      | None =>
          l <- getL ;;
          let cacheAt := wrap64 (writeAt l - writeStartAt l) in
          if wrap64 (len_p + cacheAt) >? len_mmapSpace l then ret (len_p, None)
          else
            copy_to_window cacheAt p ;;;
            modL (fun l => set_writeAt (wrap64 (writeAt l + len_p)) l) ;;;
            modL (fun l => set_size (wrap64 (size l + n)) l) ;;;
            ret (n, None)
      end
  end.

(** [Close] and [Rotate] take the lock and call [close] and [rotate]. *)
Definition Close : M (option error) := close.
Definition Rotate : M (option error) := rotate.

(** [StopMmapLogger]: both results are discarded. *)
Definition StopMmapLogger : M unit :=
  unMap ;;;
  l <- getL ;;
  match file l with
  | None => ret tt               (* Close on a nil file: os.ErrInvalid *)
  | Some h => sys (sys_close h) ;;; ret tt
  end.

(* ===================================================================== *)
(** * The retention sweep *)
(* ===================================================================== *)

(** The sweep works on the log directory through names only. An entry is a
    regular file with its bytes, or a subdirectory. *)
Inductive node : Type :=
  | RegFile (content : list byte)
  | SubDir.

(** The operations of the sweep that can fail, each on a given entry. *)
Inductive sweepop : Type :=
  | SReadDir | SOpen | SStat | SCreate | SChown | SCopy | SGzClose
  | SCloseDst | SCloseSrc | SRemove.

Inductive sweep_error : Type :=
  | EReadDir            (* "can't read log file directory" *)
  | ERemove (name : string)
  | EOpenSrc            (* "failed to open log file" *)
  | EStatSrc            (* "failed to stat log file" *)
  | EChownDst           (* "failed to chown compressed log file" *)
  | EOpenDst            (* "failed to open compressed log file" *)
  | ECompress.          (* "failed to compress log file" *)

(** What the sweep reads from its surroundings. [parseTime ts] is
    [time.Parse(backupTimeFormat, ts)] as an instant in nanoseconds, [None]
    when the text does not parse; [now] is [currentTime()]; [gzip] is the
    compressed stream of a byte sequence; [cut name] is how many bytes of
    the stream reach the destination when copying [name] fails; [tie name]
    is the rank [sort.Sort], which is not stable, gives a file among the
    files of the same stamp. *)
Record SweepEnv : Type := {
  parseTime : string -> option Z;
  now : Z;
  gzip : list byte -> list byte;
  sfails : string -> sweepop -> bool;
  cut : string -> nat;
  tie : string -> nat
}.

(** [os.FileInfo], as far as the sweep looks at it. *)
Record FileInfo : Type := { Name : string; IsDir : bool }.

Record logInfo : Type := { timestamp : Z; info : FileInfo }.

Inductive parsed : Type :=
  | Stamp (t : Z)
  | NoMatch             (* a non-nil error *)
  | BoundsPanic.        (* the slice expression panics *)

(** [timeFromName]. *)
Definition timeFromName (env : SweepEnv) (filename prefix ext : string) : parsed :=
  if negb (HasPrefix filename prefix) then NoMatch
  else if negb (HasSuffix filename ext) then NoMatch
  else match slice filename (slen prefix) (slen filename - slen ext) with
       | None => BoundsPanic
       | Some ts =>
           match parseTime env ts with
           | Some t => Stamp t
           | None => NoMatch
           end
       end.

(** [prefixAndExt]. *)
Definition prefixAndExt (l : MMapLogger) (w : World) : string * string :=
  let filename := Base (filename l w) in
  let ext := Ext filename in
  let prefix := trimExt filename +:+ "-" in
  (prefix, ext).

(** The order of file names: Go compares strings byte by byte. *)
Definition name_le (a b : FileInfo) : Prop := String.leb (Name a) (Name b) = true.

Global Instance name_le_dec : RelDecision name_le.
Proof. intros a b. unfold name_le. apply _. Defined.

(** [ioutil.ReadDir]: the entries of the directory, sorted by name. *)
Definition ReadDir (disk : gmap string node) : list FileInfo :=
  merge_sort name_le
    ((fun e => {| Name := e.1;
                  IsDir := match e.2 with SubDir => true | RegFile _ => false end |})
       <$> map_to_list disk).

(** [byFormatTime.Less] puts the later stamp first; [newer_eq a b] says that
    [b] is not to be placed before [a]. *)
Definition newer_eq (a b : logInfo) : Prop := timestamp b <= timestamp a.

Global Instance newer_eq_dec : RelDecision newer_eq.
Proof. intros a b. unfold newer_eq. apply Z.le_dec. Defined.

(** The order [sort.Sort(byFormatTime(logFiles))] leaves the files in.
    [Less] compares the stamps only and [sort.Sort] is not stable, so the
    code does not fix the order of files of the same stamp: that order is
    the environment's. [placed_before env a b]: [a] has the later stamp; or
    the stamps are equal and [a] has the lower rank; or the ranks are equal
    too and [a] comes first by name, the order [ReadDir] has listed them
    in, which a run that moves no equal elements keeps. *)
Definition placed_before (env : SweepEnv) (a b : logInfo) : Prop :=
  timestamp b < timestamp a \/
  (timestamp b = timestamp a /\
   ((tie env (Name (info a)) < tie env (Name (info b)))%nat \/
    (tie env (Name (info a)) = tie env (Name (info b)) /\
     String.leb (Name (info a)) (Name (info b)) = true))).

Global Instance placed_before_dec (env : SweepEnv) : RelDecision (placed_before env).
Proof. intros a b. unfold placed_before. apply _. Defined.

(** The loop of [oldLogFiles] over the directory listing. [None] is a
    panic inside [timeFromName]. *)
Fixpoint scanDir (env : SweepEnv) (prefix ext : string) (files : list FileInfo)
  (logFiles : list logInfo) : option (list logInfo) :=
  match files with
  | [] => Some logFiles
  | f :: rest =>
      if IsDir f then scanDir env prefix ext rest logFiles
      else
        match timeFromName env (Name f) prefix ext with
        | BoundsPanic => None
        | Stamp t =>
            scanDir env prefix ext rest (logFiles ++ [{| timestamp := t; info := f |}])
        | NoMatch =>
            match timeFromName env (Name f) prefix (ext +:+ compressSuffix) with
            | BoundsPanic => None
            | Stamp t =>
                scanDir env prefix ext rest (logFiles ++ [{| timestamp := t; info := f |}])
            | NoMatch => scanDir env prefix ext rest logFiles
            end
        end
  end.

(** [oldLogFiles]: the candidates, newest first. The outer [None] is a
    panic, [inl] the error of [ReadDir]. *)
Definition oldLogFiles (env : SweepEnv) (l : MMapLogger) (w : World)
  (disk : gmap string node) : option (sweep_error + list logInfo) :=
  if sfails env "." SReadDir then Some (inl EReadDir)
  else
    let files := ReadDir disk in
    let (prefix, ext) := prefixAndExt l w in
    match scanDir env prefix ext files [] with
    | None => None
    | Some logFiles => Some (inr (merge_sort (placed_before env) logFiles))
    end.

(** [len(preserved)] for the map used as a set. *)
Definition set_len (s : gset string) : Z := Z.of_nat (base.size s).

(** The name with the compressed suffix cut off. *)
Definition uncompressedName (fn : string) : string :=
  if HasSuffix fn compressSuffix
  then String.substring 0 (slen fn - slen compressSuffix) fn
  else fn.

(** The loop of [millRunOnce] that enforces [MaxBackups]. *)
Fixpoint backupsLoop (maxBackups : Z) (files : list logInfo) (preserved : gset string)
  (remove remaining : list logInfo) : list logInfo * list logInfo :=
  match files with
  | [] => (remove, remaining)
  | f :: rest =>
      let fn := uncompressedName (Name (info f)) in
      let preserved := {[ fn ]} ∪ preserved in
      if set_len preserved >? maxBackups
      then backupsLoop maxBackups rest preserved (remove ++ [f]) remaining
      else backupsLoop maxBackups rest preserved remove (remaining ++ [f])
  end.

(** The loop of [millRunOnce] that enforces [MaxAge]. *)
Fixpoint ageLoop (cutoff : Z) (files : list logInfo)
  (remove remaining : list logInfo) : list logInfo * list logInfo :=
  match files with
  | [] => (remove, remaining)
  | f :: rest =>
      if timestamp f <? cutoff
      then ageLoop cutoff rest (remove ++ [f]) remaining
      else ageLoop cutoff rest remove (remaining ++ [f])
  end.

(** The loop of [millRunOnce] that collects the files to compress. *)
Fixpoint compressLoop (files : list logInfo) (compress : list logInfo) : list logInfo :=
  match files with
  | [] => compress
  | f :: rest =>
      if negb (HasSuffix (Name (info f)) compressSuffix)
      then compressLoop rest (compress ++ [f])
      else compressLoop rest compress
  end.

(** [int64(24*time.Hour)], in nanoseconds. *)
Definition day_ns : Z := 24 * 3600 * 1000000000.

(** The first half of [millRunOnce]: the files to remove and the files to
    compress, from the sorted candidates. *)
Definition millSelect (env : SweepEnv) (l : MMapLogger) (files : list logInfo)
  : list logInfo * list logInfo :=
  let '(remove, files) :=
    if (MaxBackups l >? 0) && (MaxBackups l <? Z.of_nat (length files))
    then backupsLoop (MaxBackups l) files ∅ [] []
    else ([], files) in
  let '(remove, files) :=
    if MaxAge l >? 0 then
      let diff := wrap64 (day_ns * MaxAge l) in
      let cutoff := now env + wrap64 (-1 * diff) in
      ageLoop cutoff files remove []
    else (remove, files) in
  let compress := if Compress l then compressLoop files [] else [] in
  (remove, compress).

(** [os.Remove] of an entry. *)
Definition os_Remove (env : SweepEnv) (name : string) (disk : gmap string node)
  : gmap string node * bool :=
  if sfails env name SRemove then (disk, false)
  else match disk !! name with
       | Some _ => (delete name disk, true)
       | None => (disk, false)
       end.

(** [os.OpenFile(name, os.O_RDWR|os.O_CREATE, 0664)] on the directory:
    creates an empty file when the entry is missing. *)
Definition os_Create (env : SweepEnv) (name : string) (disk : gmap string node)
  : gmap string node * bool :=
  if sfails env name SCreate then (disk, false)
  else match disk !! name with
       | Some (RegFile _) => (disk, true)
       | Some SubDir => (disk, false)
       | None => (<[name := RegFile []]> disk, true)
       end.

(** Bytes written from offset 0 over a file that is not truncated. *)
Definition overwrite (old new : list byte) : list byte :=
  new ++ drop (length new) old.

Definition write_over (name : string) (bytes : list byte) (disk : gmap string node)
  : gmap string node :=
  match disk !! name with
  | Some (RegFile old) => <[name := RegFile (overwrite old bytes)]> disk
  | _ => disk
  end.

(** The deferred function of [compressLogFile]: on an error the
    destination is removed and the error wrapped. *)
Definition compress_cleanup (env : SweepEnv) (dst : string) (disk : gmap string node)
  : gmap string node * option sweep_error :=
  ((os_Remove env dst disk).1, Some ECompress).

(** [compressLogFile(src, dst)]. *)
Definition compressLogFile (env : SweepEnv) (src dst : string) (disk : gmap string node)
  : gmap string node * option sweep_error :=
  if sfails env src SOpen then (disk, Some EOpenSrc) else
  match disk !! src with
  | None => (disk, Some EOpenSrc)
  | Some srcnode =>
      if sfails env src SStat then (disk, Some EStatSrc) else
      (* chown(dst, fi) *)
      let (disk1, ok) := os_Create env dst disk in
      if negb ok then (disk1, Some EChownDst) else
      if sfails env dst SChown then (disk1, Some EChownDst) else
      (* gzf, err := os.OpenFile(dst, ...) *)
      let (disk2, ok) := os_Create env dst disk1 in
      if negb ok then (disk2, Some EOpenDst) else
      (* from here on the deferred cleanup is registered *)
      match srcnode with
      | SubDir => compress_cleanup env dst disk2
      | RegFile bytes =>
          let stream := gzip env bytes in
          if sfails env src SCopy
          then compress_cleanup env dst (write_over dst (take (cut env src) stream) disk2)
          else
            let disk3 := write_over dst stream disk2 in
            if sfails env dst SGzClose then compress_cleanup env dst disk3 else
            if sfails env dst SCloseDst then compress_cleanup env dst disk3 else
            if sfails env src SCloseSrc then compress_cleanup env dst disk3 else
            let (disk4, ok) := os_Remove env src disk3 in
            if negb ok then compress_cleanup env dst disk4 else
            (disk4, None)
      end
  end.

(** The two loops that end [millRunOnce]; [err] keeps the first error. *)
Fixpoint removeAll (env : SweepEnv) (remove : list logInfo) (disk : gmap string node)
  (err : option sweep_error) : gmap string node * option sweep_error :=
  match remove with
  | [] => (disk, err)
  | f :: rest =>
      let (disk', ok) := os_Remove env (Name (info f)) disk in
      let err' := match err with
                  | None => if ok then None else Some (ERemove (Name (info f)))
                  | Some _ => err
                  end in
      removeAll env rest disk' err'
  end.

Fixpoint compressAll (env : SweepEnv) (compress : list logInfo) (disk : gmap string node)
  (err : option sweep_error) : gmap string node * option sweep_error :=
  match compress with
  | [] => (disk, err)
  | f :: rest =>
      let fn := Name (info f) in
      let (disk', errCompress) := compressLogFile env fn (fn +:+ compressSuffix) disk in
      let err' := match err with
                  | None => errCompress
                  | Some _ => err
                  end in
      compressAll env rest disk' err'
  end.

(** [millRunOnce]. [None] is a panic. *)
Definition millRunOnce (env : SweepEnv) (l : MMapLogger) (w : World)
  (disk : gmap string node) : option (gmap string node * option sweep_error) :=
  if (MaxBackups l =? 0) && (MaxAge l =? 0) && negb (Compress l) then Some (disk, None)
  else
    match oldLogFiles env l w disk with
    | None => None
    | Some (inl e) => Some (disk, Some e)
    | Some (inr files) =>
        let (remove, compress) := millSelect env l files in
        let (disk1, err) := removeAll env remove disk None in
        Some (compressAll env compress disk1 err)
    end.

(* ===================================================================== *)
(** * Derived notions and the states of the examples *)
(* ===================================================================== *)

(** The composite literal of [New] in zaplogger.go: the configuration is
    filled in, every unexported field has its zero value. *)
Definition newLogger (filename : string) (maxSize maxAge maxBackups : Z)
  (compress : bool) : MMapLogger :=
  {| Filename := filename; MaxSize := maxSize; MaxAge := maxAge;
     MaxBackups := maxBackups; LocalTime := true; Compress := compress;
     size := 0; file := None; millCh := None; startMill := false;
     writeStartAt := 0; writeAt := 0; mmapSpace := None |}.

(** The test of [allocateSpace] that sends it into [rotate]. *)
Definition needs_rotation (l : MMapLogger) : bool :=
  wrap64 (wrap64 (Z.quot (writeAt l) pageSize * pageSize)
          + wrap64 (defaultMegaByteSize * megabyte)) >? max l.

(** The window start is a multiple of the page size. *)
Definition alignedL (l : MMapLogger) : Prop := writeStartAt l mod pageSize = 0.
Definition aligned (s : St) : Prop := alignedL (fst s).

(** A property of the logger that reads the window start only. *)
Definition start_only (P : MMapLogger -> Prop) : Prop :=
  forall l l2, writeStartAt l2 = writeStartAt l -> P l -> P l2.

(** The state a computation ends in, whatever its outcome. *)
Definition final {A} (r : res A) : St :=
  match r with
  | Done _ s => s
  | Panic _ s => s
  end.

(** The value a computation returns, if it returns. *)
Definition outcome {A} (r : res A) : option A :=
  match r with
  | Done a _ => Some a
  | Panic _ _ => None
  end.

(** The size on disk of a directory entry. *)
Definition disk_size (w : World) (name : string) : option Z :=
  match names w !! name with
  | Some ino =>
      match inodes w !! ino with
      | Some f => Some (i_size f)
      | None => None
      end
  | None => None
  end.

(** The errors a method returns come from the environment: none of them is
    the write-too-large error. *)
Definition env_only (m : M (option error)) : Prop :=
  forall s a s', m s = Done a s' -> a <> Some ErrWriteTooLarge.

(** The parts of the world that no system call changes. *)
Definition same_env (w w1 : World) : Prop :=
  fails w1 = fails w /\ stamp w1 = stamp w /\
  args0 w1 = args0 w /\ tempDir w1 = tempDir w.

(** A method keeps a property of the logger, whatever its outcome. *)
Definition preservesL (P : MMapLogger -> Prop) {A} (m : M A) : Prop :=
  forall s, P (fst s) -> P (fst (final (m s))).

(** A method keeps a property of the logger and, when it returns, its
    result satisfies [Q]. *)
Definition ensures (P : MMapLogger -> Prop) {A} (m : M A) (Q : A -> Prop) : Prop :=
  forall s, P (fst s) ->
    match m s with
    | Done a s1 => P (fst s1) /\ Q a
    | Panic _ s1 => P (fst s1)
    end.

(** What [allocateSpace] does after the window start is chosen: extend the
    open file to the end of the window and map the window. *)
Definition window_mapped (start : Z) (l : MMapLogger) (w : World)
  (l' : MMapLogger) (w' : World) : Prop :=
  let W := wrap64 (defaultMegaByteSize * megabyte) in
  exists h ino,
    file l = Some h /\ fds w !! h = Some ino /\
    l' = set_size (wrap64 (start + W))
           (set_writeStartAt start
              (set_mmapSpace (Some {| s_map := next_id w; s_len := W |}) l)) /\
    w' = bump_id
           (set_maps (insert (next_id w) {| r_ino := ino; r_off := start; r_len := W |})
              (set_inodes (alter (truncate_inode (wrap64 (start + W))) ino) w)).

(** A writer with a limit of 10 MiB whose window over the whole file is
    mapped and has two bytes left: the state after 10485758 bytes have been
    written to a new file. *)
Definition near_full_world : World :=
  {| names := {[ "mmap.log" := 0%nat ]};
     inodes := {[ 0%nat := {| i_size := 10485760; i_data := fun _ => x61 |} ]};
     fds := {[ 1%nat := 0%nat ]};
     maps := {[ 2%nat := {| r_ino := 0; r_off := 0; r_len := 10485760 |} ]};
     next_id := 3;
     fails := fun _ => false;
     stamp := fun _ => "2024-01-02T03-04-05.678";
     args0 := "/usr/bin/app"; tempDir := "/tmp" |}.

Definition near_full_logger : MMapLogger :=
  set_mmapSpace (Some {| s_map := 2; s_len := 10485760 |})
    (set_writeAt 10485758 (set_size 10485760 (set_file (Some 1%nat)
      (set_mill (Some true) true (newLogger "./log/mmap.log" 10 30 10 false))))).

(** The backups a list of files stands for: their names with the
    compressed suffix cut off. *)
Definition stems (files : list logInfo) : gset string :=
  list_to_set ((fun f => uncompressedName (Name (info f))) <$> files).

(** What [oldLogFiles] accepts: a file that is not a directory, whose name
    starts with the prefix, ends with the extension or the extension and
    the compressed suffix, and carries between the two a text that parses
    to the recorded time. *)
Definition candidate (env : SweepEnv) (prefix ext : string) (f : logInfo) : Prop :=
  IsDir (info f) = false /\
  HasPrefix (Name (info f)) prefix = true /\
  exists suffix ts,
    (suffix = ext \/ suffix = ext +:+ compressSuffix) /\
    HasSuffix (Name (info f)) suffix = true /\
    slice (Name (info f)) (slen prefix) (slen (Name (info f)) - slen suffix) = Some ts /\
    parseTime env ts = Some (timestamp f).

(** An empty log directory in an environment where no operation fails. *)
Definition quiet_world : World :=
  {| names := ∅; inodes := ∅; fds := ∅; maps := ∅; next_id := 0;
     fails := fun _ => false;
     stamp := fun _ => "2024-01-02T03-04-05.678";
     args0 := "/usr/bin/app"; tempDir := "/tmp" |}.

Definition logger0 : MMapLogger := newLogger "./log/mmap.log" 100 30 10 false.

Definition hello : list byte := [x68; x65; x6c; x6c; x6f].

(** A log file of 95 MiB left by an earlier run, opened by the writer:
    the state [openExistingOrNew] produces on it. *)
Definition old_file : inode := {| i_size := 99614720; i_data := fun _ => x61 |}.

Definition full_world : World :=
  {| names := {[ "mmap.log" := 0%nat ]}; inodes := {[ 0%nat := old_file ]};
     fds := {[ 1%nat := 0%nat ]}; maps := ∅; next_id := 2;
     fails := fun _ => false;
     stamp := fun _ => "2024-01-02T03-04-05.678";
     args0 := "/usr/bin/app"; tempDir := "/tmp" |}.

Definition full_logger : MMapLogger :=
  set_writeAt 99614720 (set_size 99614720 (set_file (Some 1%nat)
    (set_mill (Some true) true logger0))).

(** The length of every window. *)
Definition window_size : Z := 10485760.

(** Every open file object refers to an inode that exists. *)
Definition fds_backed (w : World) : Prop :=
  forall h ino, fds w !! h = Some ino -> is_Some (inodes w !! ino).

(** The window of the open file is mapped: the slice of the logger is an
    active mapping of [window_size] bytes of the file's inode from the
    window start, the size field is the end of that window, the cursor
    lies in the window, and the numbers are far from the 64-bit limits. *)
Definition window_ok (s : St) : Prop :=
  let (l, w) := s in
  exists h ino d f,
    file l = Some h /\ fds w !! h = Some ino /\
    mmapSpace l = Some d /\ s_len d = window_size /\
    maps w !! s_map d =
      Some {| r_ino := ino; r_off := writeStartAt l; r_len := window_size |} /\
    inodes w !! ino = Some f /\
    size l = writeStartAt l + window_size /\
    0 <= writeStartAt l /\ writeStartAt l <= writeAt l /\ writeAt l <= size l /\
    writeStartAt l <= 4611686018427387904.

(** The first half of [Write] has succeeded from [s] to [s2]: the file has
    been opened if it was not, and the window has been allocated anew if
    the room left was not above the length of the buffer. *)
Definition prepared (p : list byte) (s s2 : St) : Prop :=
  exists s1,
    match file (fst s) with
    | None => openExistingOrNew s = Done None s1
    | Some _ => s1 = s
    end /\
    if Z.of_nat (length p) >=? wrap64 (size (fst s1) - writeAt (fst s1))
    then allocateSpace s1 = Done None s2
    else s2 = s1.

(** The bytes of [p] are in the mapped window of [s], from file offset
    [pos] on. *)
Definition stored (p : list byte) (pos : Z) (s : St) : Prop :=
  p = [] \/
  exists d r f,
    mmapSpace (fst s) = Some d /\ maps (snd s) !! s_map d = Some r /\
    inodes (snd s) !! r_ino r = Some f /\
    r_off r <= pos /\ pos + Z.of_nat (length p) <= r_off r + r_len r /\
    forall i, (i < length p)%nat -> i_data f (pos + Z.of_nat i) = nth i p x00.

(** The state of the new logger of the examples once its file has been
    opened and its first window allocated. *)
Definition opened_state : St := final (openExistingOrNew (logger0, quiet_world)).
Definition first_window_state : St := final (allocateSpace opened_state).

(** A sweep environment that knows five stamps, in which nothing fails
    and the sort leaves files of the same stamp in the order of their
    names, and a directory with the active file, four backups (one of them
    also compressed) and a foreign file. *)
Definition demo_parse (ts : string) : option Z :=
  if String.eqb ts "2024-01-01T00-00-00.000" then Some 1
  else if String.eqb ts "2024-01-02T00-00-00.000" then Some 2
  else if String.eqb ts "2024-01-03T00-00-00.000" then Some 3
  else if String.eqb ts "2024-01-04T00-00-00.000" then Some 4
  else if String.eqb ts "2024-01-05T00-00-00.000" then Some 5
  else None.

Definition demo_env : SweepEnv :=
  {| parseTime := demo_parse; now := 6;
     gzip := fun bytes => x1f :: x8b :: bytes;
     sfails := fun _ _ => false; cut := fun _ => 0%nat; tie := fun _ => 0%nat |}.

Definition demo_disk : gmap string node :=
  {[ "mmap.log" := RegFile hello;
     "mmap-2024-01-01T00-00-00.000.log" := RegFile [x31];
     "mmap-2024-01-02T00-00-00.000.log" := RegFile [x32];
     "mmap-2024-01-03T00-00-00.000.log" := RegFile [x33];
     "mmap-2024-01-03T00-00-00.000.log.gz" := RegFile [x1f; x8b; x33];
     "mmap-2024-01-04T00-00-00.000.log" := RegFile [x34];
     "notes.txt" := RegFile [x6e] ]}.

(** The candidates of that directory, from the newest to the oldest. *)
Definition demo_file (t : Z) (name : string) : logInfo :=
  {| timestamp := t; info := {| Name := name; IsDir := false |} |}.

Definition demo_files : list logInfo :=
  [ demo_file 4 "mmap-2024-01-04T00-00-00.000.log";
    demo_file 3 "mmap-2024-01-03T00-00-00.000.log";
    demo_file 3 "mmap-2024-01-03T00-00-00.000.log.gz";
    demo_file 2 "mmap-2024-01-02T00-00-00.000.log";
    demo_file 1 "mmap-2024-01-01T00-00-00.000.log" ].

(** The logger of the examples with a limit of two backups and no age
    limit. *)
Definition demo_logger : MMapLogger := newLogger "./log/mmap.log" 100 0 2 false.

(** An environment in which copying the named file fails after three
    bytes of the stream. *)
Definition failing_copy_env (name : string) : SweepEnv :=
  {| parseTime := demo_parse; now := 6;
     gzip := fun bytes => x1f :: x8b :: bytes;
     sfails := fun n op => match op with
                           | SCopy => String.eqb n name
                           | _ => false
                           end;
     cut := fun _ => 3%nat; tie := fun _ => 0%nat |}.

(** The writer is in working order: its window is mapped ([window_ok]),
    [os.Stat] fails only for absence, the size field is within the larger
    of the limit and one window, and the limit is far from the 64-bit
    bounds. *)
Definition healthy (s : St) : Prop :=
  window_ok s /\
  fails (snd s) OpStat = false /\
  size (fst s) <= Z.max (max (fst s)) window_size /\
  max (fst s) <= 4611686018427387904.

(** A log file of five bytes left by an earlier run, before and after
    the writer of the examples has opened it. *)
Definition five_bytes : inode := {| i_size := 5; i_data := fun _ => x61 |}.

Definition small_world : World :=
  {| names := {[ "mmap.log" := 0%nat ]}; inodes := {[ 0%nat := five_bytes ]};
     fds := ∅; maps := ∅; next_id := 1;
     fails := fun _ => false;
     stamp := fun _ => "2024-01-02T03-04-05.678";
     args0 := "/usr/bin/app"; tempDir := "/tmp" |}.

Definition reopened_world : World :=
  {| names := {[ "mmap.log" := 0%nat ]}; inodes := {[ 0%nat := five_bytes ]};
     fds := {[ 1%nat := 0%nat ]}; maps := ∅; next_id := 2;
     fails := fun _ => false;
     stamp := fun _ => "2024-01-02T03-04-05.678";
     args0 := "/usr/bin/app"; tempDir := "/tmp" |}.

Definition reopened_logger : MMapLogger :=
  set_writeAt 5 (set_size 5 (set_file (Some 1%nat)
    (set_mill (Some true) true logger0))).

(** The writer of the examples with its window over the file of
    [near_full_world] mapped and five bytes written. *)
Definition windowed_logger : MMapLogger :=
  set_mmapSpace (Some {| s_map := 2; s_len := 10485760 |})
    (set_writeAt 5 (set_size 10485760 (set_file (Some 1%nat)
      (set_mill (Some true) true logger0)))).

(** A writer with a limit of 5 MiB, below the length of a window, whose
    window over the file of [near_full_world] is mapped and holds five
    bytes. *)
Definition small_limit_logger : MMapLogger :=
  set_mmapSpace (Some {| s_map := 2; s_len := 10485760 |})
    (set_writeAt 5 (set_size 10485760 (set_file (Some 1%nat)
      (set_mill (Some true) true (newLogger "./log/mmap.log" 5 30 10 false))))).

(** The logger of the examples with a limit of two backups, no age limit
    and compression. *)
Definition compress_logger : MMapLogger := newLogger "./log/mmap.log" 100 0 2 true.

(** An environment in which changing the owner of the named file fails. *)
Definition failing_chown_env (name : string) : SweepEnv :=
  {| parseTime := demo_parse; now := 6;
     gzip := fun bytes => x1f :: x8b :: bytes;
     sfails := fun n op => match op with
                           | SChown => String.eqb n name
                           | _ => false
                           end;
     cut := fun _ => 0%nat; tie := fun _ => 0%nat |}.

(* ===================================================================== *)
(** * Package [log]: the configuration that builds the writer *)
(* ===================================================================== *)

Module Log.

(** [type Output int] and [type Level int] are carried as [Z]; these are
    the constants the configuration code names. *)
Definition OutputConsole : Z := 0.
Definition OutputFile : Z := 1.
Definition OutputMmap : Z := 2.

Definition LevelInfo : Z := 1.

(** [outputMap]: the map literal has two keys. *)
Definition outputMap (key : string) : option Z :=
  if String.eqb key "console" then Some OutputConsole
  else if String.eqb key "file" then Some OutputFile
  else None.

(** [Output.UnmarshalText]; [ToLower] is [strings.ToLower]. The result is
    the value of the receiver after the call and the error. *)
Definition Output_UnmarshalText (ToLower : string -> string) (o : Z) (text : string)
  : Z * option string :=
  match outputMap (ToLower text) with
  | None => (o, Some ("not support output: " +:+ text))
  | Some output => (output, None)
  end.

Record Config : Type := {
  Level : Z;
  Output : Z;
  Filename : string;
  MaxSize : Z;
  MaxAge : Z;
  MaxBackups : Z;
  Compress : bool;
  DevMode : bool;
  DisableStacktrace : bool
}.

Definition defaultMaxSize : Z := 100.
Definition defaultMaxAge : Z := 30.
Definition defaultMaxBackups : Z := 10.
Definition defaultFilename : string := "./log/main.log".
Definition defaultConfig : Config :=
  {| Level := LevelInfo; Output := 0; Filename := ""; MaxSize := 0; MaxAge := 0;
     MaxBackups := 0; Compress := false; DevMode := false; DisableStacktrace := false |}.

(** The configuration as [New] leaves it: the four assignments that fill
    in the defaults. *)
Definition fill_defaults (config : Config) : Config :=
  {| Level := Level config; Output := Output config;
     Filename := if String.eqb (Filename config) "" then defaultFilename
                 else Filename config;
     MaxSize := if MaxSize config <=? 0 then defaultMaxSize else MaxSize config;
     MaxAge := if MaxAge config <=? 0 then defaultMaxAge else MaxAge config;
     MaxBackups := if MaxBackups config <=? 0 then defaultMaxBackups
                   else MaxBackups config;
     Compress := Compress config; DevMode := DevMode config;
     DisableStacktrace := DisableStacktrace config |}.

(** The value [New] stores in the package variable [mmapLogger]; a nil
    configuration is [None]. *)
Definition New_mmapLogger (config : option Config) : MMapLogger :=
  let config := fill_defaults (match config with
                               | None => defaultConfig
                               | Some c => c
                               end) in
  newLogger (Filename config) (MaxSize config) (MaxAge config) (MaxBackups config)
    (Compress config).

(** The writer the [switch] of [New] hands to zap. *)
Inductive sink : Type := ToStdout | ToLumberjack | ToMMapLogger.

Definition New_writeSyncer (config : option Config) : sink :=
  let config := fill_defaults (match config with
                               | None => defaultConfig
                               | Some c => c
                               end) in
  if Output config =? OutputFile then ToLumberjack
  else if Output config =? OutputMmap then ToMMapLogger
  else ToStdout.

(** A configuration with its output replaced. *)
Definition with_output (o : Z) (config : Config) : Config :=
  {| Level := Level config; Output := o; Filename := Filename config;
     MaxSize := MaxSize config; MaxAge := MaxAge config;
     MaxBackups := MaxBackups config; Compress := Compress config;
     DevMode := DevMode config; DisableStacktrace := DisableStacktrace config |}.

End Log.

(* ===================================================================== *)
(** * Facts about 64-bit arithmetic and the constants *)
(* ===================================================================== *)

Lemma wrap64_small (x : Z) : in_int64 x -> wrap64 x = x.
Proof.
  unfold in_int64, wrap64, min_int64, max_int64. intros H.
  rewrite Z.mod_small by lia. lia.
Qed.

Lemma wrap64_range (x : Z) : in_int64 (wrap64 x).
Proof.
  unfold in_int64, wrap64, min_int64, max_int64.
  pose proof (Z.mod_pos_bound (x - -9223372036854775808) 18446744073709551616).
  lia.
Qed.

(** Wrapping keeps the remainder modulo the page size, because the page
    size divides 2^64 and 2^63. *)
Lemma wrap64_mod_page (x : Z) : wrap64 x mod pageSize = x mod pageSize.
Proof.
  unfold wrap64, min_int64, pageSize.
  change (4 * 1024) with 4096.
  set (y := x - -9223372036854775808).
  assert (Hy : y mod 18446744073709551616 = y - 18446744073709551616 * (y / 18446744073709551616)).
  { pose proof (Z.div_mod y 18446744073709551616). lia. }
  rewrite Hy. subst y.
  replace (x - -9223372036854775808
           - 18446744073709551616 * ((x - -9223372036854775808) / 18446744073709551616)
           + -9223372036854775808)
    with (x + (- 4503599627370496 * ((x - -9223372036854775808) / 18446744073709551616)) * 4096)
    by lia.
  apply Z.mod_add. lia.
Qed.

Lemma window_size_value : wrap64 (defaultMegaByteSize * megabyte) = 10485760.
Proof. reflexivity. Qed.

(* ===================================================================== *)
(** * Facts about strings and paths *)
(* ===================================================================== *)

Lemma slen_app (a b : string) : slen (a +:+ b) = (slen a + slen b)%nat.
Proof. unfold slen. induction a as [|c a IH]; simpl; [reflexivity | now rewrite IH]. Qed.

Lemma substring_app_head (a b : string) : String.substring 0 (slen a) (a +:+ b) = a.
Proof.
  unfold slen. induction a as [|c a IH]; simpl.
  - destruct b; reflexivity.
  - now rewrite IH.
Qed.

Lemma string_of_list_app (a b : list ascii) :
  string_of_list_ascii (a ++ b) = string_of_list_ascii a +:+ string_of_list_ascii b.
Proof. induction a as [|c a IH]; simpl; [reflexivity | now rewrite IH]. Qed.

Lemma ext_scan_suffix (r acc : list ascii) :
  exists pre, (rev r ++ acc = pre ++ ext_scan r acc)%list.
Proof.
  revert acc. induction r as [|c r IH]; intros acc; simpl.
  - exists acc. now rewrite app_nil_r.
  - destruct (is_sep c).
    + eexists. now rewrite app_nil_r.
    + destruct (is_dot c).
      * exists (rev r). now rewrite <- app_assoc.
      * destruct (IH (c :: acc)) as [pre Hpre]. exists pre.
        rewrite <- app_assoc. exact Hpre.
Qed.

Lemma ext_scan_shape (r acc : list ascii) :
  ext_scan r acc = [] \/ exists e, ext_scan r acc = "."%char :: e.
Proof.
  revert acc. induction r as [|c r IH]; intros acc; simpl.
  - now left.
  - destruct (is_sep c); [now left|].
    destruct (is_dot c) eqn:Hd.
    + right. unfold is_dot in Hd. apply Ascii.eqb_eq in Hd. subst. eauto.
    + apply IH.
Qed.

Lemma Ext_split (s : string) : s = trimExt s +:+ Ext s.
Proof.
  unfold trimExt.
  destruct (ext_scan_suffix (rev (list_ascii_of_string s)) []) as [pre Hpre].
  rewrite rev_involutive, app_nil_r in Hpre.
  assert (Hs : s = string_of_list_ascii pre +:+ Ext s).
  { unfold Ext. rewrite <- string_of_list_app, <- Hpre.
    now rewrite string_of_list_ascii_of_string. }
  remember (Ext s) as e eqn:He. clear He Hpre.
  remember (string_of_list_ascii pre) as stem eqn:Hstem. clear Hstem.
  subst s. rewrite slen_app.
  replace (slen stem + slen e - slen e)%nat with (slen stem) by lia.
  now rewrite substring_app_head.
Qed.

Lemma Ext_shape (s : string) : Ext s = "" \/ exists e, Ext s = String "."%char e.
Proof.
  unfold Ext.
  destruct (ext_scan_shape (rev (list_ascii_of_string s)) []) as [-> | [e ->]].
  - now left.
  - right. simpl. eauto.
Qed.

Lemma HasPrefix_app_same (a s p : string) : HasPrefix (a +:+ s) (a +:+ p) = HasPrefix s p.
Proof.
  unfold HasPrefix. induction a as [|c a IH]; simpl; [reflexivity|].
  rewrite Ascii.eqb_refl. simpl. exact IH.
Qed.

Lemma HasPrefix_app_l (s t p : string) : HasPrefix s p = true -> HasPrefix (s +:+ t) p = true.
Proof.
  unfold HasPrefix. revert s. induction p as [|c p IH]; intros s; simpl.
  - intros _. destruct (s +:+ t); reflexivity.
  - destruct s as [|d s]; simpl; [discriminate|].
    destruct (Ascii.eqb d c); simpl; [|now rewrite andb_false_r].
    apply IH.
Qed.

(** The base name of the log file does not start with its own prefix. *)
Lemma base_not_prefixed (b : string) : HasPrefix b (trimExt b +:+ "-") = false.
Proof.
  rewrite (Ext_split b) at 1. rewrite HasPrefix_app_same.
  destruct (Ext_shape b) as [-> | [e ->]]; reflexivity.
Qed.

Lemma backupName_fresh (name st : string) : backupName name st <> Base name.
Proof.
  unfold backupName. cbv zeta. intros H. apply (f_equal slen) in H.
  pose proof (f_equal slen (Ext_split (Base name))) as E.
  rewrite slen_app in E. repeat rewrite slen_app in H. change (slen "-") with 1%nat in H. lia.
Qed.

(* ===================================================================== *)
(** * Running the methods symbolically *)
(* ===================================================================== *)

Ltac unfold_m H :=
  unfold bind, ret, sys, getL, getW, modL, panic in H; simpl in H.

(** Split on the innermost scrutinee of the computation in [H] until the
    result is a constructor; branches with an impossible result go away. *)
Ltac run H :=
  repeat (unfold_m H;
          match type of H with
          | context [match ?x with _ => _ end] =>
              lazymatch x with
              | context [match _ with _ => _ end] => fail
              | _ => destruct x eqn:?
              end
          | context [if ?x then _ else _] => destruct x eqn:?
          end; simpl in H; try discriminate H).

Ltac done_eq H := inversion H; subst; clear H; simpl in *.

Lemma chown_env_only name : env_only (chown name).
Proof.
  intros [l w] a s' H. unfold chown, sys_openfile, sys_close in H.
  run H; done_eq H; congruence.
Qed.

Lemma close_env_only : env_only close.
Proof.
  intros [l w] a s' H. unfold close, sys_close in H.
  run H; done_eq H; congruence.
Qed.

Lemma mill_total (s : St) :
  exists ch once, mill s = Done tt (set_mill ch once (fst s), snd s).
Proof.
  destruct s as [l w]. unfold mill, bind, getL, modL, ret. simpl.
  destruct (startMill l) eqn:Hs; simpl.
  - destruct (millCh l) as [[|]|] eqn:Hc; simpl.
    + exists (millCh l), (startMill l). destruct l; reflexivity.
    + exists (Some true), true. rewrite Hs. reflexivity.
    + exists (millCh l), (startMill l). destruct l; reflexivity.
  - exists (Some true), true. reflexivity.
Qed.

Lemma openNew_env_only : env_only openNew.
Proof.
  intros [l w] a s' H. unfold openNew in H.
  unfold sys_stat, sys_rename, sys_openfile, sys_fstat in H.
  run H.
  all: try (done_eq H; congruence).
  all: match goal with E : chown _ _ = Done _ _ |- _ => apply chown_env_only in E end;
       done_eq H; congruence.
Qed.

Lemma rotate_env_only : env_only rotate.
Proof.
  intros s a s' H. unfold rotate in H. unfold_m H.
  destruct (close s) as [e1 s1|] eqn:Hc; simpl in H; [|discriminate H].
  destruct e1 as [e1|].
  - done_eq H. eapply close_env_only; eauto.
  - unfold_m H. destruct (openNew s1) as [e2 s2|] eqn:Ho; simpl in H; [|discriminate H].
    destruct e2 as [e2|].
    + done_eq H. eapply openNew_env_only; eauto.
    + destruct (mill_total s2) as (ch & once & Hm). unfold_m H. rewrite Hm in H.
      done_eq H. congruence.
Qed.

Lemma openExistingOrNew_env_only : env_only openExistingOrNew.
Proof.
  intros s a s' H. unfold openExistingOrNew in H. unfold_m H.
  destruct (mill_total s) as (ch & once & Hm). rewrite Hm in H. simpl in H.
  unfold sys_stat, sys_openfile, sys_fstat in H.
  run H.
  all: try (done_eq H; congruence).
  all: eapply openNew_env_only; eauto.
Qed.

Lemma unMap_env_only : env_only unMap.
Proof.
  intros [l w] a s' H. unfold unMap, sys_munmap, sys_ftruncate in H.
  run H; done_eq H; congruence.
Qed.

Lemma allocateSpace_env_only : env_only allocateSpace.
Proof.
  intros s a s' H. unfold allocateSpace in H. unfold_m H.
  destruct (unMap s) as [e1 s1|] eqn:Hu; simpl in H; [|discriminate H].
  destruct e1 as [e1|].
  - done_eq H. eapply unMap_env_only; eauto.
  - unfold sys_ftruncate, sys_mmap in H.
    run H.
    all: try (done_eq H; congruence).
    all: match goal with E : rotate _ = Done _ _ |- _ => apply rotate_env_only in E end;
         done_eq H; congruence.
Qed.

(* ===================================================================== *)
(** * What the steps of a rotation do *)
(* ===================================================================== *)

Lemma same_env_refl (w : World) : same_env w w.
Proof. repeat split. Qed.

Lemma same_env_trans (w1 w2 w3 : World) :
  same_env w1 w2 -> same_env w2 w3 -> same_env w1 w3.
Proof. unfold same_env. intros (?&?&?&?) (?&?&?&?). repeat split; congruence. Qed.

Lemma filename_same_env (l l1 : MMapLogger) (w w1 : World) :
  Filename l1 = Filename l -> same_env w w1 -> filename l1 w1 = filename l w.
Proof. unfold filename, same_env. intros -> (?&?&->&->). reflexivity. Qed.

Lemma unMap_ok (l l1 : MMapLogger) (w w1 : World) (e : option error) :
  unMap (l, w) = Done e (l1, w1) ->
  l1 = l /\ names w1 = names w /\ fds w1 = fds w /\ next_id w1 = next_id w /\
  same_env w w1.
Proof.
  intros H. unfold unMap, sys_munmap, sys_ftruncate in H.
  run H; done_eq H; repeat split.
Qed.

Lemma unMap_never_panics (s : St) : exists e s1, unMap s = Done e s1.
Proof.
  destruct s as [l w].
  unfold unMap, sys_munmap, sys_ftruncate, bind, ret, sys, getL. simpl.
  repeat (case_match; simplify_eq; simpl in * ); eauto.
Qed.

Lemma close_ok (l l1 : MMapLogger) (w w1 : World) :
  close (l, w) = Done None (l1, w1) ->
  l1 = set_file None l /\ names w1 = names w /\ inodes w1 = inodes w /\
  maps w1 = maps w /\ next_id w1 = next_id w /\ same_env w w1.
Proof.
  intros H. unfold close, sys_close in H.
  run H; done_eq H; repeat split.
  match goal with |- ?x = set_file None ?x => destruct x; simpl in *; subst; reflexivity end.
Qed.

Lemma openNew_ok (l l1 : MMapLogger) (w w1 : World) :
  fails w OpStat = false ->
  openNew (l, w) = Done None (l1, w1) ->
  exists h ino,
    l1 = set_writeAt 0 (set_size 0 (set_file (Some h) l)) /\
    fds w1 !! h = Some ino /\
    names w1 !! entry l w = Some ino /\
    inodes w1 !! ino = Some empty_file /\
    (next_id w <= ino)%nat /\
    maps w1 = maps w /\ same_env w w1 /\
    (forall old, names w !! entry l w = Some old ->
       names w1 !! backupName (filename l w) (stamp w (LocalTime l)) = Some old).
Proof.
  intros Hstat H.
  unfold openNew, chown in H.
  unfold sys_stat, sys_rename, sys_openfile, sys_fstat, sys_close in H.
  unfold entry in *.
  pose proof (backupName_fresh (filename l w) (stamp w (LocalTime l))) as Hfresh.
  run H.
  all: try congruence.
  all: simplify_map_eq.
  all: do 2 eexists; repeat split; simplify_map_eq; done.
Qed.

Lemma rotate_ok (l l2 : MMapLogger) (w w2 : World) :
  fails w OpStat = false ->
  rotate (l, w) = Done None (l2, w2) ->
  exists h ino ch once,
    l2 = set_mill ch once (set_writeAt 0 (set_size 0 (set_file (Some h) l))) /\
    fds w2 !! h = Some ino /\
    names w2 !! entry l w = Some ino /\
    inodes w2 !! ino = Some empty_file /\
    (next_id w <= ino)%nat /\
    maps w2 = maps w /\ same_env w w2 /\
    (forall old, names w !! entry l w = Some old ->
       names w2 !! backupName (filename l w) (stamp w (LocalTime l)) = Some old).
Proof.
  intros Hstat H. unfold rotate in H. unfold_m H.
  destruct (close (l, w)) as [[e|] [l1 w1]|] eqn:Hc; simpl in H; try discriminate H.
  apply close_ok in Hc. destruct Hc as (-> & Hn & Hi & Hm & Hid & Henv).
  destruct (openNew (set_file None l, w1)) as [[e|] [l3 w3]|] eqn:Ho; simpl in H;
    try discriminate H.
  assert (Hstat1 : fails w1 OpStat = false).
  { destruct Henv as (Hf & _). rewrite Hf. exact Hstat. }
  apply (openNew_ok _ _ _ _ Hstat1) in Ho.
  destruct Ho as (h & ino & -> & Hfd & Hname & Hino & Hle & Hmaps & Henv3 & Hbak).
  match type of H with
  | context [mill ?s] => destruct (mill_total s) as (ch & once & Hmill)
  end.
  rewrite Hmill in H.
  done_eq H.
  exists h, ino, ch, once.
  assert (Hfn : filename (set_file None l) w1 = filename l w)
    by (apply filename_same_env; [reflexivity | exact Henv]).
  unfold entry in *. rewrite Hfn in Hname, Hbak.
  assert (Hst : stamp w1 = stamp w) by (destruct Henv as (_ & Hs & _); exact Hs).
  rewrite Hst, Hn in Hbak.
  split; [destruct l; reflexivity|].
  repeat split; try congruence; try lia; try exact Hbak.
  all: eapply same_env_trans; eauto.
Qed.

(** The shape of every successful [allocateSpace]: the old window is
    dropped, then either the file is rotated and the window starts at 0, or
    the window starts at the page of the cursor. *)
Lemma allocateSpace_ok (l l' : MMapLogger) (w w' : World) :
  allocateSpace (l, w) = Done None (l', w') ->
  exists w1,
    unMap (l, w) = Done None (l, w1) /\
    if needs_rotation l
    then exists l2 w2, rotate (l, w1) = Done None (l2, w2) /\ window_mapped 0 l2 w2 l' w'
    else window_mapped (wrap64 (Z.quot (writeAt l) pageSize * pageSize)) l w1 l' w'.
Proof.
  intros H. unfold allocateSpace in H. unfold_m H.
  destruct (unMap (l, w)) as [[e|] [l1 w1]|] eqn:Hu; simpl in H; try discriminate H.
  pose proof (unMap_ok _ _ _ _ _ Hu) as (-> & _).
  exists w1. split; [reflexivity|].
  unfold needs_rotation.
  destruct (_ >? max l) eqn:Hrot.
  - unfold_m H.
    destruct (rotate (l, w1)) as [[e|] [l2 w2]|] eqn:Hr; simpl in H; try discriminate H.
    exists l2, w2. split; [reflexivity|].
    unfold sys_ftruncate, sys_mmap in H. run H. done_eq H. simplify_eq.
    unfold window_mapped. simpl. do 2 eexists. repeat split; eauto.
  - unfold sys_ftruncate, sys_mmap in H. run H. done_eq H. simplify_eq.
    unfold window_mapped. simpl. do 2 eexists. repeat split; eauto.
Qed.

(* ===================================================================== *)
(** * The size limit of a write *)
(* ===================================================================== *)

(** C4. [Write] rejects a buffer exactly when its length is strictly above
    [max]: then it returns 0 and the write-too-large error and leaves the
    logger and the world as they were (no file opened, cursor, size, window
    start and mapping untouched); a buffer of length at most [max], the
    maximum itself included, is never answered with that error. *)
Theorem Write_rejects_exactly_oversized (p : list byte) (l : MMapLogger) (w : World) :
  (Z.of_nat (length p) > max l ->
     Write p (l, w) = Done (0, Some ErrWriteTooLarge) (l, w)) /\
  (Z.of_nat (length p) <= max l ->
     forall n s', Write p (l, w) <> Done (n, Some ErrWriteTooLarge) s').
Proof.
  split.
  - intros Hlen. unfold Write, bind, getL, ret. simpl.
    destruct (Z.of_nat (length p) >? max l) eqn:E; [reflexivity | lia].
  - intros Hlen n s' H. unfold Write, copy_to_window in H.
    run H; try lia.
    all: done_eq H.
    all: match goal with
         | E : openExistingOrNew _ = Done _ _ |- _ =>
             apply openExistingOrNew_env_only in E; congruence
         | E : allocateSpace _ = Done _ _ |- _ =>
             apply allocateSpace_env_only in E; congruence
         end.
Qed.

(* ===================================================================== *)
(** * Stop *)
(* ===================================================================== *)

Ltac hyp_rw :=
  repeat match goal with
         | E : ?x = _ |- context [?x] => rewrite E
         end.

(** C9. [StopMmapLogger] always returns; it closes the file and, unless
    the unmapping itself is refused, removes the mapping; it creates no
    directory entry, no file object and no mapping (so no successor file);
    and a second call returns with the logger and the world exactly as the
    first call left them. *)
Theorem StopMmapLogger_idempotent (l : MMapLogger) (w : World) :
  exists w',
    StopMmapLogger (l, w) = Done tt (l, w') /\
    StopMmapLogger (l, w') = Done tt (l, w') /\
    (forall h, file l = Some h -> fds w' !! h = None) /\
    (forall d, mmapSpace l = Some d -> s_len d <> 0 -> fails w OpMunmap = false ->
               maps w' !! s_map d = None) /\
    names w' = names w /\ next_id w' = next_id w /\
    fds w' ⊆ fds w /\ maps w' ⊆ maps w.
Proof.
  unfold StopMmapLogger, unMap, len_mmapSpace, sys_munmap, sys_ftruncate, sys_close,
    bind, ret, sys, getL, getW, modL. simpl.
  repeat (case_match; simplify_eq; simpl in * ).
  all: eexists; split; [reflexivity|]; simpl.
  all: repeat (simpl; first [rewrite lookup_delete_eq | hyp_rw]).
  all: repeat split; try done.
  all: try (intros; simplify_eq; simpl; first [apply lookup_delete_eq | done]).
  all: try apply delete_subseteq.
  all: intros d [= <-] Hne; intros;
       match goal with E : (_ =? 0) = true |- _ => apply Z.eqb_eq in E end; contradiction.
Qed.

(* ===================================================================== *)
(** * Window allocation *)
(* ===================================================================== *)

(** C5 (amended). When the page-aligned window start plus the window size
    exceeds [max], a successful [allocateSpace] has rotated the file: the
    entry of the log file names a new inode, the old inode (if the entry
    existed) is found under the backup name, the write cursor and the window
    start are 0, and a window of 10 MiB is mapped from offset 0 of the new
    file, which is all zeros. The size field is not 0: it is 10485760, the
    length the new file was extended to. The statement assumes that
    [os.Stat] does not fail for a reason other than absence. *)
Theorem allocateSpace_rotates_at_limit (l l' : MMapLogger) (w w' : World) :
  fails w OpStat = false ->
  needs_rotation l = true ->
  allocateSpace (l, w) = Done None (l', w') ->
  writeAt l' = 0 /\ writeStartAt l' = 0 /\ size l' = 10485760 /\
  exists h ino d f,
    file l' = Some h /\ fds w' !! h = Some ino /\
    names w' !! entry l w = Some ino /\ (next_id w <= ino)%nat /\
    (forall old, names w !! entry l w = Some old ->
       names w' !! backupName (filename l w) (stamp w (LocalTime l)) = Some old) /\
    mmapSpace l' = Some d /\ s_len d = 10485760 /\
    maps w' !! s_map d = Some {| r_ino := ino; r_off := 0; r_len := 10485760 |} /\
    inodes w' !! ino = Some f /\ i_size f = 10485760 /\ (forall i, i_data f i = x00).
Proof.
  intros Hstat Hrot H.
  apply allocateSpace_ok in H. destruct H as (w1 & Hu & H).
  rewrite Hrot in H. destruct H as (l2 & w2 & Hr & Hw).
  pose proof (unMap_ok _ _ _ _ _ Hu) as (_ & Hn1 & Hf1 & Hid1 & Henv1).
  assert (Hstat1 : fails w1 OpStat = false).
  { destruct Henv1 as (Hf & _). rewrite Hf. exact Hstat. }
  apply (rotate_ok _ _ _ _ Hstat1) in Hr.
  destruct Hr as (h & ino & ch & once & -> & Hfd & Hname & Hino & Hle & Hmaps & Henv2 & Hbak).
  destruct Hw as (h' & ino' & Hfile & Hfd' & -> & ->).
  simpl in Hfile. injection Hfile as <-. rewrite Hfd in Hfd'. injection Hfd' as <-.
  assert (Hfn : filename l w1 = filename l w)
    by (apply filename_same_env; [reflexivity | exact Henv1]).
  unfold entry in *. rewrite Hfn in Hname, Hbak.
  assert (Hst : stamp w1 = stamp w) by (destruct Henv1 as (_ & Hs & _); exact Hs).
  rewrite Hst, Hn1 in Hbak.
  simpl. repeat split.
  exists h, ino, {| s_map := next_id w2; s_len := 10485760 |},
    (truncate_inode 10485760 empty_file).
  simpl. repeat split; try assumption; try lia.
  - apply lookup_insert_eq.
  - rewrite lookup_alter_eq, Hino. reflexivity.
  - intros i. destruct (i <? _); reflexivity.
Qed.

Lemma allocateSpace_rotates_at_limit_witness :
  exists l' w',
    allocateSpace (full_logger, full_world) = Done None (l', w') /\
    writeAt l' = 0 /\ writeStartAt l' = 0 /\ size l' = 10485760.
Proof.
  assert (E : exists l' w', allocateSpace (full_logger, full_world) = Done None (l', w')).
  { eexists _, _. vm_compute. reflexivity. }
  destruct E as (l' & w' & E). exists l', w'. split; [exact E|].
  destruct (allocateSpace_rotates_at_limit full_logger l' full_world w'
              eq_refl eq_refl E) as (A & B & C & _).
  auto.
Defined.

(** C5 without the amendment fails: after an allocation that rotates, the
    size field is the window size, not 0. *)
Lemma allocateSpace_rotation_size_counterexample :
  ~ (forall l w l' w',
       needs_rotation l = true ->
       allocateSpace (l, w) = Done None (l', w') ->
       writeAt l' = 0 /\ writeStartAt l' = 0 /\ size l' = 0).
Proof.
  intros Hall.
  assert (E : exists l' w', allocateSpace (full_logger, full_world) = Done None (l', w')
                            /\ size l' = 10485760).
  { eexists _, _. split; [vm_compute; reflexivity | reflexivity]. }
  destruct E as (l' & w' & E & Hsz).
  destruct (Hall full_logger full_world l' w' eq_refl E) as (_ & _ & H0).
  rewrite Hsz in H0. discriminate H0.
Qed.

(* ===================================================================== *)
(** * The window start stays page aligned *)
(* ===================================================================== *)

Section Preservation.
Context (P : MMapLogger -> Prop).

Lemma preservesL_ret {A} (a : A) : preservesL P (ret a).
Proof. intros s H. exact H. Qed.

Lemma preservesL_panic {A} (f : fault) : preservesL P (@panic A f).
Proof. intros s H. exact H. Qed.

Lemma preservesL_getL : preservesL P getL.
Proof. intros s H. exact H. Qed.

Lemma preservesL_getW : preservesL P getW.
Proof. intros s H. exact H. Qed.

Lemma preservesL_sys {A} (f : World -> World * A) : preservesL P (sys f).
Proof. intros [l w] H. unfold sys. simpl. destruct (f w). exact H. Qed.

Lemma preservesL_modL (f : MMapLogger -> MMapLogger) :
  (forall l, P l -> P (f l)) -> preservesL P (modL f).
Proof. intros Hf [l w] H. simpl. apply Hf, H. Qed.

Lemma preservesL_bind {A B} (m : M A) (k : A -> M B) :
  preservesL P m -> (forall a, preservesL P (k a)) -> preservesL P (bind m k).
Proof.
  intros Hm Hk s H. unfold bind. specialize (Hm s H).
  destruct (m s) as [a s1|f s1]; simpl in *.
  - apply Hk, Hm.
  - exact Hm.
Qed.

Lemma ensures_ret {A} (a : A) (Q : A -> Prop) : Q a -> ensures P (ret a) Q.
Proof. intros Ha s H. simpl. auto. Qed.

Lemma ensures_bind {A B} (m : M A) (k : A -> M B) (Q : B -> Prop) :
  preservesL P m -> (forall a, ensures P (k a) Q) -> ensures P (bind m k) Q.
Proof.
  intros Hm Hk s H. unfold bind. specialize (Hm s H).
  destruct (m s) as [a s1|f s1]; simpl in *.
  - apply Hk, Hm.
  - exact Hm.
Qed.

Lemma ensures_then {A B} (m : M A) (k : A -> M B) (Q : A -> Prop) :
  ensures P m Q -> (forall a, Q a -> preservesL P (k a)) -> preservesL P (bind m k).
Proof.
  intros Hm Hk s H. unfold bind. specialize (Hm s H).
  destruct (m s) as [a s1|f s1]; simpl in *.
  - destruct Hm as [HP HQ]. apply (Hk a HQ), HP.
  - exact Hm.
Qed.
End Preservation.

Ltac pres_step :=
  match goal with
  | |- preservesL _ (bind _ _) => apply preservesL_bind
  | |- preservesL _ (ret _) => apply preservesL_ret
  | |- preservesL _ (panic _) => apply preservesL_panic
  | |- preservesL _ getL => apply preservesL_getL
  | |- preservesL _ getW => apply preservesL_getW
  | |- preservesL _ (sys _) => apply preservesL_sys
  | |- preservesL _ (modL _) =>
      apply preservesL_modL;
      let l := fresh "l" in let H := fresh "H" in
      intros l H;
      try match goal with S : start_only _ |- _ => apply (S l); [reflexivity | exact H] end
  | |- preservesL _ (match ?x with _ => _ end) => destruct x
  | |- forall _, _ => intro
  end.

Ltac pres := repeat pres_step.

Section StartOnly.
Context (P : MMapLogger -> Prop) (HP : start_only P).

Lemma mill_preserves : preservesL P mill.
Proof using HP. unfold mill. pres. Qed.

Lemma close_preserves : preservesL P close.
Proof using HP. unfold close. pres. Qed.

Lemma chown_preserves name : preservesL P (chown name).
Proof using HP. unfold chown. pres. Qed.

Lemma openNew_preserves : preservesL P openNew.
Proof using HP. unfold openNew. pres; apply chown_preserves. Qed.

Lemma rotate_preserves : preservesL P rotate.
Proof using HP.
  unfold rotate. pres;
    first [apply close_preserves | apply openNew_preserves | apply mill_preserves].
Qed.

Lemma openExistingOrNew_preserves : preservesL P openExistingOrNew.
Proof using HP.
  unfold openExistingOrNew. pres;
    first [apply openNew_preserves | apply mill_preserves].
Qed.

Lemma unMap_preserves : preservesL P unMap.
Proof using HP. unfold unMap. pres. Qed.

Lemma copy_to_window_preserves at_ p : preservesL P (copy_to_window at_ p).
Proof using HP. unfold copy_to_window. pres. Qed.

Lemma StopMmapLogger_preserves : preservesL P StopMmapLogger.
Proof using HP. unfold StopMmapLogger. pres; apply unMap_preserves. Qed.
End StartOnly.

Lemma alignedL_start_only : start_only alignedL.
Proof. intros l l2 H. unfold alignedL. now rewrite H. Qed.

Lemma aligned_start (x : Z) : wrap64 (Z.quot x pageSize * pageSize) mod pageSize = 0.
Proof. rewrite wrap64_mod_page. apply Z.mod_mul. unfold pageSize. lia. Qed.

Lemma allocateSpace_preserves_aligned : preservesL alignedL allocateSpace.
Proof.
  pose proof alignedL_start_only as HP.
  unfold allocateSpace. cbv zeta.
  apply preservesL_bind; [apply unMap_preserves, HP|].
  intros [e|]; [apply preservesL_ret|].
  apply preservesL_bind; [apply preservesL_getL|]. intros l.
  apply ensures_then with
    (Q := fun r : error + Z => match r with inl _ => True | inr ws => ws mod pageSize = 0 end).
  - destruct (_ >? max l).
    + apply ensures_bind; [apply rotate_preserves, HP|].
      intros [e|]; apply ensures_ret; [exact I | reflexivity].
    + apply ensures_ret. apply aligned_start.
  - intros [e|ws] Hws; [apply preservesL_ret|].
    pres.
    unfold alignedL. simpl. exact Hws.
Qed.

Lemma Write_preserves_aligned p : preservesL alignedL (Write p).
Proof.
  pose proof alignedL_start_only as HP.
  unfold Write. cbv zeta. pres;
    first [ apply openExistingOrNew_preserves, HP
          | apply allocateSpace_preserves_aligned
          | apply copy_to_window_preserves, HP ].
Qed.

(** C6. The window start is always a multiple of the page size: it is 0 in
    a new logger; [Write], [Rotate] and [allocateSpace] keep it a multiple
    of the page size whatever their outcome; and a successful allocation
    sets it to 0 when it rotates and otherwise to the greatest multiple of
    the page size that is at most the write cursor. *)
Theorem writeStartAt_page_aligned :
  (forall fn ms ma mb c, writeStartAt (newLogger fn ms ma mb c) = 0) /\
  (forall p s, aligned s -> aligned (final (Write p s))) /\
  (forall s, aligned s -> aligned (final (Rotate s))) /\
  (forall s, aligned s -> aligned (final (allocateSpace s))) /\
  (forall l w l' w',
     0 <= writeAt l <= max_int64 ->
     allocateSpace (l, w) = Done None (l', w') ->
     writeStartAt l' = (if needs_rotation l then 0 else pageSize * (writeAt l / pageSize))
     /\ (needs_rotation l = false -> writeAt l' = writeAt l)).
Proof.
  split; [reflexivity|].
  split; [intros p s; apply Write_preserves_aligned|].
  split; [intros s; apply rotate_preserves, alignedL_start_only|].
  split; [intros s; apply allocateSpace_preserves_aligned|].
  intros l w l' w' Hrange H.
  apply allocateSpace_ok in H. destruct H as (w1 & Hu & H).
  destruct (needs_rotation l).
  - destruct H as (l2 & w2 & _ & (h & ino & _ & _ & -> & _)).
    split; [reflexivity | discriminate].
  - destruct H as (h & ino & _ & _ & -> & _). simpl.
    split; [|reflexivity].
    rewrite Z.quot_div_nonneg by (unfold pageSize; lia).
    assert (Hb : 0 <= writeAt l / pageSize * pageSize <= writeAt l).
    { unfold pageSize. pose proof (Z.div_mod (writeAt l) 4096).
      pose proof (Z.mod_pos_bound (writeAt l) 4096).
      change (4 * 1024) with 4096. split; [apply Z.mul_nonneg_nonneg; [apply Z.div_pos|]|]; lia. }
    rewrite wrap64_small by (unfold in_int64, min_int64, max_int64 in *; lia).
    lia.
Qed.

Lemma writeStartAt_page_aligned_witness :
  aligned (final (Write hello (logger0, quiet_world))) /\
  writeStartAt (fst (final (allocateSpace (full_logger, full_world)))) = 0.
Proof.
  destruct writeStartAt_page_aligned as (_ & HW & _ & _ & HA).
  split.
  - apply HW. reflexivity.
  - assert (E : exists l' w', allocateSpace (full_logger, full_world) = Done None (l', w')).
    { eexists _, _. vm_compute. reflexivity. }
    destruct E as (l' & w' & E). rewrite E. simpl.
    destruct (HA full_logger full_world l' w') as (Hs & _); [|exact E|exact Hs].
    vm_compute. split; discriminate.
Defined.

(* ===================================================================== *)
(** * A write into the mapped window *)
(* ===================================================================== *)

Lemma store_bytes_read (p : list byte) (pos : Z) (f : inode) (i : nat) :
  (i < length p)%nat -> i_data (store_bytes p pos f) (pos + Z.of_nat i) = nth i p x00.
Proof.
  intros Hi. unfold store_bytes. simpl.
  destruct (pos <=? pos + Z.of_nat i) eqn:E1; [|lia].
  destruct (pos + Z.of_nat i <? pos + Z.of_nat (length p)) eqn:E2; [|lia].
  simpl. f_equal. lia.
Qed.

(** The second half of [Write] on a state whose window is mapped and has
    room for the buffer. *)
Lemma Write_commit (p : list byte) (s s2 : St) :
  Z.of_nat (length p) <= max (fst s) ->
  prepared p s s2 ->
  window_ok s2 ->
  Z.of_nat (length p) + (writeAt (fst s2) - writeStartAt (fst s2)) <= window_size ->
  exists n s',
    Write p s = Done (n, None) s' /\
    writeAt (fst s') = writeAt (fst s2) + Z.of_nat (length p) /\
    size (fst s') = size (fst s2) /\
    writeStartAt (fst s') = writeStartAt (fst s2) /\
    window_ok s' /\
    stored p (writeAt (fst s2)) s'.
Proof.
  intros Hmax (s1 & Hopen & Halloc) Hok Hfit.
  destruct s as [l w], s1 as [l1 w1], s2 as [l2 w2]. simpl in *.
  destruct Hok as (h & ino & d & f & Hfile & Hfd & Hsp & Hlen & Hmap & Hino & Hsize &
                   Hs0 & Hsw & Hws & Hbig).
  unfold window_size in *.
  assert (Hc : wrap64 (writeAt l2 - writeStartAt l2) = writeAt l2 - writeStartAt l2).
  { apply wrap64_small. unfold in_int64, min_int64, max_int64. lia. }
  assert (Hlc : wrap64 (Z.of_nat (length p) + (writeAt l2 - writeStartAt l2))
                = Z.of_nat (length p) + (writeAt l2 - writeStartAt l2)).
  { apply wrap64_small. unfold in_int64, min_int64, max_int64. lia. }
  assert (Hwa : wrap64 (writeAt l2 + Z.of_nat (length p)) = writeAt l2 + Z.of_nat (length p)).
  { apply wrap64_small. unfold in_int64, min_int64, max_int64. lia. }
  assert (Hsz : wrap64 (size l2 + 0) = size l2).
  { rewrite Z.add_0_r. apply wrap64_small. unfold in_int64, min_int64, max_int64. lia. }
  assert (Hrun : forall s0 : St,
            (match file l with
             | None => openExistingOrNew (l, w) = Done None s0
             | Some _ => s0 = (l, w)
             end) ->
            (if Z.of_nat (length p) >=? wrap64 (size (fst s0) - writeAt (fst s0))
             then allocateSpace s0 = Done None (l2, w2)
             else (l2, w2) = s0) ->
            Write p (l, w) =
            Done (0, None)
              (set_size (size l2) (set_writeAt (writeAt l2 + Z.of_nat (length p)) l2),
               match p with
               | [] => w2
               | _ => set_inodes (alter (store_bytes p (writeAt l2)) ino) w2
               end)).
  { intros [l0 w0] H0 H1. simpl in H1.
    unfold Write, bind, getL, getW, ret, modL. simpl.
    destruct (Z.of_nat (length p) >? max l) eqn:E; [lia|].
    assert (Hgo : (if Z.of_nat (length p) >=? wrap64 (size l0 - writeAt l0)
                   then allocateSpace else fun s : St => Done None s) (l0, w0)
                  = Done None (l2, w2)).
    { destruct (Z.of_nat (length p) >=? wrap64 (size l0 - writeAt l0));
        [exact H1 | now rewrite H1]. }
    assert (Hcopy : copy_to_window (writeAt l2 - writeStartAt l2) p (l2, w2) =
                    Done tt (l2, match p with
                                  | [] => w2
                                  | _ => set_inodes (alter (store_bytes p (writeAt l2)) ino) w2
                                  end)).
    { unfold copy_to_window, bind, getL, getW, ret, sys, panic. simpl.
      unfold len_mmapSpace. rewrite Hsp, Hlen.
      destruct (writeAt l2 - writeStartAt l2 <? 0) eqn:E1; [lia|].
      destruct (10485760 <? writeAt l2 - writeStartAt l2) eqn:E2; [lia|]. simpl.
      destruct p; [reflexivity|]. simpl. rewrite Hmap. simpl.
      replace (writeStartAt l2 + (writeAt l2 - writeStartAt l2)) with (writeAt l2) by lia.
      reflexivity. }
    destruct (file l).
    - injection H0 as -> ->. cbn [fst snd]. rewrite Hgo. cbn [fst snd].
      rewrite Hc, Hlc. unfold len_mmapSpace at 1. rewrite Hsp, Hlen.
      destruct (_ >? 10485760) eqn:E3; [lia|].
      rewrite Hcopy. cbn [fst snd]. now rewrite Hwa, Hsz.
    - rewrite H0. cbn [fst snd]. rewrite Hgo. cbn [fst snd].
      rewrite Hc, Hlc. unfold len_mmapSpace at 1. rewrite Hsp, Hlen.
      destruct (_ >? 10485760) eqn:E3; [lia|].
      rewrite Hcopy. cbn [fst snd]. now rewrite Hwa, Hsz. }
  exists 0. eexists. split; [exact (Hrun (l1, w1) Hopen Halloc)|].
  simpl. split; [reflexivity|]. split; [reflexivity|]. split; [reflexivity|].
  destruct p as [|b p'] eqn:Hp.
  - split; [|now left].
    exists h, ino, d, f. simpl. repeat split; auto; lia.
  - rewrite <- Hp in *. split.
    + exists h, ino, d, (store_bytes p (writeAt l2) f).
      simpl. rewrite lookup_alter_eq, Hino. repeat split; auto; lia.
    + right. exists d, {| r_ino := ino; r_off := writeStartAt l2; r_len := 10485760 |},
        (store_bytes p (writeAt l2) f).
      simpl. rewrite lookup_alter_eq, Hino. repeat split; auto; try lia.
      intros i Hi. now apply store_bytes_read.
Qed.

Lemma unMap_inodes (l l1 : MMapLogger) (w w1 : World) (e : option error) (i : nat) :
  unMap (l, w) = Done e (l1, w1) ->
  is_Some (inodes w !! i) -> is_Some (inodes w1 !! i).
Proof.
  intros H Hi. unfold unMap, sys_munmap, sys_ftruncate in H.
  run H; done_eq H; try exact Hi.
  rewrite lookup_alter. destruct (decide _); [|exact Hi].
  subst. destruct Hi as [f ->]. simpl. eauto.
Qed.

(** A successful allocation leaves the window of the open file mapped,
    with the cursor in the first page of the window. *)
Lemma allocateSpace_window_ok (l l2 : MMapLogger) (w w2 : World) :
  fails w OpStat = false ->
  fds_backed w ->
  0 <= writeAt l <= 4611686018427387904 ->
  allocateSpace (l, w) = Done None (l2, w2) ->
  window_ok (l2, w2) /\
  0 <= writeAt l2 - writeStartAt l2 < pageSize /\
  writeAt l2 = (if needs_rotation l then 0 else writeAt l).
Proof.
  intros Hstat Hback Hrange H.
  apply allocateSpace_ok in H. destruct H as (w1 & Hu & H).
  pose proof (unMap_ok _ _ _ _ _ Hu) as (_ & Hn1 & Hf1 & Hid1 & Henv1).
  destruct (needs_rotation l).
  - destruct H as (l2r & w2r & Hr & Hw).
    assert (Hstat1 : fails w1 OpStat = false).
    { destruct Henv1 as (Hf & _). rewrite Hf. exact Hstat. }
    apply (rotate_ok _ _ _ _ Hstat1) in Hr.
    destruct Hr as (h & ino & ch & once & -> & Hfd & _ & Hino & _ & _ & _ & _).
    destruct Hw as (h' & ino' & Hfile & Hfd' & -> & ->).
    simpl in Hfile. injection Hfile as <-. rewrite Hfd in Hfd'. injection Hfd' as <-.
    split; [|split; [simpl; unfold pageSize; lia | reflexivity]].
    exists h, ino, {| s_map := next_id w2r; s_len := 10485760 |},
      (truncate_inode 10485760 empty_file).
    simpl. rewrite lookup_insert_eq, lookup_alter_eq, Hino.
    repeat split; try reflexivity; try assumption; unfold window_size; try lia.
    discriminate.
  - destruct H as (h & ino & Hfile & Hfd & -> & ->).
    assert (Hq : wrap64 (Z.quot (writeAt l) pageSize * pageSize)
                 = writeAt l / pageSize * pageSize).
    { rewrite Z.quot_div_nonneg by (unfold pageSize; lia).
      apply wrap64_small. unfold in_int64, min_int64, max_int64, pageSize.
      pose proof (Z.div_mod (writeAt l) 4096). pose proof (Z.mod_pos_bound (writeAt l) 4096).
      change (4 * 1024) with 4096. lia. }
    assert (Hdm : writeAt l / pageSize * pageSize <= writeAt l
                  < writeAt l / pageSize * pageSize + pageSize
                  /\ 0 <= writeAt l / pageSize * pageSize).
    { unfold pageSize. change (4 * 1024) with 4096.
      pose proof (Z.div_mod (writeAt l) 4096). pose proof (Z.mod_pos_bound (writeAt l) 4096).
      lia. }
    rewrite Hq. rewrite window_size_value.
    assert (Hsz : wrap64 (writeAt l / pageSize * pageSize + 10485760)
                  = writeAt l / pageSize * pageSize + 10485760).
    { apply wrap64_small. unfold in_int64, min_int64, max_int64. lia. }
    rewrite Hsz.
    assert (Hino : is_Some (inodes w1 !! ino)).
    { eapply unMap_inodes; [exact Hu|]. eapply Hback. rewrite <- Hf1. exact Hfd. }
    destruct Hino as [f Hino].
    split; [|split; [simpl; unfold pageSize in *; lia | reflexivity]].
    exists h, ino, {| s_map := next_id w1; s_len := 10485760 |},
      (truncate_inode (writeAt l / pageSize * pageSize + 10485760) f).
    simpl. rewrite lookup_insert_eq, lookup_alter_eq, Hino.
    unfold window_size, pageSize in *.
    repeat split; try reflexivity; try assumption; lia.
Qed.


Lemma prepared_first_write : prepared hello (logger0, quiet_world) first_window_state.
Proof.
  exists opened_state. split.
  - vm_compute. reflexivity.
  - vm_compute. reflexivity.
Qed.

Lemma window_ok_first_window : window_ok first_window_state.
Proof.
  assert (E : exists l2 w2, first_window_state = (l2, w2) /\
                allocateSpace opened_state = Done None (l2, w2)).
  { eexists _, _. split; vm_compute; reflexivity. }
  destruct E as (l2 & w2 & -> & E).
  assert (Eo : exists l1 w1, opened_state = (l1, w1) /\ fails w1 OpStat = false /\
                 writeAt l1 = 0 /\ fds w1 = {[ 1%nat := 0%nat ]} /\
                 is_Some (inodes w1 !! 0%nat)).
  { eexists _, _. split; [vm_compute; reflexivity|].
    repeat split; try (vm_compute; reflexivity). vm_compute. eauto. }
  destruct Eo as (l1 & w1 & Eq & Hst & Hw & Hfds & Hino). rewrite Eq in E.
  apply (allocateSpace_window_ok l1 l2 w1 w2); try assumption.
  - intros h ino Hh. rewrite Hfds in Hh.
    apply lookup_singleton_Some in Hh. destruct Hh as [_ <-]. exact Hino.
  - rewrite Hw. lia.
Qed.


(** A buffer of 11 MiB under the default limit of 100 MiB passes the size
    check, a window of 10 MiB is allocated, and the guard before the copy
    returns the full count with a nil error although nothing was stored:
    the cursor has not moved, the file is one window of zeros, and the
    buffer is not in the mapped window. *)
Lemma Write_beyond_window (p : list byte) :
  Z.of_nat (length p) = 11534336 ->
  exists l' w' f,
    Write p (logger0, quiet_world) = Done (11534336, None) (l', w') /\
    writeAt l' = 0 /\ names w' !! "mmap.log" = Some 0%nat /\
    inodes w' !! 0%nat = Some f /\ (forall i, i_data f i = x00) /\
    len_mmapSpace l' = 10485760 /\ i_size f = 10485760 /\
    ~ stored p 0 (l', w').
Proof.
  intros Hlen. unfold Write, bind, getL, getW, ret. rewrite Hlen.
  do 3 eexists. split; [vm_compute; reflexivity|].
  split; [reflexivity|]. split; [vm_compute; reflexivity|].
  split; [vm_compute; reflexivity|].
  split; [intros i; cbn; repeat case_match; reflexivity|].
  split; [reflexivity|]. split; [reflexivity|].
  unfold stored. cbn [fst snd].
  intros [Hp | (d & r & f0 & Hd & Hr & _ & Hoff & Hfit & _)].
  - subst p. discriminate Hlen.
  - injection Hd as <-. vm_compute in Hr. injection Hr as <-.
    rewrite Hlen in Hfit. cbn in Hfit, Hoff. lia.
Qed.


(** What [Write] does guarantee, short of that guard. A successful
    allocation leaves the window of the file mapped with the cursor in its
    first page, so the room left holds every buffer of at most 10481665
    bytes (the window less a page, plus one) in full; and a write accepted
    without error whose buffer fits the room left in the mapped window is
    stored entirely, from the cursor on, before [Write] returns. *)
Lemma Write_stores_what_fits (p : list byte) :
  (forall l w l2 w2,
     fails w OpStat = false ->
     fds_backed w ->
     0 <= writeAt l <= 4611686018427387904 ->
     allocateSpace (l, w) = Done None (l2, w2) ->
     Z.of_nat (length p) <= window_size - pageSize + 1 ->
     window_ok (l2, w2) /\
     Z.of_nat (length p) <= len_mmapSpace l2 - (writeAt l2 - writeStartAt l2)) /\
  (forall s s2,
     Z.of_nat (length p) <= max (fst s) ->
     prepared p s s2 ->
     window_ok s2 ->
     Z.of_nat (length p)
       <= len_mmapSpace (fst s2) - (writeAt (fst s2) - writeStartAt (fst s2)) ->
     exists n s', Write p s = Done (n, None) s' /\ stored p (writeAt (fst s2)) s').
Proof.
  split.
  - intros l w l2 w2 Hstat Hback Hrange Halloc Hlen.
    destruct (allocateSpace_window_ok l l2 w w2 Hstat Hback Hrange Halloc)
      as (Hok & Hpage & _).
    split; [exact Hok|].
    destruct Hok as (h & ino & d & f & _ & _ & Hsp & Hl & _).
    unfold len_mmapSpace. rewrite Hsp, Hl. lia.
  - intros s s2 Hmax Hprep Hok Hfit.
    assert (Hlen : len_mmapSpace (fst s2) = window_size).
    { destruct s2 as [l2 w2]. destruct Hok as (h & ino & d & f & _ & _ & Hsp & Hl & _).
      simpl. unfold len_mmapSpace. now rewrite Hsp. }
    destruct (Write_commit p s s2 Hmax Hprep Hok ltac:(lia))
      as (n & s' & Hrun & _ & _ & _ & _ & Hst).
    eauto.
Qed.

Lemma Write_stores_what_fits_witness :
  window_ok first_window_state /\
  exists n s', Write hello (logger0, quiet_world) = Done (n, None) s' /\ stored hello 0 s'.
Proof.
  split; [exact window_ok_first_window|].
  destruct (Write_stores_what_fits hello) as (_ & H).
  destruct (H (logger0, quiet_world) first_window_state) as (n & s' & Hrun & Hst).
  - vm_compute. discriminate.
  - exact prepared_first_write.
  - exact window_ok_first_window.
  - vm_compute. discriminate.
  - exists n, s'. split; [exact Hrun | exact Hst].
Defined.

(** C2. The code does not do what the specification says here. A write
    of 11534336 bytes to a new logger with the limit of 100 MiB passes the
    size check and is answered with the count 11534336 and no error: the
    write is accepted. The window allocated for it is 10485760 bytes long,
    less than the buffer, and the guard before the copy returns without
    copying: the cursor stays at 0, the file is one window of zeros, and
    the buffer is not in the mapped window. The specification says that
    the window allocated for an accepted write holds the buffer in full
    and that the entire buffer is copied into it. Every other path of
    [Write] that does not store the buffer returns an error; this one
    returns the named result [err], which is nil there. *)
Theorem Write_drops_buffer_beyond_window :
  exists l' w' f,
    Z.of_nat (length (repeat x61 (Z.to_nat 11534336))) <= max logger0 /\
    Write (repeat x61 (Z.to_nat 11534336)) (logger0, quiet_world)
      = Done (11534336, None) (l', w') /\
    writeAt l' = 0 /\
    len_mmapSpace l' = 10485760 /\
    len_mmapSpace l' < Z.of_nat (length (repeat x61 (Z.to_nat 11534336))) /\
    names w' !! "mmap.log" = Some 0%nat /\
    inodes w' !! 0%nat = Some f /\
    i_size f = 10485760 /\
    (forall i, i_data f i = x00) /\
    ~ stored (repeat x61 (Z.to_nat 11534336)) 0 (l', w').
Proof.
  assert (Hlen : Z.of_nat (length (repeat x61 (Z.to_nat 11534336))) = 11534336)
    by (rewrite repeat_length; apply Z2Nat.id; lia).
  destruct (Write_beyond_window _ Hlen)
    as (l' & w' & f & Hrun & Hcur & Hname & Hino & Hdata & Hwin & Hsize & Hnot).
  exists l', w', f. rewrite Hlen.
  split; [vm_compute; discriminate|]. split; [exact Hrun|].
  split; [exact Hcur|]. split; [exact Hwin|]. split; [rewrite Hwin; lia|].
  split; [exact Hname|]. split; [exact Hino|]. split; [exact Hsize|].
  split; [exact Hdata | exact Hnot].
Qed.

(* ===================================================================== *)
(** * Rotation on request *)
(* ===================================================================== *)

(** C3. The code does not do what the specification says here. [Rotate]
    after a write of five bytes: the window is not unmapped and the file is
    not truncated before it is closed and renamed, so the archived file is
    10485760 bytes long where the cursor was 5, and the old mapping stays
    active. *)
Theorem Rotate_archives_the_padding :
  exists l1 w1 l2 w2 d,
    Write hello (logger0, quiet_world) = Done (0, None) (l1, w1) /\
    writeAt l1 = 5 /\
    Rotate (l1, w1) = Done None (l2, w2) /\
    disk_size w2 "mmap-2024-01-02T03-04-05.678.log" = Some 10485760 /\
    disk_size w2 "mmap.log" = Some 0 /\
    mmapSpace l2 = Some d /\
    maps w2 !! s_map d = Some {| r_ino := 0; r_off := 0; r_len := 10485760 |} /\
    names w2 !! "mmap-2024-01-02T03-04-05.678.log" = Some 0%nat.
Proof.
  do 5 eexists. split; [vm_compute; reflexivity|].
  split; [reflexivity|].
  split; [vm_compute; reflexivity|].
  repeat split; vm_compute; reflexivity.
Qed.

(** The rotation that [allocateSpace] starts does unmap and truncate
    first: a write that no longer fits the window of a file at its limit
    archives exactly the 10485758 bytes written so far. *)
Lemma allocateSpace_rotation_archives_the_cursor :
  let r := Write hello (near_full_logger, near_full_world) in
  writeAt near_full_logger = 10485758 /\
  outcome r = Some (0, None) /\
  disk_size (snd (final r)) "mmap-2024-01-02T03-04-05.678.log" = Some 10485758 /\
  maps (snd (final r)) !! 2%nat = None /\
  writeAt (fst (final r)) = 5.
Proof.
  cbv zeta. repeat split; vm_compute; reflexivity.
Qed.

#[local] Set Warnings "-clear-no-such-hyp".

(* ===================================================================== *)
(** * The candidates of a sweep *)
(* ===================================================================== *)

Lemma timeFromName_stamp (env : SweepEnv) (name prefix x : string) (t : Z) :
  timeFromName env name prefix x = Stamp t ->
  HasPrefix name prefix = true /\ HasSuffix name x = true /\
  exists ts, slice name (slen prefix) (slen name - slen x) = Some ts /\
             parseTime env ts = Some t.
Proof.
  unfold timeFromName. intros H.
  destruct (HasPrefix name prefix); simpl in H; [|discriminate H].
  destruct (HasSuffix name x); simpl in H; [|discriminate H].
  destruct (slice name _ _) as [ts|]; [|discriminate H].
  destruct (parseTime env ts) as [t'|] eqn:Hp; [|discriminate H].
  injection H as ->. eauto.
Qed.

(** The name of the active file is never taken for a backup, whatever the
    extension tried and whatever the parser accepts. *)
Lemma timeFromName_active (env : SweepEnv) (l : MMapLogger) (w : World) (x : string) :
  timeFromName env (entry l w) (fst (prefixAndExt l w)) x = NoMatch.
Proof.
  unfold timeFromName, prefixAndExt, entry. simpl.
  now rewrite base_not_prefixed.
Qed.

Lemma candidate_not_active (env : SweepEnv) (l : MMapLogger) (w : World) (f : logInfo) :
  candidate env (fst (prefixAndExt l w)) (snd (prefixAndExt l w)) f ->
  Name (info f) <> entry l w /\
  Name (info f) +:+ compressSuffix <> entry l w.
Proof.
  intros (_ & Hp & _). unfold prefixAndExt, entry in *. simpl in Hp.
  split; intros Heq.
  - rewrite Heq, base_not_prefixed in Hp. discriminate Hp.
  - apply (HasPrefix_app_l _ compressSuffix) in Hp.
    rewrite Heq, base_not_prefixed in Hp. discriminate Hp.
Qed.

Lemma scanDir_candidates (env : SweepEnv) (prefix ext : string)
  (listing files : list FileInfo) (acc out : list logInfo) :
  (forall x, x ∈ files -> x ∈ listing) ->
  scanDir env prefix ext files acc = Some out ->
  Forall (fun f => candidate env prefix ext f /\ info f ∈ listing) acc ->
  Forall (fun f => candidate env prefix ext f /\ info f ∈ listing) out.
Proof.
  revert acc. induction files as [|f files IH]; intros acc Hsub H Hacc; simpl in H.
  - injection H as <-. exact Hacc.
  - assert (Hsub' : forall x, x ∈ files -> x ∈ listing).
    { intros x Hx. apply Hsub. now apply list_elem_of_further. }
    assert (Hf : f ∈ listing) by (apply Hsub; apply list_elem_of_here).
    assert (Hadd : forall t x,
      (x = ext \/ x = ext +:+ compressSuffix) ->
      IsDir f = false ->
      timeFromName env (Name f) prefix x = Stamp t ->
      Forall (fun g => candidate env prefix ext g /\ info g ∈ listing)
             (acc ++ [{| timestamp := t; info := f |}])).
    { intros t x Hx Hd Ht. apply Forall_app. split; [exact Hacc|].
      apply Forall_singleton. split; [|exact Hf].
      apply timeFromName_stamp in Ht. destruct Ht as (Hp & Hs & ts & Hsl & Hpt).
      split; [exact Hd|]. split; [exact Hp|]. exists x, ts. auto. }
    destruct (IsDir f) eqn:Hd; [eauto|].
    destruct (timeFromName env (Name f) prefix ext) as [t| |] eqn:H1;
      [eauto | | discriminate H].
    destruct (timeFromName env (Name f) prefix (ext +:+ compressSuffix)) as [t| |] eqn:H2;
      [eauto | eauto | discriminate H].
Qed.

Lemma elem_of_ReadDir (disk : gmap string node) (fi : FileInfo) :
  fi ∈ ReadDir disk -> is_Some (disk !! Name fi).
Proof.
  unfold ReadDir. intros H. rewrite merge_sort_Permutation in H.
  apply list_elem_of_fmap in H.
  destruct H as ([k v] & -> & H). simpl. apply elem_of_map_to_list in H. eauto.
Qed.

#[global] Instance newer_eq_total : Total newer_eq.
Proof. intros a b. unfold newer_eq. lia. Qed.

#[global] Instance newer_eq_trans : Transitive newer_eq.
Proof. intros a b c. unfold newer_eq. lia. Qed.

Lemma ascii_compare_N (a b : ascii) :
  Ascii.compare a b = N.compare (N_of_ascii a) (N_of_ascii b).
Proof. reflexivity. Qed.

Lemma ascii_compare_eq (a b : ascii) : Ascii.compare a b = Eq -> a = b.
Proof.
  rewrite ascii_compare_N. intros H. apply N.compare_eq in H.
  rewrite <- (ascii_N_embedding a), <- (ascii_N_embedding b). now rewrite H.
Qed.

(** The order of names is transitive. *)
Lemma string_leb_trans (a b c : string) :
  String.leb a b = true -> String.leb b c = true -> String.leb a c = true.
Proof.
  unfold String.leb. revert b c.
  induction a as [|x a IH]; intros [|y b] [|z c]; simpl; try easy.
  pose proof (ascii_compare_N x y) as Hxy. pose proof (ascii_compare_N y z) as Hyz.
  pose proof (ascii_compare_N x z) as Hxz.
  destruct (Ascii.compare x y) eqn:E1; try easy;
    destruct (Ascii.compare y z) eqn:E2; try easy.
  - apply ascii_compare_eq in E1, E2. subst.
    rewrite ascii_compare_N, N.compare_refl. apply IH.
  - apply ascii_compare_eq in E1. subst. rewrite E2. easy.
  - apply ascii_compare_eq in E2. subst. rewrite E1. easy.
  - symmetry in Hxy, Hyz.
    assert (H : N.compare (N_of_ascii x) (N_of_ascii z) = Lt)
      by exact (N.lt_trans _ _ _ Hxy Hyz).
    rewrite Hxz, H. easy.
Qed.

#[global] Instance placed_before_total (env : SweepEnv) : Total (placed_before env).
Proof.
  intros a b. unfold placed_before.
  destruct (Z.lt_trichotomy (timestamp a) (timestamp b)) as [H|[H|H]]; [auto| |auto].
  destruct (Nat.lt_trichotomy (tie env (Name (info a))) (tie env (Name (info b))))
    as [T|[T|T]]; [auto 6| |auto 6].
  destruct (String.leb_total (Name (info a)) (Name (info b))); auto 8.
Qed.

#[global] Instance placed_before_trans (env : SweepEnv) : Transitive (placed_before env).
Proof.
  intros a b c. unfold placed_before.
  intros [H1|(H1 & [T1|(T1 & N1)])] [H2|(H2 & [T2|(T2 & N2)])];
    try (left; lia); right; (split; [lia|]); try (left; lia).
  right. split; [lia|]. eapply string_leb_trans; eauto.
Qed.

(** Files in the order of the sort are in the order of their stamps. *)
Lemma placed_before_newer_eq (env : SweepEnv) (a b : logInfo) :
  placed_before env a b -> newer_eq a b.
Proof. unfold placed_before, newer_eq. intros [H|(H & _)]; lia. Qed.

Lemma StronglySorted_weaken {A} (R S : A -> A -> Prop) (l : list A) :
  (forall x y, R x y -> S x y) -> StronglySorted R l -> StronglySorted S l.
Proof.
  intros HRS H. induction H as [|x l Hl IH Hx]; constructor; [exact IH|].
  eapply Forall_impl; [exact Hx|]. intros y. apply HRS.
Qed.

(** [oldLogFiles] returns candidates only, each one an entry of the
    directory, sorted from the newest to the oldest. *)
Lemma oldLogFiles_ok (env : SweepEnv) (l : MMapLogger) (w : World)
  (disk : gmap string node) (files : list logInfo) :
  oldLogFiles env l w disk = Some (inr files) ->
  StronglySorted newer_eq files /\
  Forall (fun f => candidate env (fst (prefixAndExt l w)) (snd (prefixAndExt l w)) f /\
                   is_Some (disk !! Name (info f))) files.
Proof.
  unfold oldLogFiles. destruct (sfails env "." SReadDir); [discriminate|].
  destruct (prefixAndExt l w) as [prefix ext]. simpl.
  destruct (scanDir env prefix ext (ReadDir disk) []) as [logFiles|] eqn:Hscan; [|discriminate].
  intros [= <-]. split.
  { apply (StronglySorted_weaken (placed_before env)); [apply placed_before_newer_eq|].
    apply StronglySorted_merge_sort; apply _. }
  apply scanDir_candidates with (listing := ReadDir disk) in Hscan; [|auto|constructor].
  rewrite Forall_forall in *. intros f Hf.
  rewrite merge_sort_Permutation in Hf.
  destruct (Hscan f Hf) as [Hc Hin]. split; [exact Hc|].
  now apply elem_of_ReadDir.
Qed.

(* ===================================================================== *)
(** * The loops of [millRunOnce] in closed form *)
(* ===================================================================== *)

Lemma ageLoop_filter (cutoff : Z) (files remove remaining : list logInfo) :
  ageLoop cutoff files remove remaining =
  (remove ++ filter (fun f => timestamp f < cutoff) files,
   remaining ++ filter (fun f => ~ timestamp f < cutoff) files).
Proof.
  revert remove remaining. induction files as [|f files IH]; intros remove remaining; simpl.
  - now rewrite !app_nil_r.
  - rewrite !filter_cons. destruct (timestamp f <? cutoff) eqn:E.
    + apply Z.ltb_lt in E. rewrite IH.
      destruct (decide (timestamp f < cutoff)); [|contradiction].
      destruct (decide (~ timestamp f < cutoff)); [contradiction|].
      now rewrite <- app_assoc.
    + apply Z.ltb_ge in E. rewrite IH.
      destruct (decide (timestamp f < cutoff)); [lia|].
      destruct (decide (~ timestamp f < cutoff)); [|contradiction].
      now rewrite <- app_assoc.
Qed.

Lemma compressLoop_filter (files compress : list logInfo) :
  compressLoop files compress =
  compress ++ filter (fun f => HasSuffix (Name (info f)) compressSuffix = false) files.
Proof.
  revert compress. induction files as [|f files IH]; intros compress; simpl.
  - now rewrite app_nil_r.
  - rewrite filter_cons.
    destruct (HasSuffix (Name (info f)) compressSuffix) eqn:E; simpl; rewrite IH.
    + destruct (decide (true = false)); [discriminate|]. reflexivity.
    + destruct (decide (false = false)); [|contradiction]. now rewrite <- app_assoc.
Qed.

Lemma backupsLoop_acc (m : Z) (files : list logInfo) (preserved : gset string)
  (remove remaining : list logInfo) :
  backupsLoop m files preserved remove remaining =
  (remove ++ fst (backupsLoop m files preserved [] []),
   remaining ++ snd (backupsLoop m files preserved [] [])).
Proof.
  revert preserved remove remaining.
  induction files as [|f files IH]; intros preserved remove remaining; simpl.
  - now rewrite !app_nil_r.
  - destruct (_ >? m).
    + rewrite IH. rewrite (IH _ [f] []). simpl. now rewrite <- app_assoc.
    + rewrite IH. rewrite (IH _ [] [f]). simpl. now rewrite <- app_assoc.
Qed.

Lemma set_len_mono (a b : gset string) : a ⊆ b -> set_len a <= set_len b.
Proof. intros H. unfold set_len. apply subseteq_size in H. lia. Qed.

Lemma set_len_add (x : string) (a : gset string) :
  set_len ({[x]} ∪ a) <= set_len a + 1.
Proof.
  unfold set_len. rewrite size_union_alt.
  assert (base.size (a ∖ {[x]}) <= base.size a)%nat by (apply subseteq_size; set_solver).
  rewrite size_singleton. lia.
Qed.

(** Once the limit is passed every further file is marked. *)
Lemma backupsLoop_over (m : Z) (files : list logInfo) (preserved : gset string) :
  set_len preserved > m ->
  backupsLoop m files preserved [] [] = (files, []).
Proof.
  revert preserved. induction files as [|f files IH]; intros preserved Hover; simpl.
  - reflexivity.
  - set (p := {[uncompressedName (Name (info f))]} ∪ preserved).
    assert (Hp : set_len p > m).
    { assert (Hsub : preserved ⊆ p) by (subst p; set_solver).
      apply set_len_mono in Hsub. lia. }
    destruct (set_len p >? m) eqn:E; [|lia].
    rewrite backupsLoop_acc, (IH p Hp). reflexivity.
Qed.

(** The loop cuts the list in two: the files kept are a prefix, the files
    marked the rest; the prefix is the longest one whose files stand for at
    most [m] backups. *)
Lemma backupsLoop_split (m : Z) (files : list logInfo) (preserved : gset string) :
  let r := backupsLoop m files preserved [] [] in
  files = snd r ++ fst r /\
  (set_len preserved <= m ->
   set_len (preserved ∪ stems (snd r)) = Z.min m (set_len (preserved ∪ stems files))) /\
  (forall x rest, fst r = x :: rest ->
     set_len (preserved ∪ stems (snd r ++ [x])) > m).
Proof.
  revert preserved. induction files as [|f files IH]; intros preserved; simpl.
  - split; [reflexivity|]. split; [|discriminate].
    intros H. unfold stems. simpl. rewrite union_empty_r_L. lia.
  - set (p := {[uncompressedName (Name (info f))]} ∪ preserved).
    assert (Hstems : forall fs, preserved ∪ stems (f :: fs) = p ∪ stems fs).
    { intros fs. unfold stems, p. simpl. set_solver. }
    destruct (set_len p >? m) eqn:E.
    + apply Z.gtb_lt in E.
      rewrite backupsLoop_acc, backupsLoop_over by lia. simpl.
      split; [reflexivity|]. split.
      * intros Hle. unfold stems at 1. simpl. rewrite union_empty_r_L.
        pose proof (set_len_add (uncompressedName (Name (info f))) preserved) as Hadd.
        fold p in Hadd.
        assert (Hsub : p ⊆ preserved ∪ stems (f :: files))
          by (rewrite Hstems; set_solver).
        apply set_len_mono in Hsub. lia.
      * intros x rest [= <- <-]. rewrite Hstems. unfold stems at 1. simpl.
        rewrite union_empty_r_L. lia.
    + assert (Hle : set_len p <= m) by lia.
      rewrite backupsLoop_acc. simpl.
      destruct (IH p) as (Hsplit & Hcount & Hmax).
      split; [now rewrite <- Hsplit|]. split.
      * intros _. rewrite !Hstems. apply Hcount, Hle.
      * intros x rest Hx. simpl. rewrite Hstems. eapply Hmax, Hx.
Qed.

Lemma millSelect_subset (env : SweepEnv) (l : MMapLogger) (files : list logInfo) (f : logInfo) :
  f ∈ fst (millSelect env l files) \/ f ∈ snd (millSelect env l files) -> f ∈ files.
Proof.
  unfold millSelect.
  pose proof (backupsLoop_split (MaxBackups l) files ∅) as (Hsplit & _).
  destruct (backupsLoop (MaxBackups l) files ∅ [] []) as [rm1 keep1] eqn:Hb. simpl in Hsplit.
  set (r1 := if (MaxBackups l >? 0) && (MaxBackups l <? Z.of_nat (length files))
             then (rm1, keep1) else ([], files)).
  assert (H1 : forall g, g ∈ fst r1 \/ g ∈ snd r1 -> g ∈ files).
  { intros g. subst r1. destruct (_ && _); simpl.
    - rewrite Hsplit, elem_of_app. tauto.
    - intros [Hg|Hg]; [inversion Hg | exact Hg]. }
  clearbody r1. destruct r1 as [rm keep]. simpl in H1.
  rewrite ageLoop_filter.
  set (r2 := if MaxAge l >? 0
             then (rm ++ filter (fun f0 => timestamp f0 <
                        now env + wrap64 (-1 * wrap64 (day_ns * MaxAge l))) keep,
                   [] ++ filter (fun f0 => ~ timestamp f0 <
                        now env + wrap64 (-1 * wrap64 (day_ns * MaxAge l))) keep)
             else (rm, keep)).
  assert (H2 : forall g, g ∈ fst r2 \/ g ∈ snd r2 -> g ∈ files).
  { intros g. subst r2. destruct (MaxAge l >? 0); simpl.
    - rewrite elem_of_app, !list_elem_of_filter. intros [[?|[_ ?]]|[_ ?]]; auto.
    - auto. }
  clearbody r2. destruct r2 as [rm2 keep2]. simpl in *.
  intros [Hf|Hf]; [auto|].
  destruct (Compress l); [|inversion Hf].
  rewrite compressLoop_filter in Hf. simpl in Hf.
  apply list_elem_of_filter in Hf. destruct Hf as [_ Hf]. auto.
Qed.

(* ===================================================================== *)
(** * What a sweep leaves alone *)
(* ===================================================================== *)

Lemma os_Remove_other (env : SweepEnv) (name a : string) (disk : gmap string node) :
  name <> a -> fst (os_Remove env name disk) !! a = disk !! a.
Proof.
  intros Hne. unfold os_Remove.
  destruct (sfails env name SRemove); [reflexivity|].
  destruct (disk !! name); simpl; [now rewrite lookup_delete_ne | reflexivity].
Qed.

Lemma os_Create_other (env : SweepEnv) (name a : string) (disk : gmap string node) :
  name <> a -> fst (os_Create env name disk) !! a = disk !! a.
Proof.
  intros Hne. unfold os_Create.
  destruct (sfails env name SCreate); [reflexivity|].
  destruct (disk !! name) as [[|]|]; simpl; try reflexivity.
  now rewrite lookup_insert_ne.
Qed.

Lemma write_over_other (name a : string) (bytes : list byte) (disk : gmap string node) :
  name <> a -> write_over name bytes disk !! a = disk !! a.
Proof.
  intros Hne. unfold write_over.
  destruct (disk !! name) as [[|]|]; simpl; try reflexivity.
  now rewrite lookup_insert_ne.
Qed.

Lemma compress_cleanup_other (env : SweepEnv) (dst a : string) (disk : gmap string node) :
  dst <> a -> fst (compress_cleanup env dst disk) !! a = disk !! a.
Proof. intros Hne. unfold compress_cleanup. simpl. now apply os_Remove_other. Qed.

(** [compressLogFile] touches the source and the destination only. *)
Lemma compressLogFile_other (env : SweepEnv) (src dst a : string) (disk : gmap string node) :
  src <> a -> dst <> a -> fst (compressLogFile env src dst disk) !! a = disk !! a.
Proof.
  intros Hs Hd. unfold compressLogFile.
  pose proof (os_Create_other env dst a disk Hd) as H1.
  destruct (os_Create env dst disk) as [disk1 ok1]. simpl in H1.
  pose proof (os_Create_other env dst a disk1 Hd) as H2.
  destruct (os_Create env dst disk1) as [disk2 ok2]. simpl in H2.
  repeat match goal with
         | |- context [if ?c then _ else _] => destruct c; simpl; try congruence
         | |- context [match ?x with _ => _ end] =>
             lazymatch x with
             | os_Remove _ _ _ => fail
             | _ => destruct x; simpl; try congruence
             end
         end.
  all: try match goal with
           | Hne : ?s <> ?b |- context [let (_, _) := os_Remove ?e ?s ?d in _] =>
               pose proof (os_Remove_other e s b d Hne) as H3;
               destruct (os_Remove e s d) as [disk4 ok4]; simpl in *;
               destruct ok4; simpl
           end.
  all: repeat first [ rewrite compress_cleanup_other by assumption
                    | rewrite os_Remove_other by assumption
                    | rewrite write_over_other by assumption ].
  all: try match goal with
           | H : _ = write_over _ _ _ !! _ |- _ => rewrite write_over_other in H by assumption
           end.
  all: congruence.
Qed.

Lemma removeAll_other (env : SweepEnv) (a : string) (remove : list logInfo)
  (disk : gmap string node) (err : option sweep_error) :
  Forall (fun f => Name (info f) <> a) remove ->
  fst (removeAll env remove disk err) !! a = disk !! a.
Proof.
  revert disk err. induction remove as [|f remove IH]; intros disk err Hall; simpl.
  - reflexivity.
  - apply Forall_cons in Hall. destruct Hall as [Hf Hall].
    pose proof (os_Remove_other env (Name (info f)) a disk Hf) as H.
    destruct (os_Remove env (Name (info f)) disk) as [disk' ok]. simpl in H.
    rewrite IH by exact Hall. exact H.
Qed.

Lemma compressAll_other (env : SweepEnv) (a : string) (compress : list logInfo)
  (disk : gmap string node) (err : option sweep_error) :
  Forall (fun f => Name (info f) <> a /\ Name (info f) +:+ compressSuffix <> a) compress ->
  fst (compressAll env compress disk err) !! a = disk !! a.
Proof.
  revert disk err. induction compress as [|f compress IH]; intros disk err Hall; simpl.
  - reflexivity.
  - apply Forall_cons in Hall. destruct Hall as [[Hf Hg] Hall].
    pose proof (compressLogFile_other env (Name (info f))
                  (Name (info f) +:+ compressSuffix) a disk Hf Hg) as H.
    destruct (compressLogFile env _ _ disk) as [disk' e]. simpl in H.
    rewrite IH by exact Hall. exact H.
Qed.

(** C10. The active log file is never a candidate of a sweep: its name is
    refused by [timeFromName] for every extension tried; every file that
    [oldLogFiles] returns starts with the prefix (the stem and "-"), ends
    with the extension or the extension and the compressed suffix, and
    carries a parsable stamp in between, which the active name never does;
    the files marked for removal or compression are among them; and after
    a sweep the entry of the active file is what it was before. *)
Theorem sweep_spares_active_file (env : SweepEnv) (l : MMapLogger) (w : World)
  (disk : gmap string node) :
  (forall x, timeFromName env (entry l w) (fst (prefixAndExt l w)) x = NoMatch) /\
  (forall files,
     oldLogFiles env l w disk = Some (inr files) ->
     Forall (fun f => candidate env (fst (prefixAndExt l w)) (snd (prefixAndExt l w)) f /\
                      Name (info f) <> entry l w) files /\
     (forall f, f ∈ fst (millSelect env l files) \/ f ∈ snd (millSelect env l files) ->
                f ∈ files)) /\
  (forall disk' err,
     millRunOnce env l w disk = Some (disk', err) ->
     disk' !! entry l w = disk !! entry l w).
Proof.
  split; [intros x; apply timeFromName_active|].
  split.
  - intros files H. apply oldLogFiles_ok in H. destruct H as [_ H].
    split; [|apply millSelect_subset].
    eapply Forall_impl; [exact H|]. intros f [Hc _]. simpl.
    split; [exact Hc|]. now apply candidate_not_active in Hc.
  - intros disk' err H. unfold millRunOnce in H.
    destruct (_ && _); [now injection H as <- <-|].
    destruct (oldLogFiles env l w disk) as [[e|files]|] eqn:Ho; [| |discriminate H].
    { now injection H as <- <-. }
    apply oldLogFiles_ok in Ho. destruct Ho as [_ Hc].
    pose proof (millSelect_subset env l files) as Hsub.
    destruct (millSelect env l files) as [remove compress]. simpl in Hsub.
    assert (Hfar : forall f, f ∈ files ->
              Name (info f) <> entry l w /\ Name (info f) +:+ compressSuffix <> entry l w).
    { intros f Hf. rewrite Forall_forall in Hc. destruct (Hc f Hf) as [Hcand _].
      now apply candidate_not_active in Hcand. }
    pose proof (removeAll_other env (entry l w) remove disk None) as Hr.
    destruct (removeAll env remove disk None) as [disk1 err1]. simpl in Hr.
    pose proof (compressAll_other env (entry l w) compress disk1 err1) as Hz.
    injection H as H. rewrite H in Hz. simpl in Hz.
    rewrite Hz, Hr; [reflexivity| |].
    + apply Forall_forall. intros f Hf. apply Hfar. auto.
    + apply Forall_forall. intros f Hf. apply Hfar. auto.
Qed.

(* ===================================================================== *)
(** * Compression of a backup *)
(* ===================================================================== *)

(** C8. For distinct source and destination: the source entry changes
    only when [compressLogFile] succeeds, and then the copy, the close of
    the gzip stream and the close of the destination have all succeeded and
    the destination holds the whole compressed stream; every error leaves
    the source as it was; an error raised once compression has started (in
    the copy, in one of the three closes or in the removal of the source)
    is returned as the compression error after the destination has been
    removed. The removal of the destination is itself an operation of the
    environment and is assumed not to fail. *)
Theorem compressLogFile_source_safe (env : SweepEnv) (src dst : string)
  (disk disk' : gmap string node) (err : option sweep_error) :
  src <> dst ->
  compressLogFile env src dst disk = (disk', err) ->
  (disk' !! src <> disk !! src ->
     err = None /\ disk' !! src = None /\
     sfails env src SCopy = false /\ sfails env dst SGzClose = false /\
     sfails env dst SCloseDst = false /\
     exists bytes old, disk !! src = Some (RegFile bytes) /\
       disk' !! dst = Some (RegFile (overwrite old (gzip env bytes)))) /\
  (err <> None -> disk' !! src = disk !! src) /\
  (err = Some ECompress -> sfails env dst SRemove = false -> disk' !! dst = None) /\
  (err = None -> disk' !! src = None) /\
  (forall bytes,
     sfails env src SOpen = false -> disk !! src = Some (RegFile bytes) ->
     sfails env src SStat = false -> sfails env dst SCreate = false ->
     disk !! dst <> Some SubDir -> sfails env dst SChown = false ->
     sfails env src SCopy || sfails env dst SGzClose || sfails env dst SCloseDst
       || sfails env src SCloseSrc || sfails env src SRemove = true ->
     err = Some ECompress).
Proof.
  intros Hne H.
  unfold compressLogFile, compress_cleanup, os_Create, os_Remove, write_over in H.
  repeat (case_match; simplify_eq; simpl in * ).
  all: simplify_map_eq.
  all: repeat split; intros; simplify_map_eq; try done.
  all: eauto.
Qed.

Lemma compressLogFile_source_safe_witness :
  let src := "mmap-2024-01-04T00-00-00.000.log" in
  let dst := src +:+ compressSuffix in
  let r := compressLogFile (failing_copy_env src) src dst demo_disk in
  snd r = Some ECompress /\ fst r !! src = demo_disk !! src /\ fst r !! dst = None.
Proof.
  intros src dst r.
  assert (Hne : src <> dst) by (apply String.eqb_neq; reflexivity).
  assert (Hr : compressLogFile (failing_copy_env src) src dst demo_disk = (fst r, snd r))
    by (subst r; apply surjective_pairing).
  destruct (compressLogFile_source_safe (failing_copy_env src) src dst demo_disk
              (fst r) (snd r) Hne Hr) as (_ & Hsrc & Hdst & _ & Hmid).
  assert (He : snd r = Some ECompress).
  { apply (Hmid [x34]); reflexivity || (vm_compute; congruence). }
  split; [exact He|]. split.
  - apply Hsrc. rewrite He. discriminate.
  - apply Hdst; [exact He | reflexivity].
Defined.

(* ===================================================================== *)
(** * Further properties of the writer *)
(* ===================================================================== *)

Lemma truncate_inode_keeps (n : Z) (f : inode) (i : Z) :
  i < n -> i < i_size f -> i_data (truncate_inode n f) i = i_data f i.
Proof.
  intros H1 H2. unfold truncate_inode. simpl.
  destruct (i <? Z.min (i_size f) n) eqn:E; [reflexivity | lia].
Qed.

Lemma store_bytes_other (p : list byte) (pos : Z) (f : inode) (i : Z) :
  i < pos \/ pos + Z.of_nat (length p) <= i ->
  i_data (store_bytes p pos f) i = i_data f i.
Proof.
  intros H. unfold store_bytes. simpl.
  destruct (pos <=? i) eqn:E1; destruct (i <? pos + Z.of_nat (length p)) eqn:E2;
    simpl; try reflexivity; lia.
Qed.

(** What [unMap] does to the file behind an active window. *)
Lemma unMap_truncates (l : MMapLogger) (w : World) (h ino : nat) (d : mslice)
  (r : region) (f : inode) :
  file l = Some h -> fds w !! h = Some ino -> inodes w !! ino = Some f ->
  mmapSpace l = Some d -> s_len d <> 0 -> maps w !! s_map d = Some r ->
  fails w OpMunmap = false -> fails w OpFtruncate = false ->
  0 <= writeAt l ->
  unMap (l, w) =
  Done None (l, set_inodes (alter (truncate_inode (writeAt l)) ino)
                  (set_maps (delete (s_map d)) w)).
Proof.
  intros Hf Hfd Hino Hsp Hlen Hmap Hmu Hft Hpos.
  unfold unMap, len_mmapSpace, sys_munmap, sys_ftruncate, bind, getL, ret, sys. simpl.
  rewrite Hsp. simpl. destruct (s_len d =? 0) eqn:E; [lia|]. simpl.
  rewrite Hmap, Hmu. simpl. rewrite Hf. simpl. rewrite Hfd, Hft.
  destruct (writeAt l <? 0) eqn:E2; [lia|]. reflexivity.
Qed.

(** [StopMmapLogger] on a logger whose window is mapped, whatever else
    the environment does. *)
Lemma StopMmapLogger_unmaps (l : MMapLogger) (w : World) (d : mslice) (r : region) :
  mmapSpace l = Some d -> s_len d <> 0 -> maps w !! s_map d = Some r ->
  fails w OpMunmap = false ->
  exists w', StopMmapLogger (l, w) = Done tt (l, w') /\ maps w' !! s_map d = None.
Proof.
  intros Hsp Hlen Hmap Hmu.
  unfold StopMmapLogger, unMap, len_mmapSpace, sys_munmap, sys_ftruncate, sys_close,
    bind, ret, sys, getL. simpl.
  rewrite Hsp. simpl. destruct (s_len d =? 0) eqn:E; [lia|]. simpl.
  rewrite Hmap, Hmu. simpl.
  repeat (case_match; simplify_eq; simpl in * ).
  all: eexists; split; [reflexivity|]; simpl; apply lookup_delete_eq.
Qed.

(** [unMap] leaves an inode as it is or cuts it at the cursor. *)
Lemma unMap_inode_cases (l l1 : MMapLogger) (w w1 : World) (e : option error)
  (i : nat) (f : inode) :
  unMap (l, w) = Done e (l1, w1) ->
  inodes w !! i = Some f ->
  inodes w1 !! i = Some f \/ inodes w1 !! i = Some (truncate_inode (writeAt l) f).
Proof.
  intros H Hi. unfold unMap, sys_munmap, sys_ftruncate in H.
  run H; done_eq H; try (left; exact Hi).
  rewrite lookup_alter. destruct (decide _); [|left; exact Hi].
  subst. rewrite Hi. right. reflexivity.
Qed.

(** A successful [unMap] of a mapped window has cut the open file at the
    cursor, unless the truncation itself is refused. *)
Lemma unMap_done_truncates (l l1 : MMapLogger) (w w1 : World) (h ino : nat)
  (d : mslice) (f : inode) :
  unMap (l, w) = Done None (l1, w1) ->
  mmapSpace l = Some d -> s_len d <> 0 ->
  file l = Some h -> fds w !! h = Some ino -> inodes w !! ino = Some f ->
  fails w OpFtruncate = false -> 0 <= writeAt l ->
  inodes w1 !! ino = Some (truncate_inode (writeAt l) f) /\ maps w1 !! s_map d = None.
Proof.
  intros H Hsp Hlen Hf Hfd Hi Hft Hpos.
  unfold unMap, len_mmapSpace, sys_munmap, sys_ftruncate in H.
  run H; done_eq H; simplify_eq; try lia.
  rewrite lookup_alter_eq, Hi, lookup_delete_eq. split; reflexivity.
Qed.

(** A rotation touches no inode that existed before it. *)
Lemma rotate_inodes_old (l l2 : MMapLogger) (w w2 : World) (i : nat) :
  rotate (l, w) = Done None (l2, w2) ->
  (i < next_id w)%nat -> inodes w2 !! i = inodes w !! i.
Proof.
  intros H Hi. unfold rotate in H. unfold_m H.
  destruct (close (l, w)) as [[e|] [l1 w1]|] eqn:Hc; simpl in H; try discriminate H.
  apply close_ok in Hc. destruct Hc as (-> & Hn & Hin & Hm & Hid & Henv).
  destruct (openNew (set_file None l, w1)) as [[e|] [l3 w3]|] eqn:Ho; simpl in H;
    try discriminate H.
  match type of H with
  | context [mill ?s] => destruct (mill_total s) as (ch & once & Hmill)
  end.
  rewrite Hmill in H. done_eq H.
  rewrite <- Hin. rewrite <- Hid in Hi. clear - Ho Hi.
  unfold openNew, chown in Ho.
  unfold sys_stat, sys_rename, sys_openfile, sys_fstat, sys_close in Ho.
  run Ho.
  all: done_eq Ho; simpl.
  all: try reflexivity.
  all: pose proof (backupName_fresh (filename (set_file None l) w1)
                     (stamp w1 (LocalTime l))) as Hfresh; unfold entry in *.
  all: simplify_map_eq.
  all: try reflexivity.
  all: repeat rewrite lookup_insert_ne by lia; reflexivity.
Qed.

(** [openExistingOrNew] on a log file that exists. *)
Lemma openExistingOrNew_existing (l : MMapLogger) (w : World) (ino : nat) (f : inode) :
  names w !! entry l w = Some ino -> inodes w !! ino = Some f ->
  fails w OpStat = false -> fails w OpOpenFile = false -> fails w OpFstat = false ->
  exists ch once,
    openExistingOrNew (l, w) =
    Done None
      (set_writeAt (i_size f) (set_size (i_size f)
         (set_file (Some (next_id w)) (set_mill ch once l))),
       bump_id (set_fds (insert (next_id w) ino) w)).
Proof.
  intros Hn Hi Hst Hop Hfs.
  unfold openExistingOrNew. unfold bind at 1.
  destruct (mill_total (l, w)) as (ch & once & Hm). rewrite Hm.
  unfold bind, getL, getW, modL, ret, sys. cbn [fst snd].
  assert (He : entry (set_mill ch once l) w = entry l w) by reflexivity.
  rewrite He. unfold sys_stat, sys_openfile, sys_fstat. rewrite Hst, Hn. simpl.
  rewrite Hop, Hn. simpl.
  rewrite Hfs, lookup_insert_eq, Hi. simpl.
  exists ch, once. reflexivity.
Qed.

(** [allocateSpace] on a logger that has no window yet and whose file is
    below the limit, in an environment that lets it through. *)
Lemma allocateSpace_first_window (l : MMapLogger) (w : World) (h ino : nat) :
  mmapSpace l = None -> needs_rotation l = false ->
  file l = Some h -> fds w !! h = Some ino ->
  fails w OpFtruncate = false -> fails w OpMmap = false ->
  0 <= writeAt l <= 4611686018427387904 ->
  allocateSpace (l, w) =
  Done None
    (set_size (writeAt l / pageSize * pageSize + window_size)
       (set_writeStartAt (writeAt l / pageSize * pageSize)
          (set_mmapSpace (Some {| s_map := next_id w; s_len := window_size |}) l)),
     bump_id
       (set_maps (insert (next_id w)
                    {| r_ino := ino; r_off := writeAt l / pageSize * pageSize;
                       r_len := window_size |})
          (set_inodes (alter (truncate_inode (writeAt l / pageSize * pageSize + window_size))
                         ino) w))).
Proof.
  intros Hsp Hrot Hfile Hfd Hft Hmm Hpos.
  assert (Hq : wrap64 (Z.quot (writeAt l) pageSize * pageSize)
               = writeAt l / pageSize * pageSize).
  { rewrite Z.quot_div_nonneg by (unfold pageSize; lia).
    apply wrap64_small. unfold in_int64, min_int64, max_int64, pageSize.
    pose proof (Z.div_mod (writeAt l) 4096). pose proof (Z.mod_pos_bound (writeAt l) 4096).
    change (4 * 1024) with 4096. lia. }
  assert (Hdm : writeAt l / pageSize * pageSize <= writeAt l
                < writeAt l / pageSize * pageSize + pageSize
                /\ 0 <= writeAt l / pageSize * pageSize).
  { unfold pageSize. change (4 * 1024) with 4096.
    pose proof (Z.div_mod (writeAt l) 4096). pose proof (Z.mod_pos_bound (writeAt l) 4096).
    lia. }
  assert (Hal : (writeAt l / pageSize * pageSize) mod pageSize = 0).
  { apply Z.mod_mul. unfold pageSize. lia. }
  unfold needs_rotation in Hrot. rewrite Hq in Hrot.
  unfold allocateSpace. unfold bind at 1.
  assert (Hu : unMap (l, w) = Done None (l, w)).
  { unfold unMap, len_mmapSpace, bind, getL, ret. simpl. rewrite Hsp. reflexivity. }
  rewrite Hu. unfold bind at 1, getL at 1. cbn [fst snd].
  rewrite Hq, Hrot.
  change (wrap64 (defaultMegaByteSize * megabyte)) with window_size in *.
  assert (Hsz : wrap64 (writeAt l / pageSize * pageSize + window_size)
                = writeAt l / pageSize * pageSize + window_size).
  { apply wrap64_small. unfold in_int64, min_int64, max_int64, window_size. lia. }
  unfold bind, getL, ret, sys, modL, sys_ftruncate, sys_mmap. cbn [fst snd].
  change (wrap64 (defaultMegaByteSize * megabyte)) with window_size in *.
  rewrite Hsz.
  rewrite Hfile, Hfd, Hft.
  destruct (_ <? 0) eqn:E1; [unfold window_size in E1; lia|]. cbn [fst snd].
  simpl fds. rewrite Hfd. simpl fails. rewrite Hmm.
  destruct (window_size <=? 0) eqn:E2; [unfold window_size in E2; lia|].
  destruct (writeAt l / pageSize * pageSize <? 0) eqn:E3; [lia|].
  rewrite Hal. simpl. reflexivity.
Qed.

(** [Write] once the first half has succeeded and the window has room:
    the state it ends in. *)
Lemma Write_commit_state (p : list byte) (l l2 : MMapLogger) (w w2 : World) (h ino : nat) :
  Z.of_nat (length p) <= max l ->
  prepared p (l, w) (l2, w2) ->
  window_ok (l2, w2) ->
  file l2 = Some h -> fds w2 !! h = Some ino ->
  Z.of_nat (length p) + (writeAt l2 - writeStartAt l2) <= window_size ->
  Write p (l, w) =
  Done (0, None)
    (set_size (size l2) (set_writeAt (writeAt l2 + Z.of_nat (length p)) l2),
     match p with
     | [] => w2
     | _ => set_inodes (alter (store_bytes p (writeAt l2)) ino) w2
     end).
Proof.
  intros Hmax (s1 & Hopen & Halloc) Hok Hfile0 Hfd0 Hfit.
  destruct s1 as [l1 w1]. simpl in *.
  destruct Hok as (h' & ino' & d & f & Hfile & Hfd & Hsp & Hlen & Hmap & Hino & Hsize &
                   Hs0 & Hsw & Hws & Hbig).
  rewrite Hfile0 in Hfile. injection Hfile as <-.
  rewrite Hfd0 in Hfd. injection Hfd as <-.
  unfold window_size in *.
  assert (Hc : wrap64 (writeAt l2 - writeStartAt l2) = writeAt l2 - writeStartAt l2).
  { apply wrap64_small. unfold in_int64, min_int64, max_int64. lia. }
  assert (Hlc : wrap64 (Z.of_nat (length p) + (writeAt l2 - writeStartAt l2))
                = Z.of_nat (length p) + (writeAt l2 - writeStartAt l2)).
  { apply wrap64_small. unfold in_int64, min_int64, max_int64. lia. }
  assert (Hwa : wrap64 (writeAt l2 + Z.of_nat (length p)) = writeAt l2 + Z.of_nat (length p)).
  { apply wrap64_small. unfold in_int64, min_int64, max_int64. lia. }
  assert (Hsz : wrap64 (size l2 + 0) = size l2).
  { rewrite Z.add_0_r. apply wrap64_small. unfold in_int64, min_int64, max_int64. lia. }
  unfold Write, bind, getL, getW, ret, modL. simpl.
  destruct (Z.of_nat (length p) >? max l) eqn:E; [lia|].
  assert (Hgo : (if Z.of_nat (length p) >=? wrap64 (size l1 - writeAt l1)
                 then allocateSpace else fun s : St => Done None s) (l1, w1)
                = Done None (l2, w2)).
  { destruct (Z.of_nat (length p) >=? wrap64 (size l1 - writeAt l1));
      [exact Halloc | now rewrite Halloc]. }
  assert (Hcopy : copy_to_window (writeAt l2 - writeStartAt l2) p (l2, w2) =
                  Done tt (l2, match p with
                                | [] => w2
                                | _ => set_inodes (alter (store_bytes p (writeAt l2)) ino) w2
                                end)).
  { unfold copy_to_window, bind, getL, getW, ret, sys, panic. simpl.
    unfold len_mmapSpace. rewrite Hsp, Hlen.
    destruct (writeAt l2 - writeStartAt l2 <? 0) eqn:E1; [lia|].
    destruct (10485760 <? writeAt l2 - writeStartAt l2) eqn:E2; [lia|]. simpl.
    destruct p; [reflexivity|]. simpl. rewrite Hmap. simpl.
    replace (writeStartAt l2 + (writeAt l2 - writeStartAt l2)) with (writeAt l2) by lia.
    reflexivity. }
  destruct (file l).
  - injection Hopen as -> ->. cbn [fst snd]. rewrite Hgo. cbn [fst snd].
    rewrite Hc, Hlc. unfold len_mmapSpace at 1. rewrite Hsp, Hlen.
    destruct (_ >? 10485760) eqn:E3; [lia|].
    rewrite Hcopy. cbn [fst snd]. now rewrite Hwa, Hsz.
  - rewrite Hopen. cbn [fst snd]. rewrite Hgo. cbn [fst snd].
    rewrite Hc, Hlc. unfold len_mmapSpace at 1. rewrite Hsp, Hlen.
    destruct (_ >? 10485760) eqn:E3; [lia|].
    rewrite Hcopy. cbn [fst snd]. now rewrite Hwa, Hsz.
Qed.

(** A write into a mapped window that has room for more than the buffer:
    the state it ends in. *)
Lemma Write_in_window (p : list byte) (l : MMapLogger) (w : World) (h ino : nat) :
  window_ok (l, w) ->
  file l = Some h -> fds w !! h = Some ino ->
  Z.of_nat (length p) <= max l ->
  Z.of_nat (length p) < size l - writeAt l ->
  Write p (l, w) =
  Done (0, None)
    (set_size (size l) (set_writeAt (writeAt l + Z.of_nat (length p)) l),
     match p with
     | [] => w
     | _ => set_inodes (alter (store_bytes p (writeAt l)) ino) w
     end).
Proof.
  intros Hok Hfile0 Hfd0 Hmax Hfit.
  destruct Hok as (h' & ino' & d & f & Hfile & Hfd & Hsp & Hlen & Hmap & Hino & Hsize &
                   Hs0 & Hsw & Hws & Hbig).
  rewrite Hfile0 in Hfile. injection Hfile as <-.
  rewrite Hfd0 in Hfd. injection Hfd as <-.
  unfold window_size in *.
  assert (Hroom : wrap64 (size l - writeAt l) = size l - writeAt l).
  { apply wrap64_small. unfold in_int64, min_int64, max_int64. lia. }
  assert (Hc : wrap64 (writeAt l - writeStartAt l) = writeAt l - writeStartAt l).
  { apply wrap64_small. unfold in_int64, min_int64, max_int64. lia. }
  assert (Hlc : wrap64 (Z.of_nat (length p) + (writeAt l - writeStartAt l))
                = Z.of_nat (length p) + (writeAt l - writeStartAt l)).
  { apply wrap64_small. unfold in_int64, min_int64, max_int64. lia. }
  assert (Hwa : wrap64 (writeAt l + Z.of_nat (length p)) = writeAt l + Z.of_nat (length p)).
  { apply wrap64_small. unfold in_int64, min_int64, max_int64. lia. }
  assert (Hsz : wrap64 (size l + 0) = size l).
  { rewrite Z.add_0_r. apply wrap64_small. unfold in_int64, min_int64, max_int64. lia. }
  assert (Hcopy : copy_to_window (writeAt l - writeStartAt l) p (l, w) =
                  Done tt (l, match p with
                              | [] => w
                              | _ => set_inodes (alter (store_bytes p (writeAt l)) ino) w
                              end)).
  { unfold copy_to_window, bind, getL, getW, ret, sys, panic. simpl.
    unfold len_mmapSpace. rewrite Hsp, Hlen.
    destruct (writeAt l - writeStartAt l <? 0) eqn:E1; [lia|].
    destruct (10485760 <? writeAt l - writeStartAt l) eqn:E2; [lia|]. simpl.
    destruct p; [reflexivity|]. simpl. rewrite Hmap. simpl.
    replace (writeStartAt l + (writeAt l - writeStartAt l)) with (writeAt l) by lia.
    reflexivity. }
  unfold Write, bind, getL, getW, ret, modL. simpl.
  destruct (Z.of_nat (length p) >? max l) eqn:E; [lia|].
  rewrite Hfile0. cbn [fst snd]. rewrite Hroom.
  destruct (Z.of_nat (length p) >=? size l - writeAt l) eqn:E0; [lia|].
  cbn [fst snd]. rewrite Hc, Hlc. unfold len_mmapSpace at 1. rewrite Hsp, Hlen.
  destruct (_ >? 10485760) eqn:E3; [lia|].
  rewrite Hcopy. cbn [fst snd]. now rewrite Hwa, Hsz.
Qed.

Lemma window_ok_after_write (p : list byte) (l : MMapLogger) (w : World) (ino : nat) :
  window_ok (l, w) ->
  (forall h, file l = Some h -> fds w !! h = Some ino) ->
  Z.of_nat (length p) <= size l - writeAt l ->
  window_ok (set_size (size l) (set_writeAt (writeAt l + Z.of_nat (length p)) l),
             match p with
             | [] => w
             | _ => set_inodes (alter (store_bytes p (writeAt l)) ino) w
             end).
Proof.
  intros (h & ino' & d & f & Hfile & Hfd & Hsp & Hlen & Hmap & Hino & Hsize &
          Hs0 & Hsw & Hws & Hbig) Hh Hfit.
  rewrite (Hh h Hfile) in Hfd. injection Hfd as <-.
  destruct p as [|b p'] eqn:Hp.
  - exists h, ino, d, f. simpl in *. repeat split; auto; lia.
  - rewrite <- Hp in *.
    exists h, ino, d, (store_bytes p (writeAt l) f).
    simpl. rewrite lookup_alter_eq, Hino. rewrite Hh by exact Hfile.
    repeat split; auto; lia.
Qed.

(** [openExistingOrNew] when the log file is missing. *)
Lemma openExistingOrNew_missing (l : MMapLogger) (w : World) :
  names w !! entry l w = None ->
  fails w OpStat = false -> fails w OpMkdirAll = false ->
  fails w OpOpenFile = false -> fails w OpFstat = false ->
  exists ch once,
    openExistingOrNew (l, w) =
    Done None
      (set_writeAt 0 (set_size 0
         (set_file (Some (S (next_id w))) (set_mill ch once l))),
       bump_id (set_fds (insert (S (next_id w)) (next_id w))
         (bump_id (set_inodes (insert (next_id w) empty_file)
            (set_names (insert (entry l w) (next_id w)) w))))).
Proof.
  intros Hn Hst Hmk Hop Hfs.
  unfold openExistingOrNew. unfold bind at 1.
  destruct (mill_total (l, w)) as (ch & once & Hm). rewrite Hm. cbn [fst snd].
  assert (He : entry (set_mill ch once l) w = entry l w) by reflexivity.
  remember (set_mill ch once l) as l1 eqn:El1.
  remember (entry l w) as nm eqn:Enm.
  unfold bind at 1, getL at 1. cbn [fst snd].
  unfold bind at 1, getW at 1. cbn [fst snd].
  rewrite He. unfold sys_stat at 1. rewrite Hst, Hn.
  unfold openNew.
  unfold bind at 1, getW at 1. cbn [fst snd]. rewrite Hmk.
  unfold bind at 1, getL at 1. cbn [fst snd]. rewrite He.
  unfold sys_stat at 1. rewrite Hst, Hn.
  unfold bind at 1, ret at 1.
  unfold bind at 1, sys at 1. cbn [fst snd].
  unfold sys_openfile. rewrite Hop, Hn.
  unfold bind, modL, getW, ret, sys_fstat. cbn [fst snd]. simpl.
  rewrite Hfs, lookup_insert_eq. simpl. rewrite lookup_insert_eq. simpl.
  exists ch, once. subst l1. reflexivity.
Qed.

(** The first [Write] of a logger, once its file has been opened with the
    cursor at the end: a window is mapped from the page of the end and
    the buffer stored there. *)
Lemma Write_first (p : list byte) (l l1 : MMapLogger) (w w1 : World)
  (h ino : nat) (f : inode) :
  file l = None ->
  openExistingOrNew (l, w) = Done None (l1, w1) ->
  mmapSpace l1 = None -> file l1 = Some h ->
  fds w1 !! h = Some ino -> inodes w1 !! ino = Some f ->
  writeAt l1 = i_size f -> size l1 = i_size f -> max l1 = max l ->
  fails w1 OpStat = false -> fails w1 OpFtruncate = false -> fails w1 OpMmap = false ->
  0 <= i_size f ->
  i_size f / pageSize * pageSize + window_size <= max l ->
  max l <= 4611686018427387904 ->
  Z.of_nat (length p) <= max l ->
  Z.of_nat (length p) + i_size f mod pageSize <= window_size ->
  exists s' f',
    Write p (l, w) = Done (0, None) s' /\
    writeAt (fst s') = i_size f + Z.of_nat (length p) /\
    names (snd s') = names w1 /\
    inodes (snd s') !! ino = Some f' /\
    (forall i, 0 <= i < i_size f -> i_data f' i = i_data f i) /\
    (forall i, (i < length p)%nat -> i_data f' (i_size f + Z.of_nat i) = nth i p x00) /\
    healthy s'.
Proof.
  intros Hfile Hopen Hsp Hfile1 Hfd1 Hi Hwa Hsz1 Hmax1 Hst Hft Hmm Hsize Hmax Hmaxb Hlen Hfit.
  set (sz0 := i_size f) in *.
  assert (Hdm : sz0 / pageSize * pageSize <= sz0
                /\ sz0 mod pageSize = sz0 - sz0 / pageSize * pageSize
                /\ 0 <= sz0 / pageSize * pageSize /\ 0 <= sz0 mod pageSize < pageSize).
  { unfold pageSize. change (4 * 1024) with 4096.
    pose proof (Z.div_mod sz0 4096). pose proof (Z.mod_pos_bound sz0 4096). lia. }
  assert (Hws : window_size = 10485760) by reflexivity.
  assert (Hrot : needs_rotation l1 = false).
  { unfold needs_rotation. rewrite Hwa, Hmax1.
    rewrite Z.quot_div_nonneg by (unfold pageSize; lia).
    change (wrap64 (defaultMegaByteSize * megabyte)) with window_size.
    rewrite (wrap64_small (sz0 / pageSize * pageSize))
      by (unfold in_int64, min_int64, max_int64; lia).
    rewrite wrap64_small by (unfold in_int64, min_int64, max_int64; lia).
    lia. }
  assert (Halloc := allocateSpace_first_window l1 w1 h ino Hsp Hrot Hfile1 Hfd1 Hft Hmm).
  rewrite Hwa in Halloc. specialize (Halloc ltac:(lia)).
  set (start := sz0 / pageSize * pageSize) in *.
  match type of Halloc with _ = Done None (?a, ?b) => set (l2 := a) in *; set (w2 := b) in * end.
  assert (Hprep : prepared p (l, w) (l2, w2)).
  { exists (l1, w1). cbn [fst snd]. rewrite Hfile. split; [exact Hopen|].
    rewrite Hsz1, Hwa. replace (sz0 - sz0) with 0 by lia.
    change (wrap64 0) with 0.
    destruct (Z.of_nat (length p) >=? 0) eqn:E; [exact Halloc | lia]. }
  assert (Hfile2 : file l2 = Some h) by exact Hfile1.
  assert (Hfd2 : fds w2 !! h = Some ino) by exact Hfd1.
  assert (Hino2 : inodes w2 !! ino = Some (truncate_inode (start + window_size) f)).
  { subst w2. cbn [inodes bump_id set_maps set_inodes]. rewrite lookup_alter_eq, Hi.
    reflexivity. }
  assert (Hwa2 : writeAt l2 = sz0) by exact Hwa.
  assert (Hok : window_ok (l2, w2)).
  { exists h, ino, {| s_map := next_id w1; s_len := window_size |},
      (truncate_inode (start + window_size) f).
    split; [exact Hfile2|]. split; [exact Hfd2|]. split; [reflexivity|].
    split; [reflexivity|]. split; [apply lookup_insert_eq|]. split; [exact Hino2|].
    split; [reflexivity|].
    change (writeStartAt l2) with start. rewrite Hwa2. change (size l2) with (start + window_size).
    lia. }
  pose proof (Write_commit_state p l l2 w w2 h ino Hlen Hprep Hok Hfile2 Hfd2) as Hrun.
  rewrite Hwa2 in Hrun. change (writeStartAt l2) with start in Hrun.
  specialize (Hrun ltac:(lia)).
  assert (Hok' := window_ok_after_write p l2 w2 ino Hok).
  specialize (Hok' ltac:(intros h' Hh'; rewrite Hfile2 in Hh'; now injection Hh' as <-)).
  change (size l2) with (start + window_size) in Hok'. rewrite Hwa2 in Hok'.
  specialize (Hok' ltac:(lia)).
  change (size l2) with (start + window_size) in Hrun.
  assert (Hhealthy : forall w', fails w' = fails w1 ->
            window_ok (set_size (start + window_size)
                         (set_writeAt (sz0 + Z.of_nat (length p)) l2), w') ->
            healthy (set_size (start + window_size)
                       (set_writeAt (sz0 + Z.of_nat (length p)) l2), w')).
  { intros w' Hf' Hw'. split; [exact Hw'|]. cbn [fst snd]. rewrite Hf'.
    split; [exact Hst|].
    change (max (set_size (start + window_size)
                   (set_writeAt (sz0 + Z.of_nat (length p)) l2))) with (max l1).
    rewrite Hmax1. cbn [size set_size]. lia. }
  destruct p as [|b p'].
  - eexists. exists (truncate_inode (start + window_size) f).
    split; [exact Hrun|]. cbn [fst snd].
    split; [reflexivity|]. split; [reflexivity|]. split; [exact Hino2|]. split; [|split].
    + intros i Hi0. simpl. repeat case_match; try reflexivity; lia.
    + intros i Hi0. simpl in Hi0. lia.
    + apply Hhealthy; [reflexivity | exact Hok'].
  - eexists. exists (store_bytes (b :: p') sz0 (truncate_inode (start + window_size) f)).
    split; [exact Hrun|]. cbn [fst snd].
    split; [reflexivity|]. split; [reflexivity|]. split.
    { change (alter (store_bytes (b :: p') sz0) ino (inodes w2) !! ino
              = Some (store_bytes (b :: p') sz0 (truncate_inode (start + window_size) f))).
      rewrite lookup_alter_eq, Hino2. reflexivity. }
    split; [|split].
    + intros i Hi0. rewrite store_bytes_other by lia.
      simpl. repeat case_match; try reflexivity; lia.
    + intros i Hi0. now apply store_bytes_read.
    + apply Hhealthy; [reflexivity | exact Hok'].
Qed.

(** A successful allocation from a state whose window is mapped. *)
Lemma allocateSpace_from_window (l l2 : MMapLogger) (w w2 : World) :
  window_ok (l, w) ->
  fails w OpStat = false ->
  writeAt l <= 4611686018427387904 ->
  allocateSpace (l, w) = Done None (l2, w2) ->
  window_ok (l2, w2) /\
  0 <= writeAt l2 - writeStartAt l2 < pageSize /\
  fails w2 = fails w /\ max l2 = max l /\
  size l2 <= Z.max (max l) window_size.
Proof.
  intros Hok Hstat Hbig H.
  destruct Hok as (h0 & ino0 & d0 & f0 & Hfile0 & Hfd0 & Hsp0 & Hlen0 & Hmap0 & Hino0 &
                   Hsize0 & Hs0 & Hsw0 & Hws0 & Hbig0).
  assert (Hrange : 0 <= writeAt l) by lia.
  apply allocateSpace_ok in H. destruct H as (w1 & Hu & H).
  pose proof (unMap_ok _ _ _ _ _ Hu) as (_ & Hn1 & Hf1 & Hid1 & Henv1).
  assert (Hq : wrap64 (Z.quot (writeAt l) pageSize * pageSize)
               = writeAt l / pageSize * pageSize).
  { rewrite Z.quot_div_nonneg by (unfold pageSize; lia).
    apply wrap64_small. unfold in_int64, min_int64, max_int64, pageSize.
    pose proof (Z.div_mod (writeAt l) 4096). pose proof (Z.mod_pos_bound (writeAt l) 4096).
    change (4 * 1024) with 4096. lia. }
  assert (Hdm : writeAt l / pageSize * pageSize <= writeAt l
                < writeAt l / pageSize * pageSize + pageSize
                /\ 0 <= writeAt l / pageSize * pageSize).
  { unfold pageSize. change (4 * 1024) with 4096.
    pose proof (Z.div_mod (writeAt l) 4096). pose proof (Z.mod_pos_bound (writeAt l) 4096).
    lia. }
  assert (Hsz : wrap64 (writeAt l / pageSize * pageSize + 10485760)
                = writeAt l / pageSize * pageSize + 10485760).
  { apply wrap64_small. unfold in_int64, min_int64, max_int64. lia. }
  destruct (needs_rotation l) eqn:Hrot.
  - destruct H as (l2r & w2r & Hr & Hw).
    assert (Hstat1 : fails w1 OpStat = false).
    { destruct Henv1 as (Hf & _). rewrite Hf. exact Hstat. }
    apply (rotate_ok _ _ _ _ Hstat1) in Hr.
    destruct Hr as (h & ino & ch & once & -> & Hfd & _ & Hino & _ & _ & Henv2 & _).
    destruct Hw as (h' & ino' & Hfile & Hfd' & -> & ->).
    simpl in Hfile. injection Hfile as <-. rewrite Hfd in Hfd'. injection Hfd' as <-.
    split; [|split; [simpl; unfold pageSize; lia|]].
    + exists h, ino, {| s_map := next_id w2r; s_len := 10485760 |},
        (truncate_inode 10485760 empty_file).
      simpl. rewrite lookup_insert_eq, lookup_alter_eq, Hino.
      repeat split; try reflexivity; try assumption; unfold window_size; try lia.
      discriminate.
    + simpl. split; [|split; [reflexivity|]].
      * destruct Henv1 as (E1 & _), Henv2 as (E2 & _). congruence.
      * change (wrap64 (0 + wrap64 (defaultMegaByteSize * megabyte))) with 10485760.
        unfold window_size. lia.
  - destruct H as (h & ino & Hfile & Hfd & -> & ->).
    rewrite Hfile0 in Hfile. injection Hfile as <-.
    rewrite Hf1, Hfd0 in Hfd. injection Hfd as <-.
    unfold needs_rotation in Hrot. rewrite Hq in *. rewrite window_size_value in *.
    rewrite Hsz in *.
    assert (Hino : is_Some (inodes w1 !! ino0)).
    { eapply unMap_inodes; [exact Hu|]. eauto. }
    destruct Hino as [f Hino].
    split; [|split; [simpl; unfold pageSize in *; lia|]].
    + exists h0, ino0, {| s_map := next_id w1; s_len := 10485760 |},
        (truncate_inode (writeAt l / pageSize * pageSize + 10485760) f).
      simpl. rewrite lookup_insert_eq, lookup_alter_eq, Hino, Hf1.
      unfold window_size, pageSize in *.
      repeat split; try reflexivity; try assumption; lia.
    + simpl. split; [|split; [reflexivity|]].
      * destruct Henv1 as (E1 & _). exact E1.
      * lia.
Qed.

Lemma window_ok_windowed : window_ok (windowed_logger, near_full_world).
Proof.
  exists 1%nat, 0%nat, {| s_map := 2; s_len := 10485760 |},
    {| i_size := 10485760; i_data := fun _ => x61 |}.
  repeat split; try reflexivity; simpl; lia.
Qed.

(** X1. The first write of a new logger whose log file already exists
    appends to it: when the file fits under the limit with one more window
    and nothing in the environment fails, [Write] opens the file, maps a
    window from the page of its end and returns without error; the cursor
    is then the old length plus the length of the buffer, every byte the
    file held is unchanged, the buffer follows them, no directory entry is
    created or renamed, and the writer is left in working order. *)
Theorem Write_appends_to_existing_file (p : list byte) (l : MMapLogger) (w : World)
  (ino : nat) (f : inode) :
  file l = None -> mmapSpace l = None ->
  names w !! entry l w = Some ino -> inodes w !! ino = Some f ->
  fails w OpStat = false -> fails w OpOpenFile = false -> fails w OpFstat = false ->
  fails w OpFtruncate = false -> fails w OpMmap = false ->
  0 <= i_size f ->
  i_size f / pageSize * pageSize + window_size <= max l ->
  max l <= 4611686018427387904 ->
  Z.of_nat (length p) <= max l ->
  Z.of_nat (length p) + i_size f mod pageSize <= window_size ->
  exists s' f',
    Write p (l, w) = Done (0, None) s' /\
    writeAt (fst s') = i_size f + Z.of_nat (length p) /\
    names (snd s') = names w /\
    inodes (snd s') !! ino = Some f' /\
    (forall i, 0 <= i < i_size f -> i_data f' i = i_data f i) /\
    (forall i, (i < length p)%nat -> i_data f' (i_size f + Z.of_nat i) = nth i p x00) /\
    healthy s'.
Proof.
  intros Hfile Hsp Hn Hi Hst Hop Hfs Hft Hmm Hsize Hmax Hmaxb Hlen Hfit.
  destruct (openExistingOrNew_existing l w ino f Hn Hi Hst Hop Hfs) as (ch & once & Hopen).
  exact (Write_first p l _ w _ (next_id w) ino f Hfile Hopen Hsp eq_refl
           (lookup_insert_eq _ _ _) Hi eq_refl eq_refl eq_refl Hst Hft Hmm
           Hsize Hmax Hmaxb Hlen Hfit).
Qed.

Lemma Write_appends_to_existing_file_witness :
  exists s' f',
    Write hello (logger0, small_world) = Done (0, None) s' /\
    writeAt (fst s') = 10 /\
    inodes (snd s') !! 0%nat = Some f' /\
    (forall i, 0 <= i < 5 -> i_data f' i = x61) /\
    i_data f' 5 = x68 /\ healthy s'.
Proof.
  assert (Hsize : 0 <= i_size five_bytes) by (simpl; lia).
  assert (Hlim : i_size five_bytes / pageSize * pageSize + window_size <= max logger0)
    by (vm_compute; discriminate).
  assert (Hmaxb : max logger0 <= 4611686018427387904) by (vm_compute; discriminate).
  assert (Hmax : Z.of_nat (length hello) <= max logger0) by (vm_compute; discriminate).
  assert (Hfit : Z.of_nat (length hello) + i_size five_bytes mod pageSize <= window_size)
    by (vm_compute; discriminate).
  destruct (Write_appends_to_existing_file hello logger0 small_world 0%nat five_bytes
              eq_refl eq_refl eq_refl eq_refl eq_refl eq_refl eq_refl eq_refl eq_refl
              Hsize Hlim Hmaxb Hmax Hfit)
    as (s' & f' & Hrun & Hcur & _ & Hino & Hold & Hnew & Hh).
  exists s', f'. split; [exact Hrun|]. split; [exact Hcur|]. split; [exact Hino|].
  split; [exact Hold|]. split; [exact (Hnew 0%nat ltac:(simpl; lia)) | exact Hh].
Defined.

(** X2. Two writes that together leave room in the mapped window are
    stored back to back: both return without error, the cursor advances by
    the two lengths, the file holds the first buffer followed by the second
    from the old cursor on, its length is unchanged, and every byte outside
    that range is as it was. *)
Theorem Write_twice_appends (p q : list byte) (l : MMapLogger) (w : World)
  (h ino : nat) (f : inode) :
  window_ok (l, w) ->
  file l = Some h -> fds w !! h = Some ino -> inodes w !! ino = Some f ->
  Z.of_nat (length p) <= max l -> Z.of_nat (length q) <= max l ->
  Z.of_nat (length p) + Z.of_nat (length q) < size l - writeAt l ->
  exists s1 s2 f2,
    Write p (l, w) = Done (0, None) s1 /\
    Write q s1 = Done (0, None) s2 /\
    writeAt (fst s2) = writeAt l + Z.of_nat (length (p ++ q)) /\
    inodes (snd s2) !! ino = Some f2 /\
    i_size f2 = i_size f /\
    (forall i, (i < length (p ++ q))%nat ->
       i_data f2 (writeAt l + Z.of_nat i) = nth i (p ++ q) x00) /\
    (forall j, j < writeAt l \/ writeAt l + Z.of_nat (length (p ++ q)) <= j ->
       i_data f2 j = i_data f j).
Proof.
  intros Hok Hfile Hfd Hino Hp Hq Hfit.
  pose proof (Write_in_window p l w h ino Hok Hfile Hfd Hp ltac:(lia)) as H1.
  pose proof (window_ok_after_write p l w ino Hok) as Hok1.
  set (l1 := set_size (size l) (set_writeAt (writeAt l + Z.of_nat (length p)) l)) in *.
  set (w1 := match p with
             | [] => w
             | _ => set_inodes (alter (store_bytes p (writeAt l)) ino) w
             end) in *.
  assert (Hfd1 : fds w1 !! h = Some ino) by (subst w1; destruct p; exact Hfd).
  assert (Hino1 : exists f1, inodes w1 !! ino = Some f1 /\ i_size f1 = i_size f /\
            (forall i, (i < length p)%nat ->
               i_data f1 (writeAt l + Z.of_nat i) = nth i p x00) /\
            (forall j, j < writeAt l \/ writeAt l + Z.of_nat (length p) <= j ->
               i_data f1 j = i_data f j)).
  { subst w1. destruct p as [|b p'] eqn:Ep.
    - exists f. simpl. repeat split; auto. intros i Hi. lia.
    - rewrite <- Ep in *. exists (store_bytes p (writeAt l) f). simpl.
      rewrite lookup_alter_eq, Hino. repeat split.
      + intros i Hi. now apply store_bytes_read.
      + intros j Hj. now apply store_bytes_other. }
  destruct Hino1 as (f1 & Hino1 & Hsz1 & Hin1 & Hout1).
  assert (Hok1' : window_ok (l1, w1)).
  { apply Hok1; [|lia]. intros h0 Hh0. rewrite Hfile in Hh0. now injection Hh0 as <-. }
  pose proof (Write_in_window q l1 w1 h ino Hok1' Hfile Hfd1 Hq) as H2.
  assert (Hc1 : writeAt l1 = writeAt l + Z.of_nat (length p)) by reflexivity.
  assert (Hs1 : size l1 = size l) by reflexivity.
  rewrite Hc1, Hs1 in H2. specialize (H2 ltac:(lia)).
  eexists _, _. 
  assert (Hino2 : exists f2,
            inodes (match q with
                    | [] => w1
                    | _ => set_inodes (alter (store_bytes q (writeAt l + Z.of_nat (length p))) ino) w1
                    end) !! ino = Some f2 /\ i_size f2 = i_size f1 /\
            (forall i, (i < length q)%nat ->
               i_data f2 (writeAt l + Z.of_nat (length p) + Z.of_nat i) = nth i q x00) /\
            (forall j, j < writeAt l + Z.of_nat (length p)
                       \/ writeAt l + Z.of_nat (length p) + Z.of_nat (length q) <= j ->
               i_data f2 j = i_data f1 j)).
  { destruct q as [|b q'] eqn:Eq.
    - exists f1. simpl. repeat split; auto. intros i Hi. lia.
    - rewrite <- Eq in *.
      exists (store_bytes q (writeAt l + Z.of_nat (length p)) f1). simpl.
      rewrite lookup_alter_eq, Hino1. repeat split.
      + intros i Hi. now apply store_bytes_read.
      + intros j Hj. now apply store_bytes_other. }
  destruct Hino2 as (f2 & Hino2 & Hsz2 & Hin2 & Hout2).
  exists f2. split; [exact H1|]. split; [exact H2|].
  cbn [fst snd]. rewrite length_app, Nat2Z.inj_add.
  split; [simpl; lia|]. split; [exact Hino2|]. split; [congruence|]. split.
  - intros i Hi. destruct (Nat.lt_ge_cases i (length p)) as [Hlt|Hge].
    + rewrite app_nth1 by exact Hlt. rewrite Hout2 by lia. now apply Hin1.
    + rewrite app_nth2 by exact Hge.
      replace (writeAt l + Z.of_nat i)
        with (writeAt l + Z.of_nat (length p) + Z.of_nat (i - length p)) by lia.
      apply Hin2. lia.
  - intros j Hj. rewrite Hout2 by lia. apply Hout1. lia.
Qed.

Lemma Write_twice_appends_witness :
  exists s1 s2 f2,
    Write hello (windowed_logger, near_full_world) = Done (0, None) s1 /\
    Write hello s1 = Done (0, None) s2 /\
    writeAt (fst s2) = 15 /\
    inodes (snd s2) !! 0%nat = Some f2 /\
    i_data f2 5 = x68 /\ i_data f2 10 = x68 /\ i_data f2 4 = x61.
Proof.
  assert (Hmax : Z.of_nat (length hello) <= max windowed_logger)
    by (vm_compute; discriminate).
  assert (Hroom : Z.of_nat (length hello) + Z.of_nat (length hello)
                  < size windowed_logger - writeAt windowed_logger) by reflexivity.
  destruct (Write_twice_appends hello hello windowed_logger near_full_world 1%nat 0%nat
              {| i_size := 10485760; i_data := fun _ => x61 |}
              window_ok_windowed eq_refl eq_refl eq_refl Hmax Hmax Hroom)
    as (s1 & s2 & f2 & H1 & H2 & Hcur & Hino & _ & Hin & Hout).
  exists s1, s2, f2.
  split; [exact H1|]. split; [exact H2|]. split; [exact Hcur|]. split; [exact Hino|].
  split; [exact (Hin 0%nat ltac:(simpl; lia))|].
  split; [exact (Hin 5%nat ltac:(simpl; lia))|].
  apply (Hout 4). simpl. lia.
Defined.

(** X3. After [StopMmapLogger] the writer cannot be used again: on a
    logger whose window was mapped, no later [Write] of a non-empty buffer
    returns without error. It returns an error (the buffer is too large, or
    the allocation fails on unmapping the window a second time) or it
    faults on the copy into the unmapped window. *)
Theorem Write_after_stop_never_succeeds (p : list byte) (l : MMapLogger) (w : World) :
  window_ok (l, w) ->
  fails w OpMunmap = false ->
  p <> [] ->
  forall n s', Write p (final (StopMmapLogger (l, w))) <> Done (n, None) s'.
Proof.
  intros Hok Hmu Hp n s' H.
  destruct Hok as (h & ino & d & f & Hfile & Hfd & Hsp & Hlen & Hmap & Hino & Hsize &
                   Hs0 & Hsw & Hws & Hbig).
  unfold window_size in *.
  destruct (StopMmapLogger_unmaps l w d _ Hsp ltac:(lia) Hmap Hmu) as (w' & Hstop & Hgone).
  rewrite Hstop in H. simpl in H.
  assert (Hroom : wrap64 (size l - writeAt l) = size l - writeAt l).
  { apply wrap64_small. unfold in_int64, min_int64, max_int64. lia. }
  assert (Hc : wrap64 (writeAt l - writeStartAt l) = writeAt l - writeStartAt l).
  { apply wrap64_small. unfold in_int64, min_int64, max_int64. lia. }
  unfold Write in H. unfold bind at 1, getL at 1 in H. cbn [fst snd] in H.
  destruct (Z.of_nat (length p) >? max l); [discriminate H|].
  rewrite Hfile in H. unfold bind at 1, ret at 1 in H.
  unfold bind at 1, getL at 1 in H. cbn [fst snd] in H.
  rewrite Hroom in H.
  destruct (Z.of_nat (length p) >=? size l - writeAt l) eqn:E.
  - (* the room is used up: the allocation starts by unmapping again *)
    assert (Ha : allocateSpace (l, w') = Done (Some ErrInval) (l, w')).
    { unfold allocateSpace, unMap, len_mmapSpace, sys_munmap, bind, ret, sys, getL. simpl.
      rewrite Hsp. simpl. destruct (s_len d =? 0) eqn:E0; [lia|]. simpl.
      rewrite Hgone. reflexivity. }
    unfold bind at 1 in H. rewrite Ha in H. discriminate H.
  - unfold bind at 1, ret at 1 in H. unfold bind at 1, getL at 1 in H. cbn [fst snd] in H.
    rewrite Hc in H.
    assert (Hlc : wrap64 (Z.of_nat (length p) + (writeAt l - writeStartAt l))
                  = Z.of_nat (length p) + (writeAt l - writeStartAt l)).
    { apply wrap64_small. unfold in_int64, min_int64, max_int64. lia. }
    rewrite Hlc in H. unfold len_mmapSpace at 1 in H. rewrite Hsp, Hlen in H.
    destruct (_ >? 10485760) eqn:E3; [lia|].
    assert (Hcopy : copy_to_window (writeAt l - writeStartAt l) p (l, w')
                    = Panic SegFault (l, w')).
    { unfold copy_to_window, bind, getL, getW, ret, sys, panic. simpl.
      unfold len_mmapSpace. rewrite Hsp, Hlen.
      destruct (writeAt l - writeStartAt l <? 0) eqn:E1; [lia|].
      destruct (10485760 <? writeAt l - writeStartAt l) eqn:E2; [lia|]. simpl.
      destruct p; [congruence|]. simpl. rewrite Hgone. reflexivity. }
    unfold bind at 1 in H. rewrite Hcopy in H. discriminate H.
Qed.

Lemma Write_after_stop_never_succeeds_witness :
  window_ok (windowed_logger, near_full_world) /\
  forall n s',
    Write hello (final (StopMmapLogger (windowed_logger, near_full_world)))
      <> Done (n, None) s'.
Proof.
  split; [exact window_ok_windowed|].
  apply Write_after_stop_never_succeeds.
  - exact window_ok_windowed.
  - reflexivity.
  - discriminate.
Defined.

(** X4. [StopMmapLogger] on a logger whose window is mapped, when neither
    the unmapping nor the truncation fails: the mapping and the file object
    are released, the file is cut at the write cursor, every byte below the
    cursor is kept, and no directory entry changes. *)
Theorem StopMmapLogger_leaves_written_bytes (l : MMapLogger) (w : World)
  (h ino : nat) (d : mslice) (r : region) (f : inode) :
  file l = Some h -> fds w !! h = Some ino -> inodes w !! ino = Some f ->
  mmapSpace l = Some d -> s_len d <> 0 -> maps w !! s_map d = Some r ->
  fails w OpMunmap = false -> fails w OpFtruncate = false ->
  0 <= writeAt l <= i_size f ->
  exists w' f',
    StopMmapLogger (l, w) = Done tt (l, w') /\
    inodes w' !! ino = Some f' /\
    i_size f' = writeAt l /\
    (forall i, 0 <= i < writeAt l -> i_data f' i = i_data f i) /\
    maps w' !! s_map d = None /\ fds w' !! h = None /\
    names w' = names w.
Proof.
  intros Hf Hfd Hino Hsp Hlen Hmap Hmu Hft Hpos.
  unfold StopMmapLogger. unfold bind at 1.
  rewrite (unMap_truncates l w h ino d r f) by (assumption || lia).
  unfold bind, getL, sys, ret, sys_close. simpl. rewrite Hf. simpl. rewrite Hfd.
  eexists _, (truncate_inode (writeAt l) f). split; [reflexivity|]. simpl.
  rewrite lookup_alter_eq, Hino, !lookup_delete_eq. simpl.
  repeat split; try reflexivity.
  intros i Hi. apply truncate_inode_keeps; lia.
Qed.

Lemma StopMmapLogger_leaves_written_bytes_witness :
  exists w' f',
    StopMmapLogger (windowed_logger, near_full_world) = Done tt (windowed_logger, w') /\
    inodes w' !! 0%nat = Some f' /\ i_size f' = 5 /\
    (forall i, 0 <= i < 5 -> i_data f' i = x61).
Proof.
  assert (Hlen : s_len {| s_map := 2; s_len := 10485760 |} <> 0) by discriminate.
  assert (Hcur : 0 <= writeAt windowed_logger
                 <= i_size {| i_size := 10485760; i_data := fun _ => x61 |})
    by (simpl; lia).
  destruct (StopMmapLogger_leaves_written_bytes windowed_logger near_full_world 1%nat 0%nat
              {| s_map := 2; s_len := 10485760 |}
              {| r_ino := 0; r_off := 0; r_len := 10485760 |}
              {| i_size := 10485760; i_data := fun _ => x61 |}
              eq_refl eq_refl eq_refl eq_refl Hlen eq_refl eq_refl eq_refl Hcur)
    as (w' & f' & Hrun & Hino & Hsz & Hkeep & _).
  exists w', f'.
  split; [exact Hrun|]. split; [exact Hino|]. split; [exact Hsz | exact Hkeep].
Defined.

(** X5. [Close] releases the file object and nothing else: it always
    returns, the logger keeps its window, cursor and size with the file
    field nil, no directory entry, inode or mapping changes (the file is
    neither unmapped nor truncated), and a second [Close] returns nil and
    changes nothing. *)
Theorem Close_only_releases_handle (l : MMapLogger) (w : World) :
  exists e w',
    Close (l, w) = Done e (set_file None l, w') /\
    names w' = names w /\ inodes w' = inodes w /\ maps w' = maps w /\
    (forall h, file l = Some h -> fds w' !! h = None) /\
    Close (set_file None l, w') = Done None (set_file None l, w').
Proof.
  unfold Close, close, sys_close, bind, ret, sys, getL, modL. simpl.
  destruct (file l) as [h|] eqn:Hf; simpl.
  - destruct (fds w !! h) eqn:Hfd; simpl.
    + eexists _, _. split; [reflexivity|]. simpl. repeat split.
      intros h' [= <-]. apply lookup_delete_eq.
    + eexists _, _. split; [reflexivity|]. repeat split.
      intros h' [= <-]. exact Hfd.
  - exists None, w. split.
    + destruct l; simpl in *; subst; reflexivity.
    + repeat split. intros h [=].
Qed.

(** X6. A successful [Rotate] archives the log file as it is: the inode
    the entry named is found under the backup name with exactly the size
    and bytes it had (nothing is truncated), every mapping stays active and
    the logger keeps its window, while the cursor and the size field are 0
    and the entry names a new, empty file. The statement assumes that
    [os.Stat] does not fail for a reason other than absence. *)
Theorem Rotate_archives_file_as_is (l l2 : MMapLogger) (w w2 : World) (ino : nat) :
  fails w OpStat = false ->
  names w !! entry l w = Some ino -> (ino < next_id w)%nat ->
  Rotate (l, w) = Done None (l2, w2) ->
  names w2 !! backupName (filename l w) (stamp w (LocalTime l)) = Some ino /\
  inodes w2 !! ino = inodes w !! ino /\
  maps w2 = maps w /\
  mmapSpace l2 = mmapSpace l /\ writeStartAt l2 = writeStartAt l /\
  writeAt l2 = 0 /\ size l2 = 0 /\
  exists new, names w2 !! entry l w = Some new /\ new <> ino /\
              inodes w2 !! new = Some empty_file.
Proof.
  intros Hst Hn Hlt H. unfold Rotate in H.
  pose proof (rotate_inodes_old _ _ _ _ ino H Hlt) as Hold.
  apply (rotate_ok _ _ _ _ Hst) in H.
  destruct H as (h & new & ch & once & -> & Hfd & Hname & Hino & Hle & Hmaps & Henv & Hbak).
  simpl. repeat split; auto.
  exists new. repeat split; auto. lia.
Qed.

Lemma Rotate_archives_file_as_is_witness :
  exists l2 w2,
    Rotate (windowed_logger, near_full_world) = Done None (l2, w2) /\
    names w2 !! "mmap-2024-01-02T03-04-05.678.log" = Some 0%nat /\
    inodes w2 !! 0%nat = inodes near_full_world !! 0%nat /\
    maps w2 = maps near_full_world /\ writeAt l2 = 0.
Proof.
  assert (E : exists l2 w2, Rotate (windowed_logger, near_full_world) = Done None (l2, w2)).
  { eexists _, _. vm_compute. reflexivity. }
  destruct E as (l2 & w2 & E). exists l2, w2. split; [exact E|].
  assert (Hn : names near_full_world !! entry windowed_logger near_full_world
               = Some 0%nat) by (vm_compute; reflexivity).
  assert (Hlt : (0 < next_id near_full_world)%nat) by (simpl; lia).
  destruct (Rotate_archives_file_as_is windowed_logger l2 near_full_world w2 0%nat
              eq_refl Hn Hlt E)
    as (Hbak & Hino & Hmaps & _ & _ & Hcur & _).
  split; [exact Hbak|]. split; [exact Hino|]. split; [exact Hmaps | exact Hcur].
Defined.

(** X7. A successful [allocateSpace] that does not rotate keeps what was
    written: the file of the logger is extended to the end of the new
    window, which starts at the page of the cursor, the cursor does not
    move, no directory entry changes, and every byte below the cursor is
    unchanged. *)
Theorem allocateSpace_keeps_written_bytes (l l2 : MMapLogger) (w w2 : World)
  (h ino : nat) (f : inode) :
  needs_rotation l = false ->
  file l = Some h -> fds w !! h = Some ino -> inodes w !! ino = Some f ->
  0 <= writeAt l <= i_size f -> writeAt l <= 4611686018427387904 ->
  allocateSpace (l, w) = Done None (l2, w2) ->
  exists f2,
    inodes w2 !! ino = Some f2 /\
    i_size f2 = size l2 /\
    size l2 = writeStartAt l2 + window_size /\
    writeStartAt l2 = writeAt l / pageSize * pageSize /\
    writeAt l2 = writeAt l /\
    names w2 = names w /\
    (forall i, 0 <= i < writeAt l -> i_data f2 i = i_data f i).
Proof.
  intros Hrot Hfile Hfd Hino Hpos Hbig H.
  apply allocateSpace_ok in H. destruct H as (w1 & Hu & H).
  rewrite Hrot in H.
  pose proof (unMap_ok _ _ _ _ _ Hu) as (_ & Hn1 & Hf1 & Hid1 & Henv1).
  destruct H as (h' & ino' & Hfile' & Hfd' & -> & ->).
  rewrite Hfile in Hfile'. injection Hfile' as <-.
  rewrite Hf1, Hfd in Hfd'. injection Hfd' as <-.
  assert (Hq : wrap64 (Z.quot (writeAt l) pageSize * pageSize)
               = writeAt l / pageSize * pageSize).
  { rewrite Z.quot_div_nonneg by (unfold pageSize; lia).
    apply wrap64_small. unfold in_int64, min_int64, max_int64, pageSize.
    pose proof (Z.div_mod (writeAt l) 4096). pose proof (Z.mod_pos_bound (writeAt l) 4096).
    change (4 * 1024) with 4096. lia. }
  assert (Hdm : writeAt l / pageSize * pageSize <= writeAt l
                < writeAt l / pageSize * pageSize + pageSize
                /\ 0 <= writeAt l / pageSize * pageSize).
  { unfold pageSize. change (4 * 1024) with 4096.
    pose proof (Z.div_mod (writeAt l) 4096). pose proof (Z.mod_pos_bound (writeAt l) 4096).
    lia. }
  rewrite Hq.
  assert (Hsz : wrap64 (writeAt l / pageSize * pageSize
                        + wrap64 (defaultMegaByteSize * megabyte))
                = writeAt l / pageSize * pageSize + 10485760).
  { change (wrap64 (defaultMegaByteSize * megabyte)) with 10485760.
    apply wrap64_small. unfold in_int64, min_int64, max_int64. lia. }
  rewrite Hsz. unfold window_size, pageSize in *. simpl.
  destruct (unMap_inode_cases _ _ _ _ _ ino f Hu Hino) as [H1|H1].
  - eexists. rewrite lookup_alter_eq, H1. simpl. split; [reflexivity|]. simpl.
    repeat split; auto. intros i Hi. repeat case_match; try reflexivity; lia.
  - eexists. rewrite lookup_alter_eq, H1. simpl. split; [reflexivity|]. simpl.
    repeat split; auto. intros i Hi. repeat case_match; try reflexivity; lia.
Qed.

Lemma allocateSpace_keeps_written_bytes_witness :
  exists l2 w2 f2,
    allocateSpace (reopened_logger, reopened_world) = Done None (l2, w2) /\
    inodes w2 !! 0%nat = Some f2 /\ i_size f2 = 10485760 /\ writeAt l2 = 5 /\
    (forall i, 0 <= i < 5 -> i_data f2 i = x61).
Proof.
  assert (E : exists l2 w2,
            allocateSpace (reopened_logger, reopened_world) = Done None (l2, w2) /\
            size l2 = 10485760).
  { eexists _, _. split; vm_compute; reflexivity. }
  destruct E as (l2 & w2 & E & Hsize). exists l2, w2.
  assert (Hrot : needs_rotation reopened_logger = false) by (vm_compute; reflexivity).
  assert (Hc1 : 0 <= writeAt reopened_logger <= i_size five_bytes) by (simpl; lia).
  assert (Hc2 : writeAt reopened_logger <= 4611686018427387904) by (simpl; lia).
  destruct (allocateSpace_keeps_written_bytes reopened_logger l2 reopened_world w2
              1%nat 0%nat five_bytes Hrot eq_refl eq_refl eq_refl Hc1 Hc2 E)
    as (f2 & Hino & Hsz & _ & _ & Hcur & _ & Hkeep).
  exists f2. split; [exact E|]. split; [exact Hino|].
  split; [congruence|]. split; [exact Hcur | exact Hkeep].
Defined.

(** X8. When [allocateSpace] rotates the file, the archive holds what was
    written and nothing more: the old window is unmapped and the file cut
    at the cursor before it is renamed, so the inode found under the backup
    name has the cursor as its length and every byte below the cursor
    unchanged. The statement assumes that [os.Stat] fails only for absence
    and that the truncation is not refused. *)
Theorem allocateSpace_rotation_archives_written_bytes (l l2 : MMapLogger) (w w2 : World)
  (h ino : nat) (d : mslice) (f : inode) :
  fails w OpStat = false -> fails w OpFtruncate = false ->
  needs_rotation l = true ->
  file l = Some h -> fds w !! h = Some ino ->
  names w !! entry l w = Some ino -> inodes w !! ino = Some f ->
  (ino < next_id w)%nat ->
  mmapSpace l = Some d -> s_len d <> 0 ->
  0 <= writeAt l <= i_size f ->
  allocateSpace (l, w) = Done None (l2, w2) ->
  exists f',
    names w2 !! backupName (filename l w) (stamp w (LocalTime l)) = Some ino /\
    inodes w2 !! ino = Some f' /\
    i_size f' = writeAt l /\
    (forall i, 0 <= i < writeAt l -> i_data f' i = i_data f i).
Proof.
  intros Hst Hft Hrot Hfile Hfd Hname Hino Hlt Hsp Hlen Hpos H.
  apply allocateSpace_ok in H. destruct H as (w1 & Hu & H).
  rewrite Hrot in H. destruct H as (l2r & w2r & Hr & Hw).
  pose proof (unMap_ok _ _ _ _ _ Hu) as (_ & Hn1 & Hf1 & Hid1 & Henv1).
  destruct (unMap_done_truncates _ _ _ _ h ino d f Hu Hsp Hlen Hfile Hfd Hino Hft
              ltac:(lia)) as (Hcut & _).
  assert (Hstat1 : fails w1 OpStat = false).
  { destruct Henv1 as (Hf & _). rewrite Hf. exact Hst. }
  assert (Hold : inodes w2r !! ino = inodes w1 !! ino).
  { eapply rotate_inodes_old; [exact Hr | lia]. }
  apply (rotate_ok _ _ _ _ Hstat1) in Hr.
  destruct Hr as (hn & new & ch & once & -> & Hfdn & Hnamen & Hinon & Hle & Hmaps & Henv2 & Hbak).
  destruct Hw as (h' & ino' & Hfile' & Hfd' & -> & ->).
  simpl in Hfile'. injection Hfile' as <-. rewrite Hfdn in Hfd'. injection Hfd' as <-.
  assert (Hfn : filename l w1 = filename l w)
    by (apply filename_same_env; [reflexivity | exact Henv1]).
  unfold entry in *. rewrite Hfn in Hbak.
  assert (Hstamp : stamp w1 = stamp w) by (destruct Henv1 as (_ & Hs & _); exact Hs).
  rewrite Hstamp, Hn1 in Hbak.
  exists (truncate_inode (writeAt l) f). simpl.
  split; [apply Hbak; exact Hname|].
  split; [rewrite lookup_alter_ne by lia; rewrite Hold; exact Hcut|].
  split; [reflexivity|].
  intros i Hi. repeat case_match; try reflexivity; lia.
Qed.

Lemma allocateSpace_rotation_archives_written_bytes_witness :
  exists l2 w2 f',
    allocateSpace (small_limit_logger, near_full_world) = Done None (l2, w2) /\
    names w2 !! "mmap-2024-01-02T03-04-05.678.log" = Some 0%nat /\
    inodes w2 !! 0%nat = Some f' /\ i_size f' = 5.
Proof.
  assert (E : exists l2 w2,
            allocateSpace (small_limit_logger, near_full_world) = Done None (l2, w2)).
  { eexists _, _. vm_compute. reflexivity. }
  destruct E as (l2 & w2 & E). exists l2, w2.
  assert (Hrot : needs_rotation small_limit_logger = true) by (vm_compute; reflexivity).
  assert (Hn : names near_full_world !! entry small_limit_logger near_full_world
               = Some 0%nat) by (vm_compute; reflexivity).
  assert (Hlt : (0 < next_id near_full_world)%nat) by (simpl; lia).
  assert (Hlen : s_len {| s_map := 2; s_len := 10485760 |} <> 0) by discriminate.
  assert (Hcur : 0 <= writeAt small_limit_logger
                 <= i_size {| i_size := 10485760; i_data := fun _ => x61 |})
    by (simpl; lia).
  destruct (allocateSpace_rotation_archives_written_bytes small_limit_logger l2
              near_full_world w2 1%nat 0%nat {| s_map := 2; s_len := 10485760 |}
              {| i_size := 10485760; i_data := fun _ => x61 |}
              eq_refl eq_refl Hrot eq_refl eq_refl Hn eq_refl Hlt eq_refl Hlen Hcur E)
    as (f' & Hbak & Hino & Hsz & _).
  exists f'. split; [exact E|]. split; [exact Hbak|]. split; [exact Hino | exact Hsz].
Defined.

(** X9. The size limit bounds every window: after a successful
    [allocateSpace] the size field is the end of the mapped window; when no
    rotation was needed that end is at most [max] and the window starts at
    or below the cursor; when the file was rotated the window starts at 0;
    so the file never extends beyond the larger of [max] and one window. *)
Theorem allocateSpace_respects_limit (l l2 : MMapLogger) (w w2 : World) :
  0 <= writeAt l <= 4611686018427387904 ->
  allocateSpace (l, w) = Done None (l2, w2) ->
  size l2 = writeStartAt l2 + window_size /\
  (needs_rotation l = false -> size l2 <= max l /\ writeStartAt l2 <= writeAt l) /\
  (needs_rotation l = true -> writeStartAt l2 = 0) /\
  size l2 <= Z.max (max l) window_size.
Proof.
  intros Hpos H.
  apply allocateSpace_ok in H. destruct H as (w1 & Hu & H).
  assert (Hq : wrap64 (Z.quot (writeAt l) pageSize * pageSize)
               = writeAt l / pageSize * pageSize).
  { rewrite Z.quot_div_nonneg by (unfold pageSize; lia).
    apply wrap64_small. unfold in_int64, min_int64, max_int64, pageSize.
    pose proof (Z.div_mod (writeAt l) 4096). pose proof (Z.mod_pos_bound (writeAt l) 4096).
    change (4 * 1024) with 4096. lia. }
  assert (Hdm : writeAt l / pageSize * pageSize <= writeAt l
                /\ 0 <= writeAt l / pageSize * pageSize).
  { unfold pageSize. change (4 * 1024) with 4096.
    pose proof (Z.div_mod (writeAt l) 4096). pose proof (Z.mod_pos_bound (writeAt l) 4096).
    lia. }
  assert (Hsz : wrap64 (writeAt l / pageSize * pageSize + 10485760)
                = writeAt l / pageSize * pageSize + 10485760).
  { apply wrap64_small. unfold in_int64, min_int64, max_int64. lia. }
  destruct (needs_rotation l) eqn:Hrot.
  - destruct H as (l2r & w2r & _ & (h & ino & _ & _ & -> & _)). simpl.
    unfold window_size. repeat split; try discriminate; try lia.
    change (wrap64 (0 + wrap64 (defaultMegaByteSize * megabyte))) with 10485760. lia.
  - destruct H as (h & ino & _ & _ & -> & _). simpl.
    unfold needs_rotation in Hrot. rewrite Hq in *.
    change (wrap64 (defaultMegaByteSize * megabyte)) with 10485760 in *.
    rewrite Hsz in *. unfold window_size.
    repeat split; try discriminate; try lia.
Qed.

Lemma allocateSpace_respects_limit_witness :
  exists l2 w2,
    allocateSpace (reopened_logger, reopened_world) = Done None (l2, w2) /\
    size l2 = writeStartAt l2 + window_size /\ size l2 <= max reopened_logger.
Proof.
  assert (E : exists l2 w2,
            allocateSpace (reopened_logger, reopened_world) = Done None (l2, w2)).
  { eexists _, _. vm_compute. reflexivity. }
  destruct E as (l2 & w2 & E). exists l2, w2.
  assert (Hc : 0 <= writeAt reopened_logger <= 4611686018427387904) by (simpl; lia).
  assert (Hrot : needs_rotation reopened_logger = false) by (vm_compute; reflexivity).
  destruct (allocateSpace_respects_limit reopened_logger l2 reopened_world w2 Hc E)
    as (Hsz & Hno & _).
  split; [exact E|]. split; [exact Hsz|]. exact (proj1 (Hno Hrot)).
Defined.

(** X10. With a limit below 10 MB every allocation rotates: for
    [0 < MaxSize < 10] the test of [allocateSpace] holds whatever the
    cursor, so each successful [allocateSpace] has renamed the log file to
    a backup (if it existed) and restarted at offset 0 of a new file. The
    statement assumes that [os.Stat] fails only for absence. *)
Theorem small_limit_rotates_on_every_allocation (l l2 : MMapLogger) (w w2 : World) :
  0 < MaxSize l < 10 ->
  0 <= writeAt l <= 4611686018427387904 ->
  fails w OpStat = false ->
  allocateSpace (l, w) = Done None (l2, w2) ->
  needs_rotation l = true /\
  writeAt l2 = 0 /\ writeStartAt l2 = 0 /\
  exists ino, names w2 !! entry l w = Some ino /\ (next_id w <= ino)%nat /\
    forall old, names w !! entry l w = Some old ->
      names w2 !! backupName (filename l w) (stamp w (LocalTime l)) = Some old.
Proof.
  intros Hms Hpos Hst H.
  assert (Hrot : needs_rotation l = true).
  { unfold needs_rotation, max.
    destruct (MaxSize l =? 0) eqn:E; [lia|].
    rewrite Z.quot_div_nonneg by (unfold pageSize; lia).
    assert (Hdm : writeAt l / pageSize * pageSize <= writeAt l
                  /\ 0 <= writeAt l / pageSize * pageSize).
    { unfold pageSize. change (4 * 1024) with 4096.
      pose proof (Z.div_mod (writeAt l) 4096). pose proof (Z.mod_pos_bound (writeAt l) 4096).
      lia. }
    change (wrap64 (defaultMegaByteSize * megabyte)) with 10485760.
    rewrite (wrap64_small (_ * pageSize))
      by (unfold in_int64, min_int64, max_int64; lia).
    rewrite (wrap64_small (_ + 10485760))
      by (unfold in_int64, min_int64, max_int64; lia).
    unfold megabyte.
    rewrite wrap64_small by (unfold in_int64, min_int64, max_int64; lia). lia. }
  split; [exact Hrot|].
  apply allocateSpace_ok in H. destruct H as (w1 & Hu & H). rewrite Hrot in H.
  destruct H as (l2r & w2r & Hr & Hw).
  pose proof (unMap_ok _ _ _ _ _ Hu) as (_ & Hn1 & Hf1 & Hid1 & Henv1).
  assert (Hstat1 : fails w1 OpStat = false).
  { destruct Henv1 as (Hf & _). rewrite Hf. exact Hst. }
  apply (rotate_ok _ _ _ _ Hstat1) in Hr.
  destruct Hr as (h & ino & ch & once & -> & Hfd & Hname & Hino & Hle & Hmaps & Henv2 & Hbak).
  destruct Hw as (h' & ino' & Hfile & Hfd' & -> & ->).
  assert (Hfn : filename l w1 = filename l w)
    by (apply filename_same_env; [reflexivity | exact Henv1]).
  unfold entry in *. rewrite Hfn in Hname, Hbak.
  assert (Hstamp : stamp w1 = stamp w) by (destruct Henv1 as (_ & Hs & _); exact Hs).
  rewrite Hstamp, Hn1 in Hbak.
  simpl. split; [reflexivity|]. split; [reflexivity|].
  exists ino. split; [exact Hname|]. split; [lia | exact Hbak].
Qed.

Lemma small_limit_rotates_on_every_allocation_witness :
  exists l2 w2,
    allocateSpace (small_limit_logger, near_full_world) = Done None (l2, w2) /\
    needs_rotation small_limit_logger = true /\ writeAt l2 = 0 /\ writeStartAt l2 = 0.
Proof.
  assert (E : exists l2 w2,
            allocateSpace (small_limit_logger, near_full_world) = Done None (l2, w2)).
  { eexists _, _. vm_compute. reflexivity. }
  destruct E as (l2 & w2 & E). exists l2, w2.
  assert (Hms : 0 < MaxSize small_limit_logger < 10) by (simpl; lia).
  assert (Hc : 0 <= writeAt small_limit_logger <= 4611686018427387904) by (simpl; lia).
  destruct (small_limit_rotates_on_every_allocation small_limit_logger l2
              near_full_world w2 Hms Hc eq_refl E)
    as (Hrot & Hcur & Hstart & _).
  split; [exact E|]. split; [exact Hrot|]. split; [exact Hcur | exact Hstart].
Defined.

(** X11. [openExistingOrNew] on a log file that exists reopens it for
    appending, whatever its size: the cursor and the size field become the
    length of the file, and nothing is renamed, created, truncated or
    mapped. The statement assumes that stat, open and fstat do not fail. *)
Theorem openExistingOrNew_reopens_for_append (l : MMapLogger) (w : World)
  (ino : nat) (f : inode) :
  names w !! entry l w = Some ino -> inodes w !! ino = Some f ->
  fails w OpStat = false -> fails w OpOpenFile = false -> fails w OpFstat = false ->
  exists l' w' h,
    openExistingOrNew (l, w) = Done None (l', w') /\
    file l' = Some h /\ fds w' !! h = Some ino /\
    writeAt l' = i_size f /\ size l' = i_size f /\
    writeStartAt l' = writeStartAt l /\ mmapSpace l' = mmapSpace l /\
    names w' = names w /\ inodes w' = inodes w /\ maps w' = maps w.
Proof.
  intros Hn Hi Hst Hop Hfs.
  destruct (openExistingOrNew_existing l w ino f Hn Hi Hst Hop Hfs) as (ch & once & H).
  eexists _, _, _. split; [exact H|]. simpl.
  rewrite lookup_insert_eq. repeat split.
Qed.

Lemma openExistingOrNew_reopens_for_append_witness :
  exists l' w',
    openExistingOrNew (logger0, small_world) = Done None (l', w') /\
    writeAt l' = 5 /\ size l' = 5 /\ names w' = names small_world.
Proof.
  assert (Hn0 : names small_world !! entry logger0 small_world = Some 0%nat)
    by (vm_compute; reflexivity).
  destruct (openExistingOrNew_reopens_for_append logger0 small_world 0%nat five_bytes
              Hn0 eq_refl eq_refl eq_refl eq_refl)
    as (l' & w' & h & Hrun & _ & _ & Hcur & Hsz & _ & _ & Hn & _).
  exists l', w'.
  split; [exact Hrun|]. split; [exact Hcur|]. split; [exact Hsz | exact Hn].
Defined.

(** X12. [openExistingOrNew] when the log file is missing creates it
    empty: the entry names a new inode of length 0, the cursor and the size
    field are 0, every other entry and inode is unchanged and nothing is
    mapped. The statement assumes that the directory can be made and that
    stat, open and fstat do not fail. *)
Theorem openExistingOrNew_creates_missing_file (l : MMapLogger) (w : World) :
  names w !! entry l w = None ->
  fails w OpStat = false -> fails w OpMkdirAll = false ->
  fails w OpOpenFile = false -> fails w OpFstat = false ->
  exists l' w' h ino,
    openExistingOrNew (l, w) = Done None (l', w') /\
    file l' = Some h /\ fds w' !! h = Some ino /\
    names w' = <[entry l w := ino]> (names w) /\
    inodes w' = <[ino := empty_file]> (inodes w) /\ ino = next_id w /\
    writeAt l' = 0 /\ size l' = 0 /\ maps w' = maps w.
Proof.
  intros Hn Hst Hmk Hop Hfs.
  destruct (openExistingOrNew_missing l w Hn Hst Hmk Hop Hfs) as (ch & once & H).
  eexists _, _, _, _. split; [exact H|]. simpl.
  rewrite lookup_insert_eq. repeat split.
Qed.

Lemma openExistingOrNew_creates_missing_file_witness :
  exists l' w',
    openExistingOrNew (logger0, quiet_world) = Done None (l', w') /\
    names w' = {[ "mmap.log" := 0%nat ]} /\ writeAt l' = 0.
Proof.
  assert (Hn0 : names quiet_world !! entry logger0 quiet_world = None)
    by (vm_compute; reflexivity).
  destruct (openExistingOrNew_creates_missing_file logger0 quiet_world
              Hn0 eq_refl eq_refl eq_refl eq_refl)
    as (l' & w' & h & ino & Hrun & _ & _ & Hn & _ & Hino & Hcur & _).
  exists l', w'. split; [exact Hrun|]. split; [|exact Hcur].
  rewrite Hn, Hino. vm_compute. reflexivity.
Defined.

(** X13. [mill] never blocks and never queues a second signal: it always
    returns, leaves the world alone, marks the sweeper as started, leaves
    one signal in the channel (when the channel exists), and calling it
    again before the sweeper has taken the signal changes nothing. *)
Theorem mill_signals_once (s : St) :
  exists s1,
    mill s = Done tt s1 /\
    mill s1 = Done tt s1 /\
    snd s1 = snd s /\
    startMill (fst s1) = true /\
    (startMill (fst s) = false \/ millCh (fst s) <> None -> millCh (fst s1) = Some true).
Proof.
  destruct s as [l w]. unfold mill, bind, getL, modL, ret.
  destruct l as [fn ms ma mb lt cp sz fl [[|]|] [|] ws wa sp]; simpl.
  all: eexists; split; [reflexivity|]; simpl; repeat split; auto.
  all: intros [H|H]; congruence.
Qed.

(** X24. Working order is an invariant of the writer: from a state in
    working order, every [Write] of at most 10481665 bytes (a window less a
    page, plus one) that returns without error leaves the writer in working
    order, returns the count 0, and has stored the whole buffer in the
    mapped window so that it ends at the new cursor; when the buffer is
    shorter than the room left, the cursor advances by its length and the
    size field is unchanged. *)
Theorem Write_keeps_writer_healthy (p : list byte) (s s' : St) (n : Z) :
  healthy s ->
  Z.of_nat (length p) <= window_size - pageSize + 1 ->
  Write p s = Done (n, None) s' ->
  healthy s' /\ n = 0 /\
  stored p (writeAt (fst s') - Z.of_nat (length p)) s' /\
  (Z.of_nat (length p) < size (fst s) - writeAt (fst s) ->
     writeAt (fst s') = writeAt (fst s) + Z.of_nat (length p) /\
     size (fst s') = size (fst s)).
Proof.
  intros (Hok & Hstat & Hlim & Hmaxb) Hlen H.
  destruct s as [l w]. cbn [fst snd] in *.
  pose proof Hok as (h & ino & d & f & Hfile & Hfd & Hsp & Hdl & Hmap & Hino & Hsize &
                     Hs0 & Hsw & Hws & Hbig).
  assert (Hmax : Z.of_nat (length p) <= max l).
  { destruct (Z.of_nat (length p) >? max l) eqn:E; [|lia].
    unfold Write, bind, getL, ret in H. cbn [fst snd] in H. rewrite E in H.
    discriminate H. }
  assert (Hroom : wrap64 (size l - writeAt l) = size l - writeAt l).
  { apply wrap64_small. unfold in_int64, min_int64, max_int64, window_size in *. lia. }
  assert (Hcur : writeAt l <= 4611686018427387904).
  { unfold window_size in *. lia. }
  (* the state after the first half of [Write] *)
  assert (Hprep : exists l2 w2,
            prepared p (l, w) (l2, w2) /\ window_ok (l2, w2) /\
            Z.of_nat (length p) + (writeAt l2 - writeStartAt l2) <= window_size /\
            fails w2 OpStat = false /\ max l2 = max l /\
            size l2 <= Z.max (max l) window_size /\
            (Z.of_nat (length p) < size l - writeAt l -> (l2, w2) = (l, w))).
  { destruct (Z.of_nat (length p) >=? size l - writeAt l) eqn:E.
    - destruct (allocateSpace (l, w)) as [[e|] [l2 w2]|] eqn:Ha.
      + exfalso. unfold Write, bind, getL, ret in H. cbn [fst snd] in H.
        destruct (Z.of_nat (length p) >? max l); [discriminate H|].
        rewrite Hfile in H. cbn [fst snd] in H. rewrite Hroom, E, Ha in H.
        discriminate H.
      + destruct (allocateSpace_from_window l l2 w w2 Hok Hstat Hcur Ha)
          as (Hok2 & Hpage & Hf2 & Hm2 & Hs2).
        exists l2, w2. split; [|split; [exact Hok2|]].
        * exists (l, w). cbn [fst snd]. rewrite Hfile. split; [reflexivity|].
          rewrite Hroom, E. exact Ha.
        * unfold window_size, pageSize in *.
          repeat split; try congruence; try lia.
      + exfalso. unfold Write, bind, getL, ret in H. cbn [fst snd] in H.
        destruct (Z.of_nat (length p) >? max l); [discriminate H|].
        rewrite Hfile in H. cbn [fst snd] in H. rewrite Hroom, E, Ha in H.
        discriminate H.
    - exists l, w. split; [|split; [exact Hok|]].
      + exists (l, w). cbn [fst snd]. rewrite Hfile. split; [reflexivity|].
        rewrite Hroom, E. reflexivity.
      + unfold window_size in *. repeat split; try assumption; try lia. }
  destruct Hprep as (l2 & w2 & Hprep & Hok2 & Hfit & Hstat2 & Hmax2 & Hlim2 & Hsame).
  pose proof Hok2 as (h2 & ino2 & d2 & f2 & Hfile2 & Hfd2 & Hsp2 & Hdl2 & Hmap2 & Hino2 &
                      Hsize2 & Hs02 & Hsw2 & Hws2 & Hbig2).
  pose proof (Write_commit_state p l l2 w w2 h2 ino2 Hmax Hprep Hok2 Hfile2 Hfd2 Hfit)
    as Hrun.
  rewrite Hrun in H. injection H as <- <-. cbn [fst snd].
  assert (Hok' := window_ok_after_write p l2 w2 ino2 Hok2).
  specialize (Hok' ltac:(intros h' Hh'; rewrite Hfile2 in Hh'; now injection Hh' as <-)).
  specialize (Hok' ltac:(unfold window_size in *; lia)).
  split; [|split; [reflexivity|split]].
  - split; [exact Hok'|]. cbn [fst snd].
    split; [destruct p; exact Hstat2|].
    split; [|change (max (set_size (size l2)
                        (set_writeAt (writeAt l2 + Z.of_nat (length p)) l2)))
               with (max l2); lia].
    change (max (set_size (size l2) (set_writeAt (writeAt l2 + Z.of_nat (length p)) l2)))
      with (max l2).
    simpl size. lia.
  - simpl writeAt.
    replace (writeAt l2 + Z.of_nat (length p) - Z.of_nat (length p)) with (writeAt l2) by lia.
    destruct p as [|b p']; [now left|].
    right. exists d2, {| r_ino := ino2; r_off := writeStartAt l2; r_len := window_size |},
      (store_bytes (b :: p') (writeAt l2) f2).
    split; [exact Hsp2|]. split; [exact Hmap2|].
    split; [cbn [snd inodes set_inodes r_ino]; rewrite lookup_alter_eq, Hino2; reflexivity|].
    cbn [r_off r_len]. unfold window_size in *.
    split; [lia|]. split; [lia|].
    intros i Hi. now apply store_bytes_read.
  - intros Hlt. specialize (Hsame Hlt). injection Hsame as -> ->.
    split; reflexivity.
Qed.

Lemma Write_keeps_writer_healthy_witness :
  exists s',
    Write hello (windowed_logger, near_full_world) = Done (0, None) s' /\
    healthy s' /\ writeAt (fst s') = 10 /\ stored hello 5 s'.
Proof.
  assert (Hmax : Z.of_nat (length hello) <= max windowed_logger)
    by (vm_compute; discriminate).
  assert (Hroom : Z.of_nat (length hello)
                  < size windowed_logger - writeAt windowed_logger) by reflexivity.
  pose proof (Write_in_window hello windowed_logger near_full_world 1%nat 0%nat
                window_ok_windowed eq_refl eq_refl Hmax Hroom) as E.
  assert (Hh : healthy (windowed_logger, near_full_world)).
  { split; [exact window_ok_windowed|]. split; [reflexivity|].
    split; vm_compute; discriminate. }
  assert (Hlen : Z.of_nat (length hello) <= window_size - pageSize + 1)
    by (vm_compute; discriminate).
  destruct (Write_keeps_writer_healthy hello _ _ 0 Hh Hlen E) as (Hh' & _ & Hst & Hadv).
  eexists. split; [exact E|]. split; [exact Hh'|].
  split; [exact (proj1 (Hadv Hroom)) | exact Hst].
Defined.

(** X25. The first write of a new logger whose log file is missing
    creates it: when the limit is at least one window and nothing in the
    environment fails, [Write] creates the file and its entry, maps a window
    from offset 0, stores the buffer there and returns without error; the
    cursor is the length of the buffer and the writer is left in working
    order. *)
Theorem Write_creates_missing_file (p : list byte) (l : MMapLogger) (w : World) :
  file l = None -> mmapSpace l = None ->
  names w !! entry l w = None ->
  fails w OpStat = false -> fails w OpMkdirAll = false ->
  fails w OpOpenFile = false -> fails w OpFstat = false ->
  fails w OpFtruncate = false -> fails w OpMmap = false ->
  window_size <= max l -> max l <= 4611686018427387904 ->
  Z.of_nat (length p) <= window_size ->
  exists s' f',
    Write p (l, w) = Done (0, None) s' /\
    writeAt (fst s') = Z.of_nat (length p) /\
    names (snd s') = <[entry l w := next_id w]> (names w) /\
    inodes (snd s') !! next_id w = Some f' /\
    (forall i, (i < length p)%nat -> i_data f' (Z.of_nat i) = nth i p x00) /\
    healthy s'.
Proof.
  intros Hfile Hsp Hn Hst Hmk Hop Hfs Hft Hmm Hmax Hmaxb Hlen.
  destruct (openExistingOrNew_missing l w Hn Hst Hmk Hop Hfs) as (ch & once & Hopen).
  assert (H0 : 0 <= i_size empty_file) by (simpl; lia).
  assert (H1 : i_size empty_file / pageSize * pageSize + window_size <= max l)
    by (simpl; exact Hmax).
  assert (H2 : Z.of_nat (length p) <= max l) by lia.
  assert (H3 : Z.of_nat (length p) + i_size empty_file mod pageSize <= window_size)
    by (simpl; unfold pageSize; rewrite Z.mod_0_l by lia; lia).
  destruct (Write_first p l _ w _ (S (next_id w)) (next_id w) empty_file Hfile Hopen
              Hsp eq_refl (lookup_insert_eq _ _ _) (lookup_insert_eq _ _ _)
              eq_refl eq_refl eq_refl Hst Hft Hmm H0 H1 Hmaxb H2 H3)
    as (s' & f' & Hrun & Hcur & Hnames & Hino & _ & Hnew & Hh).
  exists s', f'. split; [exact Hrun|]. split; [exact Hcur|]. split; [exact Hnames|].
  split; [exact Hino|]. split; [exact Hnew | exact Hh].
Qed.

Lemma Write_creates_missing_file_witness :
  exists s' f',
    Write hello (logger0, quiet_world) = Done (0, None) s' /\
    writeAt (fst s') = 5 /\
    names (snd s') = {[ "mmap.log" := 0%nat ]} /\
    inodes (snd s') !! 0%nat = Some f' /\ i_data f' 0 = x68 /\ healthy s'.
Proof.
  assert (Hn0 : names quiet_world !! entry logger0 quiet_world = None)
    by (vm_compute; reflexivity).
  assert (Hmax : window_size <= max logger0) by (vm_compute; discriminate).
  assert (Hmaxb : max logger0 <= 4611686018427387904) by (vm_compute; discriminate).
  assert (Hlen : Z.of_nat (length hello) <= window_size) by (vm_compute; discriminate).
  destruct (Write_creates_missing_file hello logger0 quiet_world
              eq_refl eq_refl Hn0 eq_refl eq_refl eq_refl eq_refl eq_refl eq_refl
              Hmax Hmaxb Hlen)
    as (s' & f' & Hrun & Hcur & Hnames & Hino & Hnew & Hh).
  exists s', f'. split; [exact Hrun|]. split; [exact Hcur|].
  split; [rewrite Hnames; vm_compute; reflexivity|].
  split; [exact Hino|]. split; [exact (Hnew 0%nat ltac:(simpl; lia)) | exact Hh].
Defined.

(* ===================================================================== *)
(** * More facts about the candidates and the loops *)
(* ===================================================================== *)

(** The first loop of [millRunOnce] in one step: the files marked and the
    files kept by the limit on the number of backups. *)
Lemma millSelect_unfold (env : SweepEnv) (l : MMapLogger) (files : list logInfo) :
  let r1 := if (MaxBackups l >? 0) && (MaxBackups l <? Z.of_nat (length files))
            then backupsLoop (MaxBackups l) files ∅ [] []
            else ([], files) in
  let cutoff := now env + wrap64 (-1 * wrap64 (day_ns * MaxAge l)) in
  let old := fun f => timestamp f < cutoff in
  let keep := if MaxAge l >? 0 then filter (fun f => ~ old f) (snd r1) else snd r1 in
  files ≡ₚ fst (millSelect env l files) ++ keep /\
  fst (millSelect env l files) =
    fst r1 ++ (if MaxAge l >? 0 then filter old (snd r1) else []) /\
  snd (millSelect env l files) =
    (if Compress l
     then filter (fun f => HasSuffix (Name (info f)) compressSuffix = false) keep
     else []).
Proof.
  cbv zeta. unfold millSelect.
  pose proof (backupsLoop_split (MaxBackups l) files ∅) as (Hsplit & _).
  destruct (backupsLoop (MaxBackups l) files ∅ [] []) as [rm1 keep1] eqn:Hb. simpl in Hsplit.
  set (r1 := if (MaxBackups l >? 0) && (MaxBackups l <? Z.of_nat (length files))
             then (rm1, keep1) else ([], files)).
  assert (H1 : files ≡ₚ fst r1 ++ snd r1).
  { subst r1. destruct (_ && _); simpl; [|reflexivity].
    rewrite Hsplit. apply Permutation_app_comm. }
  clearbody r1. destruct r1 as [rm keep]. simpl in *.
  rewrite ageLoop_filter. simpl.
  destruct (MaxAge l >? 0).
  - split; [|split].
    + cbn [fst snd]. rewrite H1, <- app_assoc. apply Permutation_app_head.
      symmetry. apply filter_app_complement.
    + reflexivity.
    + destruct (Compress l); [|reflexivity]. now rewrite compressLoop_filter.
  - cbn [fst snd]. rewrite app_nil_r. split; [exact H1|]. split; [reflexivity|].
    destruct (Compress l); [|reflexivity]. now rewrite compressLoop_filter.
Qed.

Lemma os_Remove_gone (env : SweepEnv) (name a : string) (disk : gmap string node) :
  disk !! a = None -> fst (os_Remove env name disk) !! a = None.
Proof.
  intros H. unfold os_Remove.
  destruct (sfails env name SRemove); [exact H|].
  destruct (disk !! name); simpl; [|exact H].
  destruct (decide (name = a)) as [->|Hne];
    [apply lookup_delete_eq | now rewrite lookup_delete_ne].
Qed.

Lemma removeAll_gone (env : SweepEnv) (a : string) (remove : list logInfo)
  (disk : gmap string node) (err : option sweep_error) :
  disk !! a = None -> fst (removeAll env remove disk err) !! a = None.
Proof.
  revert disk err. induction remove as [|f remove IH]; intros disk err H; simpl.
  - exact H.
  - pose proof (os_Remove_gone env (Name (info f)) a disk H) as H1.
    destruct (os_Remove env (Name (info f)) disk) as [disk' ok]. simpl in H1.
    now apply IH.
Qed.

Lemma removeAll_err (env : SweepEnv) (remove : list logInfo)
  (disk : gmap string node) (e : sweep_error) :
  snd (removeAll env remove disk (Some e)) = Some e.
Proof.
  revert disk. induction remove as [|f remove IH]; intros disk; simpl; [reflexivity|].
  destruct (os_Remove env (Name (info f)) disk) as [disk' ok]. apply IH.
Qed.

Lemma removeAll_failing (env : SweepEnv) (a : string) (remove : list logInfo)
  (disk : gmap string node) (err : option sweep_error) :
  sfails env a SRemove = true -> fst (removeAll env remove disk err) !! a = disk !! a.
Proof.
  intros Hbad. revert disk err.
  induction remove as [|f remove IH]; intros disk err; simpl; [reflexivity|].
  assert (Hsame : fst (os_Remove env (Name (info f)) disk) !! a = disk !! a).
  { destruct (decide (Name (info f) = a)) as [Heq|Hne].
    - unfold os_Remove. rewrite Heq, Hbad. reflexivity.
    - now apply os_Remove_other. }
  destruct (os_Remove env (Name (info f)) disk) as [disk1 ok]. simpl in Hsame.
  rewrite IH. exact Hsame.
Qed.

Lemma app_assoc_s (a b c : string) : (a +:+ b) +:+ c = a +:+ (b +:+ c).
Proof.
  induction a as [|x a IH]; [reflexivity|].
  change (String x ((a +:+ b) +:+ c) = String x (a +:+ (b +:+ c))). now rewrite IH.
Qed.

Lemma substring_app_tail (a b : string) (n : nat) :
  String.substring (slen a) n (a +:+ b) = String.substring 0 n b.
Proof.
  unfold slen. induction a as [|c a IH]; [reflexivity|].
  change (String c a +:+ b) with (String c (a +:+ b)). simpl. exact IH.
Qed.

Lemma substring_whole (s : string) : String.substring 0 (slen s) s = s.
Proof. unfold slen. induction s as [|c s IH]; simpl; [reflexivity | now rewrite IH]. Qed.


Lemma HasPrefix_of_app (p t : string) : HasPrefix (p +:+ t) p = true.
Proof.
  unfold HasPrefix. rewrite slen_app, substring_app_head, String.eqb_refl.
  apply andb_true_iff. split; [apply Nat.leb_le; lia | reflexivity].
Qed.

Lemma HasSuffix_of_app (t x : string) : HasSuffix (t +:+ x) x = true.
Proof.
  unfold HasSuffix. rewrite slen_app.
  replace (slen t + slen x - slen x)%nat with (slen t) by lia.
  rewrite substring_app_tail, substring_whole, String.eqb_refl.
  apply andb_true_iff. split; [apply Nat.leb_le; lia | reflexivity].
Qed.

(** [timeFromName] reads back the stamp that [backupName] has put into
    the name. *)
Lemma timeFromName_backupName (env : SweepEnv) (l : MMapLogger) (w : World) (st : string) :
  timeFromName env (backupName (filename l w) st)
    (fst (prefixAndExt l w)) (snd (prefixAndExt l w)) =
  match parseTime env st with
  | Some t => Stamp t
  | None => NoMatch
  end.
Proof.
  unfold timeFromName, backupName, prefixAndExt. cbv zeta. cbn [fst snd].
  set (b := Base (filename l w)).
  replace (trimExt b +:+ "-" +:+ st +:+ Ext b)
    with ((trimExt b +:+ "-") +:+ (st +:+ Ext b)) by (now rewrite !app_assoc_s).
  rewrite HasPrefix_of_app. simpl negb.
  replace ((trimExt b +:+ "-") +:+ (st +:+ Ext b))
    with (((trimExt b +:+ "-") +:+ st) +:+ Ext b) by (now rewrite !app_assoc_s).
  rewrite HasSuffix_of_app. simpl negb. cbv iota.
  unfold slice. rewrite !slen_app.
  destruct (_ <=? _)%nat eqn:E; [|apply Nat.leb_gt in E; lia].
  replace (slen (trimExt b) + slen "-" + slen st + slen (Ext b) - slen (Ext b)
           - (slen (trimExt b) + slen "-"))%nat with (slen st) by lia.
  rewrite <- slen_app.
  rewrite app_assoc_s.
  rewrite substring_app_tail, substring_app_head. reflexivity.
Qed.

Lemma scanDir_acc (env : SweepEnv) (prefix ext : string) (files : list FileInfo)
  (acc out : list logInfo) :
  scanDir env prefix ext files acc = Some out ->
  exists more, out = acc ++ more /\ sublist (info <$> more) files.
Proof.
  revert acc out. induction files as [|f files IH]; intros acc out H; simpl in H.
  - injection H as <-. exists []. now rewrite app_nil_r.
  - assert (Hskip : scanDir env prefix ext files acc = Some out ->
                    exists more, out = acc ++ more /\ sublist (info <$> more) (f :: files)).
    { intros H1. destruct (IH _ _ H1) as (more & -> & Hs).
      exists more. split; [reflexivity|]. now apply sublist_cons. }
    assert (Hadd : forall t,
              scanDir env prefix ext files (acc ++ [{| timestamp := t; info := f |}])
              = Some out ->
              exists more, out = acc ++ more /\ sublist (info <$> more) (f :: files)).
    { intros t H1. destruct (IH _ _ H1) as (more & -> & Hs).
      exists ({| timestamp := t; info := f |} :: more).
      split; [now rewrite <- app_assoc|]. simpl. now apply sublist_skip. }
    destruct (IsDir f); [auto|].
    destruct (timeFromName env (Name f) prefix ext) as [t| |]; [eauto | | discriminate H].
    destruct (timeFromName env (Name f) prefix (ext +:+ compressSuffix)) as [t| |];
      [eauto | eauto | discriminate H].
Qed.

(** A file of the listing that [timeFromName] accepts is among the
    candidates. *)
Lemma scanDir_complete (env : SweepEnv) (prefix ext : string) (files : list FileInfo)
  (acc out : list logInfo) (fi : FileInfo) (t : Z) :
  scanDir env prefix ext files acc = Some out ->
  fi ∈ files -> IsDir fi = false ->
  timeFromName env (Name fi) prefix ext = Stamp t ->
  {| timestamp := t; info := fi |} ∈ out.
Proof.
  revert acc out. induction files as [|f files IH]; intros acc out H Hin Hd Ht;
    [inversion Hin|].
  simpl in H. apply elem_of_cons in Hin. destruct Hin as [->|Hin].
  - rewrite Hd, Ht in H. apply scanDir_acc in H. destruct H as (more & -> & _).
    rewrite !elem_of_app. left. right. apply list_elem_of_here.
  - destruct (IsDir f); [eauto|].
    destruct (timeFromName env (Name f) prefix ext) as [t'| |]; [eauto | | discriminate H].
    destruct (timeFromName env (Name f) prefix (ext +:+ compressSuffix)) as [t'| |];
      [eauto | eauto | discriminate H].
Qed.

Lemma ReadDir_elem (disk : gmap string node) (name : string) (c : list byte) :
  disk !! name = Some (RegFile c) ->
  {| Name := name; IsDir := false |} ∈ ReadDir disk.
Proof.
  intros H. unfold ReadDir. rewrite merge_sort_Permutation. apply list_elem_of_fmap.
  exists (name, RegFile c). split; [reflexivity|]. now apply elem_of_map_to_list.
Qed.

Lemma list_ascii_app (a b : string) :
  list_ascii_of_string (a +:+ b) = (list_ascii_of_string a ++ list_ascii_of_string b)%list.
Proof.
  induction a as [|c a IH]; [reflexivity|].
  change (String c a +:+ b) with (String c (a +:+ b)). simpl. now rewrite IH.
Qed.

Lemma substring_split (s : string) (n : nat) :
  (n <= slen s)%nat ->
  s = String.substring 0 n s +:+ String.substring n (slen s - n) s.
Proof.
  unfold slen. revert n. induction s as [|c s IH]; intros n Hn; simpl in *.
  - destruct n; reflexivity.
  - destruct n as [|n]; simpl.
    + pose proof (substring_whole s) as Hw. unfold slen in Hw. now rewrite Hw.
    + change (String c (substring 0 n s) +:+ substring n (String.length s - n) s)
        with (String c (substring 0 n s +:+ substring n (String.length s - n) s)).
      rewrite <- IH by lia. reflexivity.
Qed.

Lemma HasPrefix_inv (s p : string) : HasPrefix s p = true -> exists t, s = p +:+ t.
Proof.
  unfold HasPrefix. intros H. apply andb_true_iff in H. destruct H as [Hl He].
  apply Nat.leb_le in Hl. apply String.eqb_eq in He.
  eexists. rewrite (substring_split s (slen p) Hl) at 1. rewrite He. reflexivity.
Qed.

Lemma HasSuffix_inv (s x : string) : HasSuffix s x = true -> exists t, s = t +:+ x.
Proof.
  unfold HasSuffix. intros H. apply andb_true_iff in H. destruct H as [Hl He].
  apply Nat.leb_le in Hl. apply String.eqb_eq in He.
  eexists. rewrite (substring_split s (slen s - slen x) ltac:(lia)) at 1.
  replace (slen s - (slen s - slen x))%nat with (slen x) by lia.
  rewrite He. reflexivity.
Qed.

Lemma slen_list (s : string) : slen s = length (list_ascii_of_string s).
Proof. unfold slen. induction s as [|c s IH]; simpl; [reflexivity | now rewrite IH]. Qed.

(** A name that starts with [stem-] and ends with [x] is at least as long
    as the two together, unless [x] itself contains a dash. *)
Lemma prefix_suffix_disjoint (name stem x : string) :
  "-"%char ∉ list_ascii_of_string x ->
  HasPrefix name (stem +:+ "-") = true -> HasSuffix name x = true ->
  (slen (stem +:+ "-") <= slen name - slen x)%nat.
Proof.
  intros Hno Hp Hs.
  apply HasPrefix_inv in Hp. destruct Hp as (t1 & H1).
  apply HasSuffix_inv in Hs. destruct Hs as (t2 & H2).
  assert (E : (list_ascii_of_string (stem +:+ "-") ++ list_ascii_of_string t1
               = list_ascii_of_string t2 ++ list_ascii_of_string x)%list).
  { rewrite <- !list_ascii_app. congruence. }
  assert (Hlen : (slen name - slen x = slen t2)%nat).
  { rewrite H2 at 1. rewrite (slen_app t2 x). lia. }
  rewrite Hlen. rewrite !slen_list.
  apply List.app_eq_app in E. destruct E as (u & [[E1 E2]|[E1 E2]]).
  - (* the prefix reaches into the suffix by [u] *)
    destruct u as [|c u].
    + rewrite app_nil_r in E1. rewrite E1. lia.
    + exfalso. apply Hno. rewrite E2. apply elem_of_app. left.
      rewrite list_ascii_app in E1.
      assert (Hlast : last (list_ascii_of_string stem ++ list_ascii_of_string "-")
                      = Some "-"%char) by apply last_snoc.
      rewrite E1, last_app_cons in Hlast.
      apply last_Some in Hlast. destruct Hlast as (pre & ->).
      apply elem_of_app. right. apply list_elem_of_here.
  - rewrite E1, length_app. lia.
Qed.

Lemma timeFromName_no_panic (env : SweepEnv) (name stem x : string) :
  "-"%char ∉ list_ascii_of_string x ->
  timeFromName env name (stem +:+ "-") x <> BoundsPanic.
Proof.
  intros Hno. unfold timeFromName.
  destruct (HasPrefix name (stem +:+ "-")) eqn:Hp; simpl; [|discriminate].
  destruct (HasSuffix name x) eqn:Hs; simpl; [|discriminate].
  pose proof (prefix_suffix_disjoint name stem x Hno Hp Hs) as Hle.
  unfold slice. destruct (_ <=? _)%nat eqn:E; [|apply Nat.leb_gt in E; lia].
  destruct (parseTime env _); discriminate.
Qed.

Lemma scanDir_no_panic (env : SweepEnv) (stem ext : string) (files : list FileInfo)
  (acc : list logInfo) :
  "-"%char ∉ list_ascii_of_string ext ->
  is_Some (scanDir env (stem +:+ "-") ext files acc).
Proof.
  intros Hno.
  assert (Hgz : "-"%char ∉ list_ascii_of_string (ext +:+ compressSuffix)).
  { rewrite list_ascii_app. intros H. apply elem_of_app in H. destruct H as [H|H]; [auto|].
    vm_compute in H. set_solver. }
  revert acc. induction files as [|f files IH]; intros acc; simpl; [eauto|].
  destruct (IsDir f); [apply IH|].
  pose proof (timeFromName_no_panic env (Name f) stem ext Hno) as H1.
  pose proof (timeFromName_no_panic env (Name f) stem (ext +:+ compressSuffix) Hgz) as H2.
  destruct (timeFromName env (Name f) (stem +:+ "-") ext); [apply IH | | contradiction].
  destruct (timeFromName env (Name f) (stem +:+ "-") (ext +:+ compressSuffix));
    [apply IH | apply IH | contradiction].
Qed.

Lemma ReadDir_names_NoDup (disk : gmap string node) : NoDup (Name <$> ReadDir disk).
Proof.
  unfold ReadDir. rewrite merge_sort_Permutation, <- list_fmap_compose.
  replace (Name ∘ _ <$> map_to_list disk) with ((map_to_list disk).*1).
  - apply NoDup_fst_map_to_list.
  - apply list_fmap_ext. intros i [k v] _. reflexivity.
Qed.

(** The candidates of a sweep bear pairwise distinct names. *)
Lemma oldLogFiles_names_NoDup (env : SweepEnv) (l : MMapLogger) (w : World)
  (disk : gmap string node) (files : list logInfo) :
  oldLogFiles env l w disk = Some (inr files) ->
  NoDup ((fun f => Name (info f)) <$> files).
Proof.
  unfold oldLogFiles. destruct (sfails env "." SReadDir); [discriminate|].
  destruct (prefixAndExt l w) as [prefix ext].
  destruct (scanDir env prefix ext (ReadDir disk) []) as [logFiles|] eqn:Hscan; [|discriminate].
  intros [= <-]. rewrite merge_sort_Permutation.
  apply scanDir_acc in Hscan. destruct Hscan as (more & -> & Hsub). simpl.
  apply (fmap_sublist Name) in Hsub. rewrite <- list_fmap_compose in Hsub.
  eapply sublist_NoDup; [apply ReadDir_names_NoDup | exact Hsub].
Qed.

(** With a dash in the extension the slice expression of [timeFromName]
    can be reached with its bounds crossed: the sweep of a logger on
    "x.a.a-b" panics when the directory holds a file named "x.a-b". *)
Lemma sweep_panics_on_overlapping_name :
  millRunOnce demo_env (newLogger "x.a.a-b" 100 30 10 false) quiet_world
    {[ "x.a-b" := RegFile [] ]} = None.
Proof. vm_compute. reflexivity. Qed.


(* ===================================================================== *)
(** * The limit on the number of backups *)
(* ===================================================================== *)

(** A listed file whose removal the environment allows is gone after the
    loop, whatever happens to the others. *)
Lemma removeAll_removes (env : SweepEnv) (remove : list logInfo)
  (disk : gmap string node) (err : option sweep_error) (f : logInfo) :
  f ∈ remove -> sfails env (Name (info f)) SRemove = false ->
  fst (removeAll env remove disk err) !! Name (info f) = None.
Proof.
  revert disk err. induction remove as [|g remove IH]; intros disk err Hf Hok;
    [inversion Hf|].
  simpl. apply elem_of_cons in Hf.
  destruct (os_Remove env (Name (info g)) disk) as [disk1 ok] eqn:Hrm.
  destruct Hf as [->|Hf]; [|now apply IH].
  apply removeAll_gone.
  unfold os_Remove in Hrm. rewrite Hok in Hrm.
  destruct (disk !! Name (info g)) eqn:Hd; injection Hrm as <- <-;
    [apply lookup_delete_eq | exact Hd].
Qed.

(** When the listed files bear distinct names, are all there and may all
    be removed, the loop returns no error. *)
Lemma removeAll_no_error (env : SweepEnv) (remove : list logInfo)
  (disk : gmap string node) :
  NoDup ((fun f => Name (info f)) <$> remove) ->
  (forall r, r ∈ remove ->
     sfails env (Name (info r)) SRemove = false /\ is_Some (disk !! Name (info r))) ->
  snd (removeAll env remove disk None) = None.
Proof.
  revert disk. induction remove as [|f remove IH]; intros disk Hnd Hall; [reflexivity|].
  simpl. rewrite fmap_cons in Hnd. apply NoDup_cons in Hnd. destruct Hnd as [Hnotin Hnd].
  destruct (Hall f (list_elem_of_here _ _)) as [Hok [n Hn]].
  unfold os_Remove. rewrite Hok, Hn. apply IH; [exact Hnd|].
  intros r Hr. destruct (Hall r (list_elem_of_further _ _ _ Hr)) as [Hrok Hrin].
  split; [exact Hrok|]. rewrite lookup_delete_ne; [exact Hrin|].
  intros Heq. apply Hnotin. rewrite Heq. apply list_elem_of_fmap. eauto.
Qed.

(** C7. With a limit [m > 0] on the backups and more than [m] candidates,
    the sweep sorts the candidates from the newest to the oldest and cuts
    them in two: the files kept come first, the files marked for removal
    are the rest, so no marked file is newer than a kept one; the kept
    files stand for exactly [min m n] backups, where [n] is the number of
    backups among the candidates and a file and its compressed form count
    as one backup; and the first marked file is the one that would have
    made the backups exceed [m]. The sweep itself, [millRunOnce], returns
    and removes what was marked: every marked file is among its removals
    (without an age limit they are exactly its removals) and, when nothing
    is compressed, every marked file whose removal the system allows is
    gone from the directory afterwards. Without an age limit and without
    compression the kept files and all other entries are as they were,
    so that of the candidates exactly the kept ones, the [min m n] most
    recent backups, remain when the removals succeed, and no error is
    reported then. The order [sort.Sort] gives to files of the same stamp
    is left to the environment: all of this holds for each such order. *)
Theorem backups_limit_keeps_newest (env : SweepEnv) (l : MMapLogger) (w : World)
  (disk : gmap string node) (files : list logInfo) :
  oldLogFiles env l w disk = Some (inr files) ->
  0 < MaxBackups l ->
  MaxBackups l < Z.of_nat (length files) ->
  exists remove remaining disk' err,
    backupsLoop (MaxBackups l) files ∅ [] [] = (remove, remaining) /\
    millRunOnce env l w disk = Some (disk', err) /\
    (MaxAge l = 0 -> fst (millSelect env l files) = remove) /\
    StronglySorted newer_eq files /\
    files = remaining ++ remove /\
    (forall k r, k ∈ remaining -> r ∈ remove -> timestamp r <= timestamp k) /\
    set_len (stems remaining) = Z.min (MaxBackups l) (set_len (stems files)) /\
    (forall x rest, remove = x :: rest ->
       set_len (stems (remaining ++ [x])) > MaxBackups l) /\
    (forall r, r ∈ remove -> r ∈ fst (millSelect env l files)) /\
    (forall f, f ∈ files -> is_Some (disk !! Name (info f))) /\
    (Compress l = false ->
       forall r, r ∈ remove -> sfails env (Name (info r)) SRemove = false ->
                 disk' !! Name (info r) = None) /\
    (MaxAge l = 0 -> Compress l = false ->
       (forall k, k ∈ remaining -> disk' !! Name (info k) = disk !! Name (info k)) /\
       (forall a, (forall r, r ∈ remove -> Name (info r) <> a) -> disk' !! a = disk !! a) /\
       ((forall r, r ∈ remove -> sfails env (Name (info r)) SRemove = false) ->
          err = None /\
          forall f, f ∈ files ->
            (is_Some (disk' !! Name (info f)) <-> f ∈ remaining))).
Proof.
  intros Hold Hpos Hlen.
  pose proof (oldLogFiles_names_NoDup env l w disk files Hold) as Hnd.
  pose proof (oldLogFiles_ok env l w disk files Hold) as [Hsorted Hcand].
  rewrite Forall_forall in Hcand.
  pose proof (backupsLoop_split (MaxBackups l) files ∅) as (Hsplit & Hcount & Hmax).
  destruct (millSelect_unfold env l files) as (_ & Hrm & Hcomp).
  assert (Hc : (MaxBackups l >? 0) && (MaxBackups l <? Z.of_nat (length files)) = true).
  { apply andb_true_iff. split; [apply Z.gtb_lt | apply Z.ltb_lt]; lia. }
  rewrite Hc in Hrm, Hcomp.
  destruct (backupsLoop (MaxBackups l) files ∅ [] []) as [remove remaining] eqn:Hloop.
  cbn [fst snd] in Hsplit, Hcount, Hmax, Hrm, Hcomp.
  assert (Hrun : millRunOnce env l w disk =
            Some (compressAll env (snd (millSelect env l files))
                    (fst (removeAll env (fst (millSelect env l files)) disk None))
                    (snd (removeAll env (fst (millSelect env l files)) disk None)))).
  { unfold millRunOnce. rewrite Hold.
    destruct (MaxBackups l =? 0) eqn:E0; [lia|]. simpl.
    destruct (millSelect env l files) as [rm comp]. simpl.
    destruct (removeAll env rm disk None) as [disk1 err1]. reflexivity. }
  destruct (compressAll env (snd (millSelect env l files))
              (fst (removeAll env (fst (millSelect env l files)) disk None))
              (snd (removeAll env (fst (millSelect env l files)) disk None)))
    as [disk' err] eqn:Hsweep.
  assert (Hpresent : forall f, f ∈ files -> is_Some (disk !! Name (info f)))
    by (intros f Hf; exact (proj2 (Hcand f Hf))).
  assert (Hmarked : forall r, r ∈ remove -> r ∈ fst (millSelect env l files))
    by (intros r Hr; rewrite Hrm, elem_of_app; auto).
  assert (Hage0 : MaxAge l = 0 -> fst (millSelect env l files) = remove).
  { intros Hage. rewrite Hrm, Hage. simpl. apply app_nil_r. }
  assert (Hplain : Compress l = false ->
            disk' = fst (removeAll env (fst (millSelect env l files)) disk None) /\
            err = snd (removeAll env (fst (millSelect env l files)) disk None)).
  { intros Hcmp. rewrite Hcomp, Hcmp in Hsweep. simpl in Hsweep.
    injection Hsweep as <- <-. auto. }
  assert (Hndr : NoDup ((fun f => Name (info f)) <$> remove) /\
                 forall k r, k ∈ remaining -> r ∈ remove ->
                             Name (info r) <> Name (info k)).
  { rewrite Hsplit, fmap_app in Hnd. apply NoDup_app in Hnd.
    destruct Hnd as (_ & Hdis & Hr). split; [exact Hr|].
    intros k r Hkin Hrin Heq. apply (Hdis (Name (info k))).
    - apply list_elem_of_fmap. eauto.
    - apply list_elem_of_fmap. eauto. }
  destruct Hndr as (Hndrm & Hdisj).
  exists remove, remaining, disk', err.
  split; [reflexivity|]. split; [exact Hrun|]. split; [exact Hage0|].
  split; [exact Hsorted|]. split; [exact Hsplit|]. split.
  { intros k r Hk Hr. rewrite Hsplit in Hsorted.
    exact (StronglySorted_app_1_elem_of _ _ _ _ _ Hsorted Hk Hr). }
  split.
  { rewrite !union_empty_l_L in Hcount. apply Hcount.
    unfold set_len. rewrite size_empty. lia. }
  split.
  { intros x rest Hx. specialize (Hmax x rest Hx).
    now rewrite union_empty_l_L in Hmax. }
  split; [exact Hmarked|]. split; [exact Hpresent|]. split.
  { intros Hcmp r Hr Hok. destruct (Hplain Hcmp) as [-> _].
    apply removeAll_removes; [apply Hmarked, Hr | exact Hok]. }
  intros Hage Hcmp. destruct (Hplain Hcmp) as [-> ->]. rewrite (Hage0 Hage).
  assert (Hkept : forall k, k ∈ remaining ->
            fst (removeAll env remove disk None) !! Name (info k)
            = disk !! Name (info k)).
  { intros k Hk. apply removeAll_other. apply Forall_forall.
    intros r Hr. now apply Hdisj. }
  split; [exact Hkept|]. split.
  { intros a Ha. apply removeAll_other. apply Forall_forall. exact Ha. }
  intros Hok. split.
  { apply removeAll_no_error; [exact Hndrm|].
    intros r Hr. split; [now apply Hok|].
    apply Hpresent. rewrite Hsplit, elem_of_app. auto. }
  intros f Hf. split.
  - intros Hsome. rewrite Hsplit, elem_of_app in Hf. destruct Hf as [Hf|Hf]; [exact Hf|].
    rewrite (removeAll_removes env remove disk None f Hf (Hok f Hf)) in Hsome.
    destruct Hsome as [n Hn]. discriminate Hn.
  - intros Hk. rewrite (Hkept f Hk). apply Hpresent, Hf.
Qed.

Lemma backups_limit_keeps_newest_witness :
  exists remove remaining disk',
    oldLogFiles demo_env demo_logger quiet_world demo_disk = Some (inr demo_files) /\
    backupsLoop 2 demo_files ∅ [] [] = (remove, remaining) /\
    (fun f => Name (info f)) <$> remove =
      ["mmap-2024-01-02T00-00-00.000.log"; "mmap-2024-01-01T00-00-00.000.log"] /\
    (fun f => Name (info f)) <$> remaining =
      ["mmap-2024-01-04T00-00-00.000.log"; "mmap-2024-01-03T00-00-00.000.log";
       "mmap-2024-01-03T00-00-00.000.log.gz"] /\
    demo_files = remaining ++ remove /\
    set_len (stems remaining) = 2 /\
    millRunOnce demo_env demo_logger quiet_world demo_disk = Some (disk', None) /\
    disk' !! "mmap-2024-01-02T00-00-00.000.log" = None /\
    disk' !! "mmap-2024-01-01T00-00-00.000.log" = None /\
    disk' !! "mmap-2024-01-04T00-00-00.000.log" = Some (RegFile [x34]) /\
    disk' !! "mmap-2024-01-03T00-00-00.000.log" = Some (RegFile [x33]) /\
    disk' !! "mmap-2024-01-03T00-00-00.000.log.gz" = Some (RegFile [x1f; x8b; x33]) /\
    disk' !! "mmap.log" = Some (RegFile hello) /\
    oldLogFiles demo_env demo_logger quiet_world disk' = Some (inr remaining).
Proof.
  assert (E : oldLogFiles demo_env demo_logger quiet_world demo_disk = Some (inr demo_files))
    by (vm_compute; reflexivity).
  destruct (backups_limit_keeps_newest demo_env demo_logger quiet_world demo_disk
              demo_files E eq_refl eq_refl)
    as (remove & remaining & disk' & err & Hloop & Hrun & _ & _ & Hsplit & _ & Hcount
        & _ & _ & _ & Hgone & Hrest).
  destruct (Hrest eq_refl eq_refl) as (Hkept & Hother & Hclean).
  vm_compute in Hloop. injection Hloop as <- <-.
  destruct (Hclean (fun _ _ => eq_refl)) as [-> _].
  assert (Hswept : millRunOnce demo_env demo_logger quiet_world demo_disk =
            Some (delete "mmap-2024-01-01T00-00-00.000.log"
                    (delete "mmap-2024-01-02T00-00-00.000.log" demo_disk), None))
    by (vm_compute; reflexivity).
  assert (In2 : demo_file 2 "mmap-2024-01-02T00-00-00.000.log"
                ∈ [demo_file 2 "mmap-2024-01-02T00-00-00.000.log";
                   demo_file 1 "mmap-2024-01-01T00-00-00.000.log"])
    by apply list_elem_of_here.
  assert (In1 : demo_file 1 "mmap-2024-01-01T00-00-00.000.log"
                ∈ [demo_file 2 "mmap-2024-01-02T00-00-00.000.log";
                   demo_file 1 "mmap-2024-01-01T00-00-00.000.log"])
    by apply list_elem_of_further, list_elem_of_here.
  assert (In4 : demo_file 4 "mmap-2024-01-04T00-00-00.000.log"
                ∈ [demo_file 4 "mmap-2024-01-04T00-00-00.000.log";
                   demo_file 3 "mmap-2024-01-03T00-00-00.000.log";
                   demo_file 3 "mmap-2024-01-03T00-00-00.000.log.gz"])
    by apply list_elem_of_here.
  assert (In3 : demo_file 3 "mmap-2024-01-03T00-00-00.000.log"
                ∈ [demo_file 4 "mmap-2024-01-04T00-00-00.000.log";
                   demo_file 3 "mmap-2024-01-03T00-00-00.000.log";
                   demo_file 3 "mmap-2024-01-03T00-00-00.000.log.gz"])
    by apply list_elem_of_further, list_elem_of_here.
  assert (In3z : demo_file 3 "mmap-2024-01-03T00-00-00.000.log.gz"
                ∈ [demo_file 4 "mmap-2024-01-04T00-00-00.000.log";
                   demo_file 3 "mmap-2024-01-03T00-00-00.000.log";
                   demo_file 3 "mmap-2024-01-03T00-00-00.000.log.gz"])
    by apply list_elem_of_further, list_elem_of_further, list_elem_of_here.
  exists [demo_file 2 "mmap-2024-01-02T00-00-00.000.log";
          demo_file 1 "mmap-2024-01-01T00-00-00.000.log"],
         [demo_file 4 "mmap-2024-01-04T00-00-00.000.log";
          demo_file 3 "mmap-2024-01-03T00-00-00.000.log";
          demo_file 3 "mmap-2024-01-03T00-00-00.000.log.gz"], disk'.
  split; [exact E|]. split; [vm_compute; reflexivity|].
  split; [reflexivity|]. split; [reflexivity|]. split; [exact Hsplit|].
  split; [etransitivity; [exact Hcount | vm_compute; reflexivity]|].
  split; [exact Hrun|].
  split; [exact (Hgone eq_refl _ In2 eq_refl)|].
  split; [exact (Hgone eq_refl _ In1 eq_refl)|].
  split; [etransitivity; [exact (Hkept _ In4) | vm_compute; reflexivity]|].
  split; [etransitivity; [exact (Hkept _ In3) | vm_compute; reflexivity]|].
  split; [etransitivity; [exact (Hkept _ In3z) | vm_compute; reflexivity]|].
  split.
  { rewrite (Hother "mmap.log"); [vm_compute; reflexivity|].
    intros r Hr. apply elem_of_cons in Hr as [->|Hr]; [discriminate|].
    apply elem_of_cons in Hr as [->|Hr]; [discriminate | inversion Hr]. }
  rewrite Hswept in Hrun. injection Hrun as <-.
  vm_compute. reflexivity.
Defined.

(* ===================================================================== *)
(** * Further properties of the sweep *)
(* ===================================================================== *)

(** X14. A sweep touches only names that start with the prefix of the
    log file (its stem and a dash): every other entry of the directory,
    the active log file included, is after [millRunOnce] what it was
    before, whatever fails in between. *)
Theorem sweep_touches_prefixed_names_only (env : SweepEnv) (l : MMapLogger) (w : World)
  (disk disk' : gmap string node) (err : option sweep_error) (a : string) :
  HasPrefix a (fst (prefixAndExt l w)) = false ->
  millRunOnce env l w disk = Some (disk', err) ->
  disk' !! a = disk !! a.
Proof.
  intros Ha H. unfold millRunOnce in H.
  destruct (_ && _); [now injection H as <- <-|].
  destruct (oldLogFiles env l w disk) as [[e|files]|] eqn:Ho; [| |discriminate H].
  { now injection H as <- <-. }
  apply oldLogFiles_ok in Ho. destruct Ho as [_ Hc].
  pose proof (millSelect_subset env l files) as Hsub.
  destruct (millSelect env l files) as [remove compress]. simpl in Hsub.
  assert (Hfar : forall f, f ∈ files ->
            Name (info f) <> a /\ Name (info f) +:+ compressSuffix <> a).
  { intros f Hf. rewrite Forall_forall in Hc. destruct (Hc f Hf) as [(_ & Hp & _) _].
    split; intros Heq.
    - rewrite Heq in Hp. congruence.
    - apply (HasPrefix_app_l _ compressSuffix) in Hp. rewrite Heq in Hp. congruence. }
  pose proof (removeAll_other env a remove disk None) as Hr.
  destruct (removeAll env remove disk None) as [disk1 err1]. simpl in Hr.
  pose proof (compressAll_other env a compress disk1 err1) as Hz.
  injection H as H. rewrite H in Hz. simpl in Hz.
  rewrite Hz, Hr; [reflexivity| |].
  - apply Forall_forall. intros f Hf. apply Hfar. auto.
  - apply Forall_forall. intros f Hf. apply Hfar. auto.
Qed.

Lemma sweep_touches_prefixed_names_only_witness :
  exists disk' err,
    millRunOnce demo_env demo_logger quiet_world demo_disk = Some (disk', err) /\
    disk' !! "notes.txt" = Some (RegFile [x6e]).
Proof.
  assert (Hs : match millRunOnce demo_env demo_logger quiet_world demo_disk with
               | Some _ => True
               | None => False
               end) by (vm_compute; exact I).
  destruct (millRunOnce demo_env demo_logger quiet_world demo_disk)
    as [[disk' err]|] eqn:E; [|destruct Hs].
  exists disk', err. split; [reflexivity|].
  assert (Ha : HasPrefix "notes.txt" (fst (prefixAndExt demo_logger quiet_world)) = false)
    by (vm_compute; reflexivity).
  rewrite (sweep_touches_prefixed_names_only demo_env demo_logger quiet_world demo_disk
             disk' err "notes.txt" Ha E).
  vm_compute. reflexivity.
Defined.

(** X15. With an age limit of [MaxAge] days (at most 106751, so that the
    duration fits 64 bits) the cutoff is [MaxAge] days before now: every
    candidate stamped before the cutoff is marked for removal, no file
    marked for compression is older than the cutoff, and when the limit on
    the number of backups does not apply the removals are exactly the
    candidates older than the cutoff. *)
Theorem MaxAge_removes_older_backups (env : SweepEnv) (l : MMapLogger)
  (files : list logInfo) :
  0 < MaxAge l <= 106751 ->
  let cutoff := now env - MaxAge l * day_ns in
  (forall f, f ∈ files -> timestamp f < cutoff -> f ∈ fst (millSelect env l files)) /\
  (forall f, f ∈ snd (millSelect env l files) -> cutoff <= timestamp f) /\
  (MaxBackups l <= 0 \/ Z.of_nat (length files) <= MaxBackups l ->
   fst (millSelect env l files) = filter (fun f => timestamp f < cutoff) files).
Proof.
  intros Hage cutoff.
  assert (Hcut : now env + wrap64 (-1 * wrap64 (day_ns * MaxAge l)) = cutoff).
  { subst cutoff. unfold day_ns in *.
    rewrite (wrap64_small (_ * MaxAge l))
      by (unfold in_int64, min_int64, max_int64; lia).
    rewrite wrap64_small by (unfold in_int64, min_int64, max_int64; lia). lia. }
  destruct (millSelect_unfold env l files) as (Hperm & Hrm & Hcomp).
  rewrite Hcut in *.
  destruct (MaxAge l >? 0) eqn:E; [|lia].
  set (r1 := if (MaxBackups l >? 0) && (MaxBackups l <? Z.of_nat (length files))
             then backupsLoop (MaxBackups l) files ∅ [] []
             else ([], files)) in *.
  split; [|split].
  - intros f Hf Hold. rewrite Hperm in Hf. apply elem_of_app in Hf.
    destruct Hf as [Hf|Hf]; [exact Hf|].
    apply list_elem_of_filter in Hf. destruct Hf as [Hn _]. contradiction.
  - intros f Hf. rewrite Hcomp in Hf. destruct (Compress l); [|inversion Hf].
    apply list_elem_of_filter in Hf. destruct Hf as [_ Hf].
    apply list_elem_of_filter in Hf. destruct Hf as [Hn _]. lia.
  - intros Hno. rewrite Hrm. subst r1.
    destruct (_ && _) eqn:Ec; [|reflexivity].
    apply andb_true_iff in Ec. destruct Ec as [E1 E2]. lia.
Qed.

Lemma MaxAge_removes_older_backups_witness :
  fst (millSelect demo_env (newLogger "./log/mmap.log" 100 30 0 false) demo_files) =
  filter (fun f => timestamp f < 6 - 30 * day_ns) demo_files.
Proof.
  assert (Hage : 0 < MaxAge (newLogger "./log/mmap.log" 100 30 0 false) <= 106751)
    by (simpl; lia).
  destruct (MaxAge_removes_older_backups demo_env
              (newLogger "./log/mmap.log" 100 30 0 false) demo_files Hage) as (_ & _ & H).
  apply H. left. simpl. lia.
Defined.

(** X16. The removals of a sweep are best effort: every listed file whose
    removal the environment allows is gone afterwards, also after earlier
    failures; a file whose removal fails and every file not listed are as
    before; when no error is returned no removal was refused; and the
    error returned names one of the listed files. *)
Theorem removeAll_is_best_effort (env : SweepEnv) (remove : list logInfo)
  (disk : gmap string node) :
  let r := removeAll env remove disk None in
  (forall f, f ∈ remove -> sfails env (Name (info f)) SRemove = false ->
     fst r !! Name (info f) = None) /\
  (forall f, f ∈ remove -> sfails env (Name (info f)) SRemove = true ->
     fst r !! Name (info f) = disk !! Name (info f)) /\
  (forall a, Forall (fun f => Name (info f) <> a) remove -> fst r !! a = disk !! a) /\
  (snd r = None ->
     forall f, f ∈ remove -> sfails env (Name (info f)) SRemove = false) /\
  (forall e, snd r = Some e -> exists f, f ∈ remove /\ e = ERemove (Name (info f))).
Proof.
  cbv zeta. split; [|split; [|split; [|split]]].
  - generalize (@None sweep_error) at 1 as err. revert disk.
    induction remove as [|f remove IH]; intros disk err g Hg Hok; [inversion Hg|].
    simpl. apply elem_of_cons in Hg.
    destruct (os_Remove env (Name (info f)) disk) as [disk1 ok] eqn:Hrm.
    destruct Hg as [->|Hg]; [|now apply IH].
    apply removeAll_gone.
    unfold os_Remove in Hrm. rewrite Hok in Hrm.
    destruct (disk !! Name (info f)) eqn:Hd; injection Hrm as <- <-;
      [apply lookup_delete_eq | exact Hd].
  - intros f _ Hbad. now apply removeAll_failing.
  - intros a Ha. now apply removeAll_other.
  - assert (G : forall err0 disk0,
              snd (removeAll env remove disk0 err0) = None ->
              forall g, g ∈ remove -> sfails env (Name (info g)) SRemove = false).
    { induction remove as [|f remove IH]; intros err0 disk0 Hnone g Hg; [inversion Hg|].
      simpl in Hnone.
      destruct (os_Remove env (Name (info f)) disk0) as [disk1 ok] eqn:Hrm.
      apply elem_of_cons in Hg. destruct Hg as [->|Hg]; [|eapply IH; eauto].
      destruct err0 as [e0|]; simpl in Hnone;
        [rewrite removeAll_err in Hnone; discriminate Hnone|].
      destruct ok; [|rewrite removeAll_err in Hnone; discriminate Hnone].
      unfold os_Remove in Hrm.
      destruct (sfails env (Name (info f)) SRemove); [|reflexivity].
      injection Hrm as _ Hok. discriminate Hok. }
    apply G.
  - assert (G : forall err0 disk0 e,
              snd (removeAll env remove disk0 err0) = Some e ->
              err0 = Some e \/ exists f, f ∈ remove /\ e = ERemove (Name (info f))).
    { induction remove as [|f remove IH]; intros err0 disk0 e He; simpl in He.
      - now left.
      - destruct (os_Remove env (Name (info f)) disk0) as [disk1 ok].
        apply IH in He. destruct He as [He|(g & Hg & ->)].
        + destruct err0 as [e0|]; [now left|].
          destruct ok; [discriminate He|]. injection He as <-.
          right. exists f. split; [apply list_elem_of_here | reflexivity].
        + right. exists g. split; [now apply list_elem_of_further | reflexivity]. }
    intros e He. apply G in He. destruct He as [He|He]; [discriminate He | exact He].
Qed.

(** X17. The sweep recognises the backups the writer makes:
    [timeFromName] applied to a name built by [backupName] gives back the
    stamp as the parser reads it and never panics; and a regular file with
    such a name and a stamp that parses is among the candidates that
    [oldLogFiles] returns, with the parsed time. *)
Theorem backup_is_found_by_sweep (env : SweepEnv) (l : MMapLogger) (w : World)
  (disk : gmap string node) (st : string) :
  timeFromName env (backupName (filename l w) st)
    (fst (prefixAndExt l w)) (snd (prefixAndExt l w)) =
  match parseTime env st with
  | Some t => Stamp t
  | None => NoMatch
  end /\
  forall t c files,
    parseTime env st = Some t ->
    disk !! backupName (filename l w) st = Some (RegFile c) ->
    oldLogFiles env l w disk = Some (inr files) ->
    exists f, f ∈ files /\ Name (info f) = backupName (filename l w) st /\
              IsDir (info f) = false /\ timestamp f = t.
Proof.
  split; [apply timeFromName_backupName|].
  intros t c files Hp Hd H.
  pose proof (timeFromName_backupName env l w st) as Ht. rewrite Hp in Ht.
  unfold oldLogFiles in H. destruct (sfails env "." SReadDir); [discriminate H|].
  destruct (prefixAndExt l w) as [prefix ext]. simpl in Ht.
  destruct (scanDir env prefix ext (ReadDir disk) []) as [logFiles|] eqn:Hscan;
    [|discriminate H].
  injection H as <-.
  eexists. split.
  - rewrite merge_sort_Permutation.
    eapply scanDir_complete; [exact Hscan | eapply ReadDir_elem; exact Hd | reflexivity | exact Ht].
  - repeat split.
Qed.

(** X18. When the extension of the log file contains no dash, the slice
    expression of [timeFromName] is never reached with crossed bounds, for
    any file name and for both extensions tried; hence [oldLogFiles] and
    [millRunOnce] return whatever the directory holds. *)
Theorem sweep_never_panics_without_dash_in_ext (env : SweepEnv) (l : MMapLogger)
  (w : World) (disk : gmap string node) :
  "-"%char ∉ list_ascii_of_string (Ext (entry l w)) ->
  (forall name x, x = Ext (entry l w) \/ x = Ext (entry l w) +:+ compressSuffix ->
     timeFromName env name (fst (prefixAndExt l w)) x <> BoundsPanic) /\
  is_Some (oldLogFiles env l w disk) /\
  is_Some (millRunOnce env l w disk).
Proof.
  intros Hno.
  assert (Hgz : "-"%char ∉ list_ascii_of_string (Ext (entry l w) +:+ compressSuffix)).
  { rewrite list_ascii_app. intros H. apply elem_of_app in H. destruct H as [H|H]; [auto|].
    vm_compute in H. set_solver. }
  assert (Hold : is_Some (oldLogFiles env l w disk)).
  { unfold oldLogFiles. destruct (sfails env "." SReadDir); [eauto|].
    unfold prefixAndExt. cbv zeta.
    destruct (scanDir_no_panic env (trimExt (Base (filename l w))) (Ext (Base (filename l w)))
                (ReadDir disk) [] Hno) as [out ->]. eauto. }
  split; [|split; [exact Hold|]].
  - intros name x [->| ->]; unfold prefixAndExt; cbn [fst];
      now apply timeFromName_no_panic.
  - unfold millRunOnce. destruct (_ && _); [eauto|].
    destruct Hold as [[e|files] ->]; [eauto|].
    destruct (millSelect env l files) as [remove compress].
    destruct (removeAll env remove disk None) as [disk1 err]. eauto.
Qed.

Lemma sweep_never_panics_without_dash_in_ext_witness :
  is_Some (millRunOnce demo_env logger0 quiet_world demo_disk).
Proof.
  assert (Hno : "-"%char ∉ list_ascii_of_string (Ext (entry logger0 quiet_world))).
  { change (Ext (entry logger0 quiet_world)) with ".log". simpl. intros H.
    repeat (apply elem_of_cons in H; destruct H as [H|H]; [discriminate H|]).
    inversion H. }
  exact (proj2 (proj2 (sweep_never_panics_without_dash_in_ext demo_env logger0
                         quiet_world demo_disk Hno))).
Defined.

(** X19. A sweep never tries to compress a file it removes: the
    candidates bear pairwise distinct names, so no file marked for removal
    has the name of a file marked for compression; and files are marked for
    compression only when [Compress] is set and their name does not already
    end in the compressed suffix. *)
Theorem sweep_never_compresses_a_removed_file (env : SweepEnv) (l : MMapLogger)
  (w : World) (disk : gmap string node) (files : list logInfo) :
  oldLogFiles env l w disk = Some (inr files) ->
  forall f g,
    f ∈ fst (millSelect env l files) -> g ∈ snd (millSelect env l files) ->
    Name (info f) <> Name (info g) /\
    HasSuffix (Name (info g)) compressSuffix = false /\
    Compress l = true.
Proof.
  intros Hold f g Hf Hg.
  apply oldLogFiles_names_NoDup in Hold.
  destruct (millSelect_unfold env l files) as (Hperm & _ & Hcomp).
  rewrite Hcomp in Hg. destruct (Compress l); [|inversion Hg].
  apply list_elem_of_filter in Hg. destruct Hg as [Hgz Hg].
  split; [|split; [exact Hgz | reflexivity]].
  rewrite Hperm, fmap_app in Hold. apply NoDup_app in Hold.
  destruct Hold as (_ & Hdisj & _). intros Heq.
  apply (Hdisj (Name (info f))).
  - apply list_elem_of_fmap. eauto.
  - rewrite Heq. apply list_elem_of_fmap. eauto.
Qed.

Lemma sweep_never_compresses_a_removed_file_witness :
  oldLogFiles demo_env compress_logger quiet_world demo_disk = Some (inr demo_files) /\
  forall f g,
    f ∈ fst (millSelect demo_env compress_logger demo_files) ->
    g ∈ snd (millSelect demo_env compress_logger demo_files) ->
    Name (info f) <> Name (info g).
Proof.
  assert (E : oldLogFiles demo_env compress_logger quiet_world demo_disk
              = Some (inr demo_files)) by (vm_compute; reflexivity).
  split; [exact E|]. intros f g Hf Hg.
  exact (proj1 (sweep_never_compresses_a_removed_file demo_env compress_logger
                  quiet_world demo_disk demo_files E f g Hf Hg)).
Defined.

(** X20. [compressLogFile] succeeds when nothing fails: for a regular
    source and a destination that is not a directory it returns no error,
    the source is gone, every other entry is unchanged, and the destination
    holds the compressed stream of the source. The destination is not
    truncated when opened: if it existed and was longer than the stream,
    its old bytes remain after the stream. *)
Theorem compressLogFile_succeeds (env : SweepEnv) (src dst : string)
  (disk : gmap string node) (bytes : list byte) :
  src <> dst ->
  (forall op, sfails env src op = false) -> (forall op, sfails env dst op = false) ->
  disk !! src = Some (RegFile bytes) -> disk !! dst <> Some SubDir ->
  let old := match disk !! dst with Some (RegFile o) => o | _ => [] end in
  let r := compressLogFile env src dst disk in
  snd r = None /\
  fst r !! src = None /\
  fst r !! dst = Some (RegFile (gzip env bytes ++ drop (length (gzip env bytes)) old)) /\
  forall a, a <> src -> a <> dst -> fst r !! a = disk !! a.
Proof.
  intros Hne Hs Hd Hsrc Hdst old r.
  assert (Hother : forall a, a <> src -> a <> dst -> fst r !! a = disk !! a).
  { intros a H1 H2. subst r. apply compressLogFile_other; congruence. }
  split; [|split; [|split; [|exact Hother]]]; subst r old;
    unfold compressLogFile, os_Create, os_Remove, write_over, overwrite;
    rewrite !Hs, !Hd, Hsrc; simpl.
  all: destruct (disk !! dst) as [[o|]|] eqn:E; try congruence; simpl.
  all: rewrite ?E, ?Hs, ?Hd; simpl; simplify_map_eq; try reflexivity.
Qed.

Lemma compressLogFile_succeeds_witness :
  let src := "mmap-2024-01-04T00-00-00.000.log" in
  let r := compressLogFile demo_env src (src +:+ compressSuffix) demo_disk in
  snd r = None /\ fst r !! src = None /\
  fst r !! (src +:+ compressSuffix) = Some (RegFile [x1f; x8b; x34]).
Proof.
  intros src r.
  assert (Hne : src <> src +:+ compressSuffix) by (apply String.eqb_neq; reflexivity).
  assert (Hnd : demo_disk !! (src +:+ compressSuffix) <> Some SubDir)
    by (vm_compute; discriminate).
  destruct (compressLogFile_succeeds demo_env src (src +:+ compressSuffix) demo_disk [x34]
              Hne (fun _ => eq_refl) (fun _ => eq_refl) eq_refl Hnd)
    as (He & Hs & Hd & _).
  subst r. split; [exact He|]. split; [exact Hs|]. rewrite Hd. reflexivity.
Defined.

(** X21. A failure to change the owner of the destination leaves an
    empty destination behind: [compressLogFile] has created the file
    before the call fails, returns the chown error, and the cleanup that
    removes the destination is not yet in place; the source is untouched. *)
Theorem compressLogFile_chown_failure_leaves_empty_file (env : SweepEnv) (src dst : string)
  (disk : gmap string node) (node0 : node) :
  src <> dst ->
  sfails env src SOpen = false -> sfails env src SStat = false ->
  sfails env dst SCreate = false -> sfails env dst SChown = true ->
  disk !! src = Some node0 -> disk !! dst = None ->
  compressLogFile env src dst disk = (<[dst := RegFile []]> disk, Some EChownDst).
Proof.
  intros Hne H1 H2 H3 H4 Hsrc Hdst.
  unfold compressLogFile, os_Create. rewrite H1, Hsrc, H2, H3, Hdst. simpl.
  rewrite H4. reflexivity.
Qed.

Lemma compressLogFile_chown_failure_leaves_empty_file_witness :
  let src := "mmap-2024-01-04T00-00-00.000.log" in
  let dst := src +:+ compressSuffix in
  compressLogFile (failing_chown_env dst) src dst demo_disk
  = (<[dst := RegFile []]> demo_disk, Some EChownDst).
Proof.
  intros src dst.
  assert (Hne : src <> dst) by (apply String.eqb_neq; reflexivity).
  exact (compressLogFile_chown_failure_leaves_empty_file (failing_chown_env dst) src dst
           demo_disk (RegFile [x34]) Hne eq_refl eq_refl eq_refl eq_refl eq_refl eq_refl).
Defined.

(* ===================================================================== *)
(** * The writer that [New] builds *)
(* ===================================================================== *)

(** X22. [New] never builds a writer without limits: whatever the
    configuration (nil included), the size, age and backup limits of the
    [MMapLogger] are positive (a zero or negative value becomes 100, 30
    and 10, a positive one is kept), local time is used, the file name is
    the configured one or "./log/main.log" and never the default in the
    temporary directory, the sweep is never skipped, and for a size limit
    within 64 bits [max] is that many mebibytes. *)
Theorem New_fills_in_every_limit (config : option Log.Config) (w : World) :
  let l := Log.New_mmapLogger config in
  0 < MaxSize l /\ 0 < MaxAge l /\ 0 < MaxBackups l /\
  LocalTime l = true /\
  Filename l <> "" /\ filename l w = Filename l /\
  (MaxBackups l =? 0) && (MaxAge l =? 0) && negb (Compress l) = false /\
  (MaxSize l <= 8796093022207 -> max l = MaxSize l * 1048576) /\
  (forall c, config = Some c ->
     (0 < Log.MaxSize c -> MaxSize l = Log.MaxSize c) /\
     (0 < Log.MaxAge c -> MaxAge l = Log.MaxAge c) /\
     (0 < Log.MaxBackups c -> MaxBackups l = Log.MaxBackups c) /\
     (Log.Filename c <> "" -> Filename l = Log.Filename c) /\
     Compress l = Log.Compress c).
Proof.
  cbv zeta. unfold Log.New_mmapLogger, Log.fill_defaults, newLogger, filename, max.
  set (c := match config with Some c => c | None => Log.defaultConfig end).
  cbn [MaxSize MaxAge MaxBackups LocalTime Filename Compress
       Log.MaxSize Log.MaxAge Log.MaxBackups Log.Filename Log.Compress].
  unfold Log.defaultMaxSize, Log.defaultMaxAge, Log.defaultMaxBackups, Log.defaultFilename.
  assert (Hfn : (if String.eqb (Log.Filename c) "" then "./log/main.log"
                 else Log.Filename c) <> "").
  { destruct (String.eqb (Log.Filename c) "") eqn:E; [discriminate|].
    now apply String.eqb_neq. }
  repeat split.
  - destruct (Log.MaxSize c <=? 0) eqn:E; lia.
  - destruct (Log.MaxAge c <=? 0) eqn:E; lia.
  - destruct (Log.MaxBackups c <=? 0) eqn:E; lia.
  - exact Hfn.
  - apply String.eqb_neq in Hfn. now rewrite Hfn.
  - destruct (Log.MaxAge c <=? 0) eqn:E.
    + now rewrite andb_false_r.
    + destruct (Log.MaxAge c =? 0) eqn:E0; [lia|]. now rewrite andb_false_r.
  - intros Hle. destruct (Log.MaxSize c <=? 0) eqn:E.
    + reflexivity.
    + destruct (Log.MaxSize c =? 0) eqn:E0; [lia|].
      unfold megabyte. apply wrap64_small. unfold in_int64, min_int64, max_int64. lia.
  - intros Hpos. subst c config. destruct (Log.MaxSize _ <=? 0) eqn:E; [lia | reflexivity].
  - intros Hpos. subst c config. destruct (Log.MaxAge _ <=? 0) eqn:E; [lia | reflexivity].
  - intros Hpos. subst c config.
    destruct (Log.MaxBackups _ <=? 0) eqn:E; [lia | reflexivity].
  - intros Hn. subst c config. apply String.eqb_neq in Hn. now rewrite Hn.
  - subst c config. reflexivity.
Qed.

(** X23. The mmap writer cannot be selected from text: a successful
    [Output.UnmarshalText] yields the console or the file output, for which
    [New] hands zap the standard output or the lumberjack writer and never
    the [MMapLogger]; a failed call leaves the receiver as it was; and the
    text "mmap" (in any case [strings.ToLower] folds) is refused. *)
Theorem text_output_never_selects_mmap (ToLower : string -> string) (o : Z)
  (text : string) (config : Log.Config) :
  let r := Log.Output_UnmarshalText ToLower o text in
  (snd r = None ->
     (fst r = Log.OutputConsole \/ fst r = Log.OutputFile) /\
     Log.New_writeSyncer (Some (Log.with_output (fst r) config)) <> Log.ToMMapLogger) /\
  (snd r <> None -> fst r = o) /\
  (ToLower text = "mmap" -> snd r <> None).
Proof.
  cbv zeta. unfold Log.Output_UnmarshalText, Log.outputMap.
  destruct (String.eqb (ToLower text) "console") eqn:E1; simpl.
  - repeat split; try congruence; auto.
    intros H. rewrite H in E1. discriminate E1.
  - destruct (String.eqb (ToLower text) "file") eqn:E2; simpl.
    + repeat split; try congruence; auto.
      intros H. rewrite H in E2. discriminate E2.
    + repeat split; congruence.
Qed.
